(** * A shallow embedding of the tree-walking interpreter

    The development follows [src/interpreter/interpreter.py] and
    [src/parser/runtime.py]: the AST of [src/parser/ast.py], the value
    model, [Environment], [Function], [BuiltinFunction], [LoxClass],
    [LoxInstance] and the visitor methods of [Interpreter].

    Python objects that are mutated in place and shared by reference
    (environments, lists, dictionaries, instances) live in stores indexed
    by location; immutable objects ([Function], [BuiltinFunction],
    [LoxClass]) are values that carry an identity number, which is all
    that [==] observes of them.  Loops and recursion of the interpreter are
    bounded by a fuel argument.

    What the model leaves to the host or does not represent:
    - the value of a float and every operation on it are an interface
      ([Host]); a float object carries its identity beside its value,
      which is what [x is y] observes in the lookup of a key;
    - the limits of the host that are rules are part of the model: an
      integer of more than 4300 digits is not converted to or from text,
      a repetition count is an index-sized integer; the exhaustion of
      memory or of the host's stack is not represented;
    - a string is a sequence of one-byte characters;
    - the result of [**] is a number or an exception (no complex number);
    - a statement list inside a block or a body holds statements only;
      the [None] entries the parser leaves after a syntax error occur at
      top level, where [interpret] skips them. *)

From Stdlib Require Import ZArith String Ascii List DecimalString.
From stdpp Require Import base option list strings gmap fin_maps.
Import ListNotations.
Open Scope string_scope.
Open Scope Z_scope.

Set Default Proof Using "Type".
Set Warnings "-register-all".

Definition loc := nat.

(** ** Host exceptions

    Exceptions of the host language other than the interpreter's own
    [RuntimeError] class.  [BuiltinRuntimeError] is Python's built-in
    [RuntimeError]: the module [interpreter.py] shadows that name with its
    own class, the module [runtime.py] does not import it. *)

Inductive py_error :=
| BuiltinRuntimeError (msg : string)
| AttributeError (msg : string)
| IndexError (msg : string)
| TypeError (msg : string)
| ValueError (msg : string)
| ZeroDivisionError
| OverflowError (msg : string)
| MemoryError
| EOFError.

(** ** The host's number and text primitives

    Floating-point numbers are values of the host; the interpreter only
    passes them to the host's operators.  The carrier and the operators
    are therefore taken as an interface.  Integers are Python's unbounded
    integers and are computed here. *)

Inductive arith := Add | Sub | Mul | Div | Mod | Pow.

Section HostInterface.
Variable float : Type.

Inductive num := NInt (n : Z) | NFloat (f : float).

(** [host_arith]: [a op b] when an operand or the result is a float;
    [host_compare]: three-way comparison, [None] when unordered (NaN);
    [host_neg]: [-x]; [host_float_str]: [str(x)];
    [host_float_of_string]: [float(text)];
    [host_str_repr]: [repr(s)] of a string, quoted and escaped;
    [host_obj_repr]: [object.__repr__], from the qualified class name and
    the identity of the object. *)
Record host_ops := {
  host_arith : arith -> num -> num -> py_error + num;
  host_compare : num -> num -> option comparison;
  host_neg : float -> float;
  host_float_str : float -> string;
  host_float_of_string : string -> py_error + float;
  host_str_repr : string -> string;
  host_obj_repr : string -> nat -> string
}.
End HostInterface.

Record Host := {
  float : Type;
  ops :> host_ops float
}.

Arguments NInt {float} n.
Arguments NFloat {float} f.
Arguments host_arith {float} _ _ _ _.
Arguments host_compare {float} _ _ _.
Arguments host_neg {float} _ _.
Arguments host_float_str {float} _ _.
Arguments host_float_of_string {float} _ _.
Arguments host_str_repr {float} _ _.
Arguments host_obj_repr {float} _ _ _.

(** ** Syntax ([src/parser/ast.py], as built by [src/parser/parser.py]) *)

Inductive binop :=
| MINUS | PLUS | SLASH | STAR | MODULO | EXPODENT
| GREATER | GREATER_EQUAL | LESS | LESS_EQUAL
| BANG_EQUAL | EQUAL_EQUAL.

Inductive unop := BANG | UMINUS.

Inductive logop := OR | AND.

Section Syntax.
Variable float : Type.

(** Literal values the lexer and parser produce: [True]/[False], numbers
    (whole numbers are integers), strings.  The lexer makes one float
    object for each number token that is not whole; [i] tells the objects
    of a program apart. *)
Inductive literal :=
| LBool (b : bool)
| LInt (n : Z)
| LFloat (i : nat) (f : float)
| LStr (s : string).

Inductive expr :=
| Binary (left : expr) (operator : binop) (right : expr)
| Grouping (expression : expr)
| Literal (value : literal)
| Unary (operator : unop) (right : expr)
| Variable_ (name : string)
| Assign (name : string) (value : expr)
| Call (callee : expr) (arguments : list expr)
| Get (object : expr) (name : string)
| Set_ (object : expr) (name : string) (value : expr)
| List_ (elements : list expr)
| Index (object : expr) (index : expr)
| IndexAssign (object : expr) (index : expr) (value : expr)
| Dictionary (keys : list expr) (values : list expr)
| Logical (left : expr) (operator : logop) (right : expr)
| This
| Super (method : string)
| New (class_name : string) (arguments : list expr).

Inductive stmt :=
| ExpressionStmt (expression : expr)
| PrintStmt (expression : expr)
| InputStmt (variable : string) (prompt : option expr)
| BlockStmt (statements : list stmt)
| IfStmt (condition : expr) (then_branch : stmt) (else_branch : option stmt)
| WhileStmt (condition : expr) (body : stmt)
| FunctionStmt (declaration : fundecl)
| ReturnStmt (value : option expr)
| ForEach (variable : string) (iterable : expr) (body : stmt)
| Class (name : string) (superclass : option expr) (methods : list fundecl)
with fundecl :=
| FunDecl (name : string) (params : list string) (body : list stmt).

Definition decl_name (d : fundecl) : string :=
  match d with FunDecl n _ _ => n end.
Definition decl_params (d : fundecl) : list string :=
  match d with FunDecl _ ps _ => ps end.
Definition decl_body (d : fundecl) : list stmt :=
  match d with FunDecl _ _ b => b end.
End Syntax.

Arguments LBool {float}.
Arguments LInt {float}.
Arguments LFloat {float}.
Arguments LStr {float}.
Arguments Binary {float}.
Arguments Grouping {float}.
Arguments Literal {float}.
Arguments Unary {float}.
Arguments Variable_ {float}.
Arguments Assign {float}.
Arguments Call {float}.
Arguments Get {float}.
Arguments Set_ {float}.
Arguments List_ {float}.
Arguments Index {float}.
Arguments IndexAssign {float}.
Arguments Dictionary {float}.
Arguments Logical {float}.
Arguments This {float}.
Arguments Super {float}.
Arguments New {float}.
Arguments ExpressionStmt {float}.
Arguments PrintStmt {float}.
Arguments InputStmt {float}.
Arguments BlockStmt {float}.
Arguments IfStmt {float}.
Arguments WhileStmt {float}.
Arguments FunctionStmt {float}.
Arguments ReturnStmt {float}.
Arguments ForEach {float}.
Arguments Class {float}.
Arguments FunDecl {float}.
Arguments decl_name {float}.
Arguments decl_params {float}.
Arguments decl_body {float}.

(** ** Text helpers of the host: [str] of an integer, [join], repetition *)

(** The decimal digits of an integer *)
Definition decimal (n : Z) : string := NilZero.string_of_int (Z.to_int n).

(** [sys.get_int_max_str_digits()]: the host refuses to convert an
    integer of more digits to text, and a text of more digits to an
    integer. *)
Definition max_str_digits : Z := 4300.

Definition too_many_digits_for_str : py_error :=
  ValueError ("Exceeds the limit (4300 digits) for integer string conversion; "
              ++ "use sys.set_int_max_str_digits() to increase the limit").

Definition too_many_digits_for_int (digits : nat) : py_error :=
  ValueError ("Exceeds the limit (4300 digits) for integer string conversion: value has "
              ++ decimal (Z.of_nat digits)
              ++ " digits; use sys.set_int_max_str_digits() to increase the limit").

(** [str(n)], [repr(n)] and [f"{n}"] of an integer: the sign does not
    count as a digit. *)
Definition py_str_int (n : Z) : py_error + string :=
  if 10 ^ max_str_digits <=? Z.abs n then inl too_many_digits_for_str
  else inr (decimal n).

(** [str(n)] of a length or of a parameter count: the sizes of the host
    are at most [sys.maxsize], which has 19 digits. *)
Definition py_str_nat (n : nat) : string := decimal (Z.of_nat n).

Fixpoint join (sep : string) (items : list string) : string :=
  match items with
  | [] => ""
  | [x] => x
  | x :: rest => x ++ sep ++ join sep rest
  end.

Fixpoint str_repeat (n : nat) (s : string) : string :=
  match n with
  | O => ""
  | S k => s ++ str_repeat k s
  end.

Fixpoint list_repeat {A} (n : nat) (l : list A) : list A :=
  match n with
  | O => []
  | S k => (l ++ list_repeat k l)%list
  end.

(** [text.endswith(".0")] followed by [text[:-2]] *)
Fixpoint strip_dot_zero (text : string) : string :=
  match text with
  | "" => ""
  | String c rest =>
      if String.eqb text ".0" then "" else String c (strip_dot_zero rest)
  end.

Definition is_digit (c : ascii) : bool :=
  (48 <=? Z.of_nat (nat_of_ascii c)) && (Z.of_nat (nat_of_ascii c) <=? 57).

Fixpoint all_digits (s : string) : bool :=
  match s with
  | "" => true
  | String c rest => is_digit c && all_digits rest
  end.

(** [s.isdigit()] on ASCII text *)
Definition isdigit (s : string) : bool :=
  negb (String.eqb s "") && all_digits s.

Fixpoint int_of_digits (acc : Z) (s : string) : Z :=
  match s with
  | "" => acc
  | String c rest => int_of_digits (10 * acc + (Z.of_nat (nat_of_ascii c) - 48)) rest
  end.

Fixpoint count_char (c : ascii) (s : string) : nat :=
  match s with
  | "" => O
  | String d rest => ((if Ascii.eqb c d then 1 else 0) + count_char c rest)%nat
  end.

(** [s.replace(c, '', 1)] *)
Fixpoint remove_first (c : ascii) (s : string) : string :=
  match s with
  | "" => ""
  | String d rest => if Ascii.eqb c d then rest else String d (remove_first c rest)
  end.

(** * A host without floats, and sample programs

    [integer_host] is the host restricted to programs that never produce
    a float: it has no float value, and the operations that would produce
    one raise.  A run on it that meets no such operation is a run of the
    program on the real host. *)

Definition integer_ops : host_ops Empty_set := {|
  host_arith := fun _ _ _ => inl (OverflowError "int too large to convert to float");
  host_compare := fun a b =>
    match a, b with
    | NInt x, NInt y => Some (x ?= y)
    | NFloat f, _ | _, NFloat f => match f : Empty_set with end
    end;
  host_neg := fun f => f;
  host_float_str := fun f => match f : Empty_set with end;
  host_float_of_string := fun _ => inl (ValueError "could not convert string to float");
  host_str_repr := fun s => "'" ++ s ++ "'";
  host_obj_repr := fun cls i => "<" ++ cls ++ " object>"
|}.

Definition integer_host : Host := {| float := Empty_set; ops := integer_ops |}.

Module Sample.

Definition num (n : Z) : expr Empty_set := Literal (LInt n).
Definition str (s : string) : expr Empty_set := Literal (LStr s).
Definition var (name : string) : expr Empty_set := Variable_ name.

(** [[
class A { describe() { return "A" } }
class B < A { describe() { return "B" + super.describe() } }
class C < B { describe() { return "C" + super.describe() } }
print new C().describe()
]] *)
Definition super_chain : list (option (stmt Empty_set)) :=
  [ Some (Class "A" None
      [FunDecl "describe" [] [ReturnStmt (Some (str "A"))]]);
    Some (Class "B" (Some (var "A"))
      [FunDecl "describe" []
         [ReturnStmt (Some (Binary (str "B") PLUS (Call (Super "describe") [])))]]);
    Some (Class "C" (Some (var "B"))
      [FunDecl "describe" []
         [ReturnStmt (Some (Binary (str "C") PLUS (Call (Super "describe") [])))]]);
    Some (PrintStmt (Call (Get (New "C" []) "describe") [])) ].

(** [[
class A { }
a = new A()
print "before"
print a.missing
print "after"
]] *)
Definition undefined_property : list (option (stmt Empty_set)) :=
  [ Some (Class "A" None []);
    Some (ExpressionStmt (Assign "a" (New "A" [])));
    Some (PrintStmt (str "before"));
    Some (PrintStmt (Get (var "a") "missing"));
    Some (PrintStmt (str "after")) ].

(** [[
print "before"
print missing
print "after"
]] *)
Definition undefined_variable : list (option (stmt Empty_set)) :=
  [ Some (PrintStmt (str "before"));
    Some (PrintStmt (var "missing"));
    Some (PrintStmt (str "after")) ].

(** [[
function f(a, b) { print a }
]] *)
Definition two_parameters : stmt Empty_set :=
  FunctionStmt (FunDecl "f" ["a"; "b"] [PrintStmt (var "a")]).

(** [[
class A { init(a) { this.a = a } }
print A(1)
]] *)
Definition class_called : list (option (stmt Empty_set)) :=
  [ Some (Class "A" None
      [FunDecl "init" ["a"] [ExpressionStmt (Set_ This "a" (var "a"))]]);
    Some (PrintStmt (Call (var "A") [num 1])) ].

(** [[
function nothing() { }
print "v=" + nothing()
print "v=" + true
print nothing()
print true
]] *)
Definition string_plus : list (option (stmt Empty_set)) :=
  [ Some (FunctionStmt (FunDecl "nothing" [] []));
    Some (PrintStmt (Binary (str "v=") PLUS (Call (var "nothing") [])));
    Some (PrintStmt (Binary (str "v=") PLUS (Literal (LBool true))));
    Some (PrintStmt (Call (var "nothing") []));
    Some (PrintStmt (Literal (LBool true))) ].

(** [[
class P { init(x) { this.x = x  return 5 } }
]] *)
Definition class_with_init : stmt Empty_set :=
  Class "P" None
    [FunDecl "init" ["x"]
       [ExpressionStmt (Set_ This "x" (var "x")); ReturnStmt (Some (num 5))]].

(** [[
class P { init(x) { this.x = x  return 5 } }
class Q < P { }
class R < Q { }
r = new R(7)
print r.x
]] *)
Definition inherited_init : list (option (stmt Empty_set)) :=
  [ Some class_with_init;
    Some (Class "Q" (Some (var "P")) []);
    Some (Class "R" (Some (var "Q")) []);
    Some (ExpressionStmt (Assign "r" (New "R" [num 7])));
    Some (PrintStmt (Get (var "r") "x")) ].

(** [[ { y = 1  return y } ]] and [[ { y = 1  print missing } ]] *)
Definition block_with_return : stmt Empty_set :=
  BlockStmt [ExpressionStmt (Assign "y" (num 1)); ReturnStmt (Some (var "y"))].
Definition block_with_error : stmt Empty_set :=
  BlockStmt [ExpressionStmt (Assign "y" (num 1)); PrintStmt (var "missing")].

(** [[ [10, 20][true] ]] *)
Definition index_by_true : expr Empty_set :=
  Index (List_ [num 10; num 20]) (Literal (LBool true)).

(** [[
xs = []
print xs.pop()
print pop(xs)
print "after"
]] *)
Definition two_pops : list (option (stmt Empty_set)) :=
  [ Some (ExpressionStmt (Assign "xs" (List_ [])));
    Some (PrintStmt (Call (Get (var "xs") "pop") []));
    Some (PrintStmt (Call (var "pop") [var "xs"]));
    Some (PrintStmt (str "after")) ].

End Sample.

(** * The run-time model *)

Section Lang.
Variable H : Host.

Local Abbreviation float := (float H).
Local Abbreviation num := (num float).
Local Abbreviation literal := (literal float).
Local Abbreviation expr := (expr float).
Local Abbreviation stmt := (stmt float).
Local Abbreviation fundecl := (fundecl float).

(** ** Values

    [Function(declaration, closure)], [BuiltinFunction(arity, fn)] and
    [LoxClass(name, superclass, methods)] are never mutated after their
    construction.  The first component of each is the identity of the
    Python object. *)

Record Function := {
  fid : nat;
  declaration : fundecl;
  closure : loc
}.

(** The host operations wrapped by [BuiltinFunction]: the three globals
    of [define_globals] and the two lambdas of [visit_get_expr], which
    close over the list [obj]. *)
Inductive builtin_fn :=
| fn_append
| fn_pop
| fn_length
| fn_list_append (obj : loc)
| fn_list_pop (obj : loc).

Record BuiltinFunction := {
  bid : nat;
  arity_count : nat;
  fn : builtin_fn
}.

Inductive LoxClass :=
| MkLoxClass (cid : nat) (name : string) (superclass : option LoxClass)
    (methods : list (string * Function)).

Definition class_id (k : LoxClass) : nat :=
  match k with MkLoxClass i _ _ _ => i end.
Definition class_name_of (k : LoxClass) : string :=
  match k with MkLoxClass _ n _ _ => n end.
Definition class_superclass (k : LoxClass) : option LoxClass :=
  match k with MkLoxClass _ _ s _ => s end.
Definition class_methods (k : LoxClass) : list (string * Function) :=
  match k with MkLoxClass _ _ _ m => m end.

(** The identity of a float object: made by the lexer for a literal,
    or by the interpreter's host while the program runs. *)
Inductive float_identity :=
| Lexed (i : nat)
| Computed (i : nat).

Definition same_float_object (a b : float_identity) : bool :=
  match a, b with
  | Lexed i, Lexed j => Nat.eqb i j
  | Computed i, Computed j => Nat.eqb i j
  | _, _ => false
  end.

Inductive value :=
| VNil
| VBool (b : bool)
| VInt (n : Z)
| VFloat (i : float_identity) (f : float)
| VStr (s : string)
| VList (l : loc)
| VDict (l : loc)
| VFunction (f : Function)
| VBuiltin (b : BuiltinFunction)
| VClass (k : LoxClass)
| VInstance (i : loc).

Definition value_of_literal (l : literal) : value :=
  match l with
  | LBool b => VBool b
  | LInt n => VInt n
  | LFloat i f => VFloat (Lexed i) f
  | LStr s => VStr s
  end.

(** ** Mutable objects and the interpreter state *)

Record Environment := {
  values : gmap string value;
  enclosing : option loc
}.

Record LoxInstance := {
  klass : LoxClass;
  fields : gmap string value
}.

(** [envs], [lists], [dicts] and [instances] are the stores; a location
    is an index, allocation appends.  [next_id] numbers the immutable
    objects.  [globals] and [environment] are the two attributes that
    [Interpreter.__init__] sets.  [stdin] is the text still to be read,
    line by line, and [stdout] the text that has been written. *)
Record state := {
  envs : list Environment;
  lists : list (list value);
  dicts : list (list (value * value));
  instances : list LoxInstance;
  next_id : nat;
  globals : loc;
  environment : loc;
  stdin : list string;
  stdout : string
}.

Definition set_envs (f : list Environment -> list Environment) (st : state) : state :=
  {| envs := f (envs st); lists := lists st; dicts := dicts st;
     instances := instances st; next_id := next_id st; globals := globals st;
     environment := environment st; stdin := stdin st; stdout := stdout st |}.

Definition set_lists (f : list (list value) -> list (list value)) (st : state) : state :=
  {| envs := envs st; lists := f (lists st); dicts := dicts st;
     instances := instances st; next_id := next_id st; globals := globals st;
     environment := environment st; stdin := stdin st; stdout := stdout st |}.

Definition set_dicts (f : list (list (value * value)) -> list (list (value * value)))
    (st : state) : state :=
  {| envs := envs st; lists := lists st; dicts := f (dicts st);
     instances := instances st; next_id := next_id st; globals := globals st;
     environment := environment st; stdin := stdin st; stdout := stdout st |}.

Definition set_instances (f : list LoxInstance -> list LoxInstance) (st : state) : state :=
  {| envs := envs st; lists := lists st; dicts := dicts st;
     instances := f (instances st); next_id := next_id st; globals := globals st;
     environment := environment st; stdin := stdin st; stdout := stdout st |}.

Definition set_next_id (n : nat) (st : state) : state :=
  {| envs := envs st; lists := lists st; dicts := dicts st;
     instances := instances st; next_id := n; globals := globals st;
     environment := environment st; stdin := stdin st; stdout := stdout st |}.

(** [self.environment = env] *)
Definition set_environment (env : loc) (st : state) : state :=
  {| envs := envs st; lists := lists st; dicts := dicts st;
     instances := instances st; next_id := next_id st; globals := globals st;
     environment := env; stdin := stdin st; stdout := stdout st |}.

Definition set_stdin (l : list string) (st : state) : state :=
  {| envs := envs st; lists := lists st; dicts := dicts st;
     instances := instances st; next_id := next_id st; globals := globals st;
     environment := environment st; stdin := l; stdout := stdout st |}.

Definition write_stdout (text : string) (st : state) : state :=
  {| envs := envs st; lists := lists st; dicts := dicts st;
     instances := instances st; next_id := next_id st; globals := globals st;
     environment := environment st; stdin := stdin st;
     stdout := stdout st ++ text |}.

(** ** Exceptions and outcomes

    [RuntimeError] is the class of that name defined in [interpreter.py];
    [ReturnException] carries the value of a [return]; [HostError] is any
    other exception of the host.  [Abort] is not a behaviour of the
    program: the fuel ran out, or a location is not allocated. *)

Inductive exn :=
| RuntimeError (msg : string)
| ReturnException (v : value)
| HostError (e : py_error).

Inductive abort := OutOfFuel | Dangling.

Inductive outcome (A : Type) :=
| Normal (a : A)
| Raise (e : exn)
| Abort (a : abort).

Arguments Normal {A} a.
Arguments Raise {A} e.
Arguments Abort {A} a.

Definition M (A : Type) : Type := state -> outcome A * state.

Definition ret {A} (a : A) : M A := fun st => (Normal a, st).

Definition bind {A B} (m : M A) (k : A -> M B) : M B :=
  fun st =>
    match m st with
    | (Normal a, st') => k a st'
    | (Raise e, st') => (Raise e, st')
    | (Abort a, st') => (Abort a, st')
    end.

Definition raise {A} (e : exn) : M A := fun st => (Raise e, st).

Definition abort_with {A} (a : abort) : M A := fun st => (Abort a, st).

Definition get_state : M state := fun st => (Normal st, st).

Definition modify (f : state -> state) : M unit := fun st => (Normal tt, f st).

(** [try: m finally: self.environment = previous] *)
Definition finally_restore {A} (m : M A) (previous : loc) : M A :=
  fun st => let (r, st') := m st in (r, set_environment previous st').

Definition lift_option {A} (o : option A) : M A :=
  match o with
  | Some a => ret a
  | None => abort_with Dangling
  end.

Definition lift_fuel {A} (o : option A) : M A :=
  match o with
  | Some a => ret a
  | None => abort_with OutOfFuel
  end.

(** A conversion of the host that may raise *)
Definition lift_conv {A} (o : option (py_error + A)) : M A :=
  match o with
  | Some (inr a) => ret a
  | Some (inl e) => raise (HostError e)
  | None => abort_with OutOfFuel
  end.

Notation "'let!' x ':=' m 'in' k" := (bind m (fun x => k))
  (at level 10, x pattern, m at level 100, k at level 200).
Notation "m1 '>>' m2" := (bind m1 (fun _ => m2))
  (at level 80, right associativity).

Fixpoint mapM_M {A B} (f : A -> M B) (l : list A) : M (list B) :=
  match l with
  | [] => ret []
  | x :: rest =>
      let! y := f x in
      let! ys := mapM_M f rest in
      ret (y :: ys)
  end.

Fixpoint iterM {A} (f : A -> M unit) (l : list A) : M unit :=
  match l with
  | [] => ret tt
  | x :: rest => f x >> iterM f rest
  end.

Definition fresh_id : M nat :=
  fun st => (Normal (next_id st), set_next_id (S (next_id st)) st).

(** ** Python's view of the values *)

(** [type(v).__name__] *)
Definition type_name (v : value) : string :=
  match v with
  | VNil => "NoneType"
  | VBool _ => "bool"
  | VInt _ => "int"
  | VFloat _ _ => "float"
  | VStr _ => "str"
  | VList _ => "list"
  | VDict _ => "dict"
  | VFunction _ => "Function"
  | VBuiltin _ => "BuiltinFunction"
  | VClass _ => "LoxClass"
  | VInstance _ => "LoxInstance"
  end.

(** [isinstance(v, int)]: [bool] is a subclass of [int] in the host, with
    [True] being 1 and [False] being 0. *)
Definition as_int (v : value) : option Z :=
  match v with
  | VBool b => Some (if b then 1 else 0)
  | VInt n => Some n
  | _ => None
  end.

(** [isinstance(v, (int, float))] *)
Definition as_num (v : value) : option num :=
  match v with
  | VBool b => Some (NInt (if b then 1 else 0))
  | VInt n => Some (NInt n)
  | VFloat _ f => Some (NFloat f)
  | _ => None
  end.

Definition num_compare (a b : num) : option comparison :=
  match a, b with
  | NInt x, NInt y => Some (x ?= y)
  | _, _ => host_compare H a b
  end.

(** [a == b] on two numbers *)
Definition num_eqb (a b : num) : bool :=
  match num_compare a b with
  | Some Eq => true
  | _ => false
  end.

(** [x is y]: the lists, dictionaries, instances and float objects are
    the same object when their locations or identities are equal, the
    objects of the interpreter when their identities are.  For integers
    and strings [x == y] decides wherever [x is y] is asked. *)
Definition is_same (a b : value) : bool :=
  match a, b with
  | VNil, VNil => true
  | VBool b1, VBool b2 => Bool.eqb b1 b2
  | VFloat i _, VFloat j _ => same_float_object i j
  | VList l, VList l' => Nat.eqb l l'
  | VDict l, VDict l' => Nat.eqb l l'
  | VFunction f, VFunction g => Nat.eqb (fid f) (fid g)
  | VBuiltin f, VBuiltin g => Nat.eqb (bid f) (bid g)
  | VClass k, VClass k' => Nat.eqb (class_id k) (class_id k')
  | VInstance i, VInstance j => Nat.eqb i j
  | _, _ => false
  end.

(** [x == y] for two values neither of which is a list or a dictionary:
    numbers by value, strings by content, the objects of the interpreter
    by identity *)
Definition py_eq_atom (a b : value) : bool :=
  match a, b with
  | VNil, VNil => true
  | VStr s, VStr t => String.eqb s t
  | VFunction f, VFunction g => Nat.eqb (fid f) (fid g)
  | VBuiltin f, VBuiltin g => Nat.eqb (bid f) (bid g)
  | VClass k, VClass k' => Nat.eqb (class_id k) (class_id k')
  | VInstance i, VInstance j => Nat.eqb i j
  | _, _ =>
      match as_num a, as_num b with
      | Some x, Some y => num_eqb x y
      | _, _ => false
      end
  end.

(** [x is y or x == y], the test of a dictionary for two of its keys: a
    float that is not equal to itself is still found under the same
    object. *)
Definition key_eqb (a b : value) : bool :=
  is_same a b || py_eq_atom a b.

(** [isinstance(v, (list, dict))]: the unhashable values *)
Definition is_list_or_dict (v : value) : bool :=
  match v with
  | VList _ | VDict _ => true
  | _ => false
  end.

(** [d[k]] and [k in d] *)
Fixpoint dict_lookup (k : value) (d : list (value * value)) : option value :=
  match d with
  | [] => None
  | (k', v) :: rest => if key_eqb k' k then Some v else dict_lookup k rest
  end.

(** [d[k] = v]: the value of an existing key is replaced, a new key goes
    last *)
Fixpoint dict_store (k v : value) (d : list (value * value)) : list (value * value) :=
  match d with
  | [] => [(k, v)]
  | (k', v') :: rest =>
      if key_eqb k' k then (k', v) :: rest else (k', v') :: dict_store k v rest
  end.

Fixpoint all_opt {A} (p : A -> option bool) (l : list A) : option bool :=
  match l with
  | [] => Some true
  | x :: rest =>
      match p x with
      | Some true => all_opt p rest
      | other => other
      end
  end.

(** [a == b] of the host.  Lists and dictionaries are compared by
    content, element by element with [x is y or x == y]; numbers by value;
    the objects of the interpreter by identity.  [None] when the depth
    [fuel] is exceeded or a location is not allocated. *)
Fixpoint py_eq (fuel : nat) (st : state) (a b : value) : option bool :=
  match fuel with
  | O => None
  | S n =>
      let item x y := if is_same x y then Some true else py_eq n st x y in
      match a, b with
      | VList l, VList l' =>
          match lists st !! l, lists st !! l' with
          | Some xs, Some ys =>
              if Nat.eqb (length xs) (length ys)
              then all_opt (fun xy => item (fst xy) (snd xy)) (combine xs ys)
              else Some false
          | _, _ => None
          end
      | VDict l, VDict l' =>
          match dicts st !! l, dicts st !! l' with
          | Some d, Some d' =>
              if Nat.eqb (length d) (length d') then
                all_opt (fun kv =>
                           match dict_lookup (fst kv) d' with
                           | Some v' => item (snd kv) v'
                           | None => Some false
                           end) d
              else Some false
          | _, _ => None
          end
      | VList _, _ | _, VList _ | VDict _, _ | _, VDict _ => Some false
      | _, _ => Some (py_eq_atom a b)
      end
  end.

(** Conversions to text: [None] when the depth [fuel] is exceeded or a
    location is not allocated, [inl] when the host raises. *)
Definition conv (A : Type) : Type := option (py_error + A).

Fixpoint conv_all {A B} (f : A -> conv B) (l : list A) : conv (list B) :=
  match l with
  | [] => Some (inr [])
  | x :: rest =>
      match f x with
      | Some (inr y) =>
          match conv_all f rest with
          | Some (inr ys) => Some (inr (y :: ys))
          | other => other
          end
      | Some (inl e) => Some (inl e)
      | None => None
      end
  end.

(** [str(v)] for the values that are neither lists nor dictionaries.
    [Function], [BuiltinFunction] and [LoxClass] define [__str__];
    [LoxInstance] does not. *)
Definition py_str_atom (v : value) : py_error + string :=
  match v with
  | VNil => inr "None"
  | VBool b => inr (if b then "True" else "False")
  | VInt n => py_str_int n
  | VFloat _ f => inr (host_float_str H f)
  | VStr s => inr s
  | VFunction f => inr ("<function " ++ decl_name (declaration f) ++ ">")
  | VBuiltin _ => inr "<native function>"
  | VClass k => inr (class_name_of k)
  | VInstance i => inr (host_obj_repr H "parser.runtime.LoxInstance" i)
  | VList _ | VDict _ => inr ""
  end.

(** [repr(v)], which the host applies to the items of a list or a
    dictionary.  A container that is already being printed is printed as
    dots. *)
Fixpoint py_repr (fuel : nat) (seen_lists seen_dicts : list loc) (st : state)
    (v : value) : conv string :=
  match fuel with
  | O => None
  | S n =>
      match v with
      | VStr s => Some (inr (host_str_repr H s))
      | VFunction f =>
          Some (inr (host_obj_repr H "interpreter.interpreter.Function" (fid f)))
      | VBuiltin b =>
          Some (inr (host_obj_repr H "interpreter.interpreter.BuiltinFunction" (bid b)))
      | VClass k => Some (inr (host_obj_repr H "parser.runtime.LoxClass" (class_id k)))
      | VList l =>
          if existsb (Nat.eqb l) seen_lists then Some (inr "[...]") else
          match lists st !! l with
          | Some xs =>
              match conv_all (py_repr n (l :: seen_lists) seen_dicts st) xs with
              | Some (inr items) => Some (inr ("[" ++ join ", " items ++ "]"))
              | Some (inl e) => Some (inl e)
              | None => None
              end
          | None => None
          end
      | VDict l =>
          if existsb (Nat.eqb l) seen_dicts then Some (inr "{...}") else
          match dicts st !! l with
          | Some d =>
              match conv_all (fun kv =>
                      match py_repr n seen_lists (l :: seen_dicts) st (fst kv) with
                      | Some (inr k) =>
                          match py_repr n seen_lists (l :: seen_dicts) st (snd kv) with
                          | Some (inr x) => Some (inr (k ++ ": " ++ x))
                          | other => other
                          end
                      | other => other
                      end) d with
              | Some (inr items) => Some (inr ("{" ++ join ", " items ++ "}"))
              | Some (inl e) => Some (inl e)
              | None => None
              end
          | None => None
          end
      | _ => Some (py_str_atom v)
      end
  end.

(** [str(v)], which is also [f"{v}"] *)
Definition py_str (st : state) (v : value) : conv string :=
  match v with
  | VList _ | VDict _ =>
      py_repr (S (S (length (lists st) + length (dicts st)))) [] [] st v
  | _ => Some (py_str_atom v)
  end.

(** ** Messages of the interpreter's [RuntimeError]

    Each message is named after the error kind it stands for. *)

Definition UndefinedVariable (name : string) : string :=
  "Undefined variable '" ++ name ++ "'.".
Definition UndefinedProperty (name : string) : string :=
  "Undefined property '" ++ name ++ "'.".
Definition NoSuchProperty (name : string) (v : value) : string :=
  "No such property '" ++ name ++ "' on " ++ type_name v ++ ".".
Definition DivisionByZero : string := "Division by zero.".
Definition ModuloByZero : string := "Modulo by zero.".
Definition OperandNotNumber (v : value) : string :=
  "Operand must be a number: " ++ type_name v.
Definition OperandsNotNumbers (a b : value) : string :=
  "Operands must be numbers: " ++ type_name a ++ ", " ++ type_name b.
Definition StarMismatch (a b : value) : string :=
  "Operands must be numbers or string/list and integer: "
  ++ type_name a ++ ", " ++ type_name b.
Definition PlusMismatch (a b : value) : string :=
  "Operands must be two numbers, two strings, or two lists: "
  ++ type_name a ++ ", " ++ type_name b.
Definition NotComparable (a b : value) : string :=
  "Cannot compare " ++ type_name a ++ " and " ++ type_name b.
Definition NotCallable (v : value) : string :=
  "Can only call functions and classes: " ++ type_name v.
Definition ArityMismatch (expected actual : nat) : string :=
  "Expected " ++ py_str_nat expected ++ " arguments but got "
  ++ py_str_nat actual ++ ".".
Definition InvalidKey : string :=
  "Dictionary keys must be immutable (strings, numbers, booleans).".
Definition ListIndexNotInteger : string := "List indices must be integers.".
Definition StringIndexNotInteger : string := "String indices must be integers.".
Definition ListIndexOutOfRange (index : string) : string :=
  "List index out of range: " ++ index.
Definition StringIndexOutOfRange (index : string) : string :=
  "String index out of range: " ++ index.
Definition KeyNotFound (index : string) : string :=
  "Key not found in dictionary: " ++ index.
Definition NotIndexable (v : value) : string :=
  "Cannot index into type " ++ type_name v.
Definition NotIndexAssignable (v : value) : string :=
  "Cannot assign to index of type " ++ type_name v.
Definition NotIterable : string :=
  "Can only iterate over lists, strings, and dictionaries.".
Definition SuperclassNotClass : string := "Superclass must be a class.".
Definition UndefinedClass (name : string) : string :=
  "Undefined class '" ++ name ++ "'.".
Definition NotAClass (name : string) : string :=
  "'" ++ name ++ "' is not a class.".
Definition OnlyInstancesHaveFields : string := "Only instances have fields.".
Definition AppendExpects : string := "append expects a list followed by a value".
Definition PopExpects : string := "pop expects a non-empty list".
Definition LengthExpects : string :=
  "length expects a list, dictionary, or string".

(** ** [class Environment] *)

Definition Environment_new (parent : option loc) : M loc :=
  fun st =>
    (Normal (length (envs st)),
     set_envs (fun es => (es ++ [{| values := ∅; enclosing := parent |}])%list) st).

Definition read_env (env : loc) : M Environment :=
  fun st =>
    match envs st !! env with
    | Some e => (Normal e, st)
    | None => (Abort Dangling, st)
    end.

(** [Environment.define]: a binding of this scope only *)
Definition Environment_define (env : loc) (name : string) (v : value) : M unit :=
  let! e := read_env env in
  modify (set_envs (fun es =>
    <[env := {| values := <[name := v]> (values e); enclosing := enclosing e |}]> es)).

(** [Environment.get], recursive along [enclosing].  A chain of [n]
    distinct environments is walked with fuel [n]; the walk of a cyclic
    chain does not end. *)
Fixpoint Environment_get_from (fuel : nat) (env : loc) (name : string) : M value :=
  match fuel with
  | O => abort_with OutOfFuel
  | S n =>
      let! e := read_env env in
      match values e !! name with
      | Some v => ret v
      | None =>
          match enclosing e with
          | Some parent => Environment_get_from n parent name
          | None => raise (RuntimeError (UndefinedVariable name))
          end
      end
  end.

Definition Environment_get (env : loc) (name : string) : M value :=
  let! st := get_state in
  Environment_get_from (length (envs st)) env name.

(** [Environment.assign] *)
Fixpoint Environment_assign_from (fuel : nat) (env : loc) (name : string) (v : value)
    : M unit :=
  match fuel with
  | O => abort_with OutOfFuel
  | S n =>
      let! e := read_env env in
      match values e !! name with
      | Some _ => Environment_define env name v
      | None =>
          match enclosing e with
          | Some parent => Environment_assign_from n parent name v
          | None => raise (RuntimeError (UndefinedVariable name))
          end
      end
  end.

Definition Environment_assign (env : loc) (name : string) (v : value) : M unit :=
  let! st := get_state in
  Environment_assign_from (length (envs st)) env name v.

(** ** [class LoxClass] and [class LoxInstance] ([src/parser/runtime.py]) *)

Fixpoint methods_lookup (name : string) (methods : list (string * Function))
    : option Function :=
  match methods with
  | [] => None
  | (n, f) :: rest => if String.eqb n name then Some f else methods_lookup name rest
  end.

(** [methods[name] = function] while the class statement collects them *)
Fixpoint methods_store (name : string) (f : Function) (methods : list (string * Function))
    : list (string * Function) :=
  match methods with
  | [] => [(name, f)]
  | (n, g) :: rest =>
      if String.eqb n name then (n, f) :: rest else (n, g) :: methods_store name f rest
  end.

(** [LoxClass.find_method] *)
Fixpoint find_method (k : LoxClass) (name : string) : option Function :=
  match k with
  | MkLoxClass _ _ superclass methods =>
      match methods_lookup name methods with
      | Some f => Some f
      | None =>
          match superclass with
          | Some s => find_method s name
          | None => None
          end
      end
  end.

(** [Function.bind] *)
Definition Function_bind (f : Function) (instance : value) : M Function :=
  let! env := Environment_new (Some (closure f)) in
  Environment_define env "this" instance >>
  let! i := fresh_id in
  ret {| fid := i; declaration := declaration f; closure := env |}.

(** [Function.arity] *)
Definition Function_arity (f : Function) : nat :=
  length (decl_params (declaration f)).

(** [BuiltinFunction.arity] *)
Definition BuiltinFunction_arity (b : BuiltinFunction) : nat := arity_count b.

Definition LoxInstance_new (k : LoxClass) : M loc :=
  fun st =>
    (Normal (length (instances st)),
     set_instances (fun l => (l ++ [{| klass := k; fields := ∅ |}])%list) st).

Definition read_instance (i : loc) : M LoxInstance :=
  fun st =>
    match instances st !! i with
    | Some o => (Normal o, st)
    | None => (Abort Dangling, st)
    end.

(** [LoxInstance.get].  The [RuntimeError] raised here is the host's:
    [runtime.py] does not import the interpreter's class. *)
Definition LoxInstance_get (i : loc) (name : string) : M value :=
  let! o := read_instance i in
  match fields o !! name with
  | Some v => ret v
  | None =>
      match find_method (klass o) name with
      | Some method =>
          let! f := Function_bind method (VInstance i) in
          ret (VFunction f)
      | None => raise (HostError (BuiltinRuntimeError (UndefinedProperty name)))
      end
  end.

(** [LoxInstance.set] *)
Definition LoxInstance_set (i : loc) (name : string) (v : value) : M unit :=
  let! o := read_instance i in
  modify (set_instances (fun l =>
    <[i := {| klass := klass o; fields := <[name := v]> (fields o) |}]> l)).

(** ** Lists and dictionaries of the host *)

Definition list_new (items : list value) : M loc :=
  fun st => (Normal (length (lists st)), set_lists (fun l => (l ++ [items])%list) st).

Definition read_list (l : loc) : M (list value) :=
  fun st =>
    match lists st !! l with
    | Some xs => (Normal xs, st)
    | None => (Abort Dangling, st)
    end.

Definition write_list (l : loc) (items : list value) : M unit :=
  modify (set_lists (fun ls => <[l := items]> ls)).

Definition dict_new (entries : list (value * value)) : M loc :=
  fun st => (Normal (length (dicts st)), set_dicts (fun l => (l ++ [entries])%list) st).

Definition read_dict (l : loc) : M (list (value * value)) :=
  fun st =>
    match dicts st !! l with
    | Some d => (Normal d, st)
    | None => (Abort Dangling, st)
    end.

Definition write_dict (l : loc) (entries : list (value * value)) : M unit :=
  modify (set_dicts (fun ds => <[l := entries]> ds)).

Definition unhashable (v : value) : string :=
  "unhashable type: '" ++ type_name v ++ "'".

Definition chars (s : string) : list value :=
  map (fun c => VStr (String c "")) (list_ascii_of_string s).

(** [print(text)] *)
Definition print (text : string) : M unit :=
  modify (write_stdout (text ++ String "010"%char "")).

(** [input(prompt)] *)
Definition input (prompt : string) : M string :=
  fun st =>
    match stdin st with
    | line :: rest => (Normal line, set_stdin rest (write_stdout prompt st))
    | [] => (Raise (HostError EOFError), write_stdout prompt st)
    end.

(** ** Helper methods of [Interpreter] *)

(** [is_truthy] *)
Definition is_truthy (v : value) : M bool :=
  match v with
  | VNil => ret false
  | VBool b => ret b
  | VInt n => ret (negb (num_eqb (NInt n) (NInt 0)))
  | VFloat _ f => ret (negb (num_eqb (NFloat f) (NInt 0)))
  | VList l => let! xs := read_list l in ret (Nat.ltb 0 (length xs))
  | VDict l => let! d := read_dict l in ret (Nat.ltb 0 (length d))
  | VStr s => ret (Nat.ltb 0 (String.length s))
  | _ => ret true
  end.

(** [is_equal] *)
Definition is_equal (fuel : nat) (a b : value) : M bool :=
  match a, b with
  | VNil, VNil => ret true
  | VNil, _ => ret false
  | _, _ => let! st := get_state in lift_fuel (py_eq fuel st a b)
  end.

(** [stringify] *)
Fixpoint stringify_in (fuel : nat) (st : state) (v : value) : conv string :=
  match fuel with
  | O => None
  | S n =>
      match v with
      | VNil => Some (inr "nil")
      | VBool b => Some (inr (if b then "true" else "false"))
      | VInt _ | VFloat _ _ =>
          match py_str_atom v with
          | inr text => Some (inr (strip_dot_zero text))
          | inl e => Some (inl e)
          end
      | VList l =>
          match lists st !! l with
          | Some xs =>
              match conv_all (stringify_in n st) xs with
              | Some (inr items) => Some (inr ("[" ++ join ", " items ++ "]"))
              | Some (inl e) => Some (inl e)
              | None => None
              end
          | None => None
          end
      | VDict l =>
          match dicts st !! l with
          | Some d =>
              match conv_all (fun kv =>
                      match stringify_in n st (fst kv) with
                      | Some (inr k) =>
                          match stringify_in n st (snd kv) with
                          | Some (inr x) => Some (inr (k ++ ": " ++ x))
                          | other => other
                          end
                      | other => other
                      end) d with
              | Some (inr items) => Some (inr ("{" ++ join ", " items ++ "}"))
              | Some (inl e) => Some (inl e)
              | None => None
              end
          | None => None
          end
      | _ => Some (py_str_atom v)
      end
  end.

Definition stringify (fuel : nat) (v : value) : M string :=
  let! st := get_state in lift_conv (stringify_in fuel st v).

(** [check_number_operand] *)
Definition check_number_operand (operand : value) : M num :=
  match as_num operand with
  | Some n => ret n
  | None => raise (RuntimeError (OperandNotNumber operand))
  end.

(** [check_number_operands] *)
Definition check_number_operands (left right : value) : M (num * num) :=
  match as_num left, as_num right with
  | Some a, Some b => ret (a, b)
  | _, _ => raise (RuntimeError (OperandsNotNumbers left right))
  end.

(** The object of a number that the host has computed: a float is a new
    object. *)
Definition new_number (n : num) : M value :=
  match n with
  | NInt z => ret (VInt z)
  | NFloat f => let! i := fresh_id in ret (VFloat (Computed i) f)
  end.

(** The host's arithmetic on two numbers.  Integer results are computed;
    everything that involves a float goes to the host, which may raise. *)
Definition py_arith (op : arith) (a b : num) : M value :=
  let host :=
    match host_arith H op a b with
    | inl e => raise (HostError e)
    | inr n => new_number n
    end in
  match op, a, b with
  | Add, NInt x, NInt y => ret (VInt (x + y))
  | Sub, NInt x, NInt y => ret (VInt (x - y))
  | Mul, NInt x, NInt y => ret (VInt (x * y))
  | Mod, NInt x, NInt y => if y =? 0 then host else ret (VInt (x mod y))
  | Pow, NInt x, NInt y => if 0 <=? y then ret (VInt (x ^ y)) else host
  | _, _, _ => host
  end.

Inductive cmp := Gt_ | Ge_ | Lt_ | Le_.

Definition cmp_holds (c : cmp) (r : option comparison) : bool :=
  match c, r with
  | Gt_, Some Gt => true
  | Ge_, Some Gt | Ge_, Some Eq => true
  | Lt_, Some Lt => true
  | Le_, Some Lt | Le_, Some Eq => true
  | _, _ => false
  end.

(** [check_comparable_operands] followed by the comparison *)
Definition compare_values (c : cmp) (left right : value) : M value :=
  match as_num left, as_num right with
  | Some a, Some b => ret (VBool (cmp_holds c (num_compare a b)))
  | _, _ =>
      match left, right with
      | VStr s, VStr t => ret (VBool (cmp_holds c (Some (String.compare s t))))
      | _, _ => raise (RuntimeError (NotComparable left right))
      end
  end.

(** [sys.maxsize] of the host, the largest size and index *)
Definition max_size : Z := 2 ^ 63 - 1.

(** The count of [str * n] and [list * n] as an index of the host; a
    count below 1 gives the empty sequence. *)
Definition repeat_count (n : Z) : py_error + nat :=
  if (n <? - max_size - 1) || (max_size <? n)
  then inl (OverflowError "cannot fit 'int' into an index-sized integer")
  else inr (Z.to_nat n).

(** The operator part of [visit_binary_expr], on the two operand values *)
Definition binary_operation (fuel : nat) (op : binop) (left right : value) : M value :=
  match op with
  | MINUS =>
      let! (a, b) := check_number_operands left right in py_arith Sub a b
  | SLASH =>
      let! (a, b) := check_number_operands left right in
      if num_eqb b (NInt 0) then raise (RuntimeError DivisionByZero)
      else py_arith Div a b
  | STAR =>
      match as_num left, as_num right with
      | Some a, Some b => py_arith Mul a b
      | _, _ =>
          match left, as_int right with
          | VStr s, Some n =>
              match repeat_count n with
              | inl e => raise (HostError e)
              | inr k =>
                  if (1 <? k)%nat
                     && (max_size / Z.of_nat k <? Z.of_nat (String.length s))
                  then raise (HostError (OverflowError "repeated string is too long"))
                  else ret (VStr (str_repeat k s))
              end
          | VList l, Some n =>
              let! xs := read_list l in
              match repeat_count n with
              | inl e => raise (HostError e)
              | inr k =>
                  if (0 <? k)%nat && (0 <? length xs)%nat
                     && (max_size / Z.of_nat k <? Z.of_nat (length xs))
                  then raise (HostError MemoryError)
                  else
                    let! l' := list_new (list_repeat k xs) in
                    ret (VList l')
              end
          | _, _ => raise (RuntimeError (StarMismatch left right))
          end
      end
  | PLUS =>
      match as_num left, as_num right with
      | Some a, Some b => py_arith Add a b
      | _, _ =>
          match left, right with
          | VStr s, VStr t => ret (VStr (s ++ t))
          | VList l, VList l' =>
              let! xs := read_list l in
              let! ys := read_list l' in
              let! r := list_new (xs ++ ys)%list in
              ret (VList r)
          | VStr s, _ =>
              let! st := get_state in
              let! t := lift_conv (py_str st right) in
              ret (VStr (s ++ t))
          | _, VStr t =>
              let! st := get_state in
              let! s := lift_conv (py_str st left) in
              ret (VStr (s ++ t))
          | _, _ => raise (RuntimeError (PlusMismatch left right))
          end
      end
  | MODULO =>
      let! (a, b) := check_number_operands left right in
      if num_eqb b (NInt 0) then raise (RuntimeError ModuloByZero)
      else py_arith Mod a b
  | EXPODENT =>
      let! (a, b) := check_number_operands left right in py_arith Pow a b
  | GREATER => compare_values Gt_ left right
  | GREATER_EQUAL => compare_values Ge_ left right
  | LESS => compare_values Lt_ left right
  | LESS_EQUAL => compare_values Le_ left right
  | BANG_EQUAL => let! b := is_equal fuel left right in ret (VBool (negb b))
  | EQUAL_EQUAL => let! b := is_equal fuel left right in ret (VBool b)
  end.

(** The operator part of [visit_unary_expr] *)
Definition unary_operation (op : unop) (right : value) : M value :=
  match op with
  | BANG => let! b := is_truthy right in ret (VBool (negb b))
  | UMINUS =>
      let! n := check_number_operand right in
      match n with
      | NInt x => ret (VInt (- x))
      | NFloat f => new_number (NFloat (host_neg H f))
      end
  end.

(** ** Built-in functions *)

(** The bodies of the built-ins: [append], [pop] and [length] of
    [define_globals], and the two lambdas that [visit_get_expr] wraps. *)
Definition builtin_call (f : builtin_fn) (args : list value) : M value :=
  match f with
  | fn_append =>
      match args with
      | [VList l; x] =>
          let! xs := read_list l in
          write_list l (xs ++ [x])%list >> ret (VList l)
      | _ => raise (RuntimeError AppendExpects)
      end
  | fn_pop =>
      match args with
      | [VList l] =>
          let! xs := read_list l in
          match last xs with
          | Some x => write_list l (removelast xs) >> ret x
          | None => raise (RuntimeError PopExpects)
          end
      | _ => raise (RuntimeError PopExpects)
      end
  | fn_length =>
      match args with
      | [VList l] => let! xs := read_list l in ret (VInt (Z.of_nat (length xs)))
      | [VDict l] => let! d := read_dict l in ret (VInt (Z.of_nat (length d)))
      | [VStr s] => ret (VInt (Z.of_nat (String.length s)))
      | _ => raise (RuntimeError LengthExpects)
      end
  | fn_list_append obj =>
      match args with
      | x :: _ =>
          let! xs := read_list obj in
          write_list obj (xs ++ [x])%list >> ret VNil
      | [] => raise (HostError (IndexError "list index out of range"))
      end
  | fn_list_pop obj =>
      let! xs := read_list obj in
      match last xs with
      | Some x => write_list obj (removelast xs) >> ret x
      | None => ret VNil
      end
  end.

(** [Interpreter.define_globals] *)
Definition define_globals (globals_env : loc) : M unit :=
  let! i := fresh_id in
  Environment_define globals_env "append"
    (VBuiltin {| bid := i; arity_count := 2; fn := fn_append |}) >>
  let! j := fresh_id in
  Environment_define globals_env "pop"
    (VBuiltin {| bid := j; arity_count := 1; fn := fn_pop |}) >>
  let! k := fresh_id in
  Environment_define globals_env "length"
    (VBuiltin {| bid := k; arity_count := 1; fn := fn_length |}).

(** ** Variables *)

(** [Interpreter.lookup_variable]: the loop over [env.enclosing] *)
Fixpoint lookup_variable_from (fuel : nat) (env : option loc) (name : string) : M value :=
  match env with
  | None => raise (RuntimeError (UndefinedVariable name))
  | Some env =>
      match fuel with
      | O => abort_with OutOfFuel
      | S n =>
          let! e := read_env env in
          match values e !! name with
          | Some v => ret v
          | None => lookup_variable_from n (enclosing e) name
          end
      end
  end.

Definition lookup_variable (name : string) : M value :=
  let! st := get_state in
  lookup_variable_from (length (envs st)) (Some (environment st)) name.

(** [Interpreter.assign_variable]: the same loop, and the definition in
    the current environment when the loop finds nothing *)
Fixpoint assign_variable_from (fuel : nat) (env : option loc) (name : string)
    (v : value) : M unit :=
  match env with
  | None =>
      let! st := get_state in
      Environment_define (environment st) name v
  | Some env =>
      match fuel with
      | O => abort_with OutOfFuel
      | S n =>
          let! e := read_env env in
          match values e !! name with
          | Some _ => Environment_define env name v
          | None => assign_variable_from n (enclosing e) name v
          end
      end
  end.

Definition assign_variable (name : string) (v : value) : M unit :=
  let! st := get_state in
  assign_variable_from (length (envs st)) (Some (environment st)) name v.

(** ** Indexing, on the evaluated operands *)

(** The part of [visit_index_expr] after the two operands are evaluated *)
Definition index_get (obj index : value) : M value :=
  let! st := get_state in
  match obj with
  | VList l =>
      let! xs := read_list l in
      match as_int index with
      | None => raise (RuntimeError ListIndexNotInteger)
      | Some i =>
          if (i <? 0) || (Z.of_nat (length xs) <=? i) then
            let! text := lift_conv (py_str st index) in
            raise (RuntimeError (ListIndexOutOfRange text))
          else lift_option (xs !! Z.to_nat i)
      end
  | VDict l =>
      let! d := read_dict l in
      if is_list_or_dict index then raise (HostError (TypeError (unhashable index)))
      else
        match dict_lookup index d with
        | None =>
            let! text := lift_conv (py_str st index) in
            raise (RuntimeError (KeyNotFound text))
        | Some v => ret v
        end
  | VStr s =>
      match as_int index with
      | None => raise (RuntimeError StringIndexNotInteger)
      | Some i =>
          if (i <? 0) || (Z.of_nat (String.length s) <=? i) then
            let! text := lift_conv (py_str st index) in
            raise (RuntimeError (StringIndexOutOfRange text))
          else lift_option (chars s !! Z.to_nat i)
      end
  | _ => raise (RuntimeError (NotIndexable obj))
  end.

(** The part of [visit_index_assign_expr] after the three operands are
    evaluated *)
Definition index_set (obj index v : value) : M value :=
  let! st := get_state in
  match obj with
  | VList l =>
      let! xs := read_list l in
      match as_int index with
      | None => raise (RuntimeError ListIndexNotInteger)
      | Some i =>
          if (i <? 0) || (Z.of_nat (length xs) <=? i) then
            let! text := lift_conv (py_str st index) in
            raise (RuntimeError (ListIndexOutOfRange text))
          else write_list l (<[Z.to_nat i := v]> xs) >> ret v
      end
  | VDict l =>
      let! d := read_dict l in
      if is_list_or_dict index then raise (HostError (TypeError (unhashable index)))
      else write_dict l (dict_store index v d) >> ret v
  | _ => raise (RuntimeError (NotIndexAssignable obj))
  end.

(** The length used by the [length] pseudo-property *)
Definition py_len (v : value) : M (option Z) :=
  match v with
  | VList l => let! xs := read_list l in ret (Some (Z.of_nat (length xs)))
  | VDict l => let! d := read_dict l in ret (Some (Z.of_nat (length d)))
  | VStr s => ret (Some (Z.of_nat (String.length s)))
  | _ => ret None
  end.

(** The part of [visit_get_expr] after the object is evaluated.  The
    class defines the method twice; the second definition is the one in
    effect. *)
Definition get_property (obj : value) (name : string) : M value :=
  let fall_through :=
    let! len := py_len obj in
    match len, String.eqb name "length" with
    | Some n, true => ret (VInt n)
    | _, _ =>
        match obj with
        | VInstance i => LoxInstance_get i name
        | _ => raise (RuntimeError (NoSuchProperty name obj))
        end
    end in
  match obj with
  | VList l =>
      if String.eqb name "append" then
        let! i := fresh_id in
        ret (VBuiltin {| bid := i; arity_count := 1; fn := fn_list_append l |})
      else if String.eqb name "pop" then
        let! i := fresh_id in
        ret (VBuiltin {| bid := i; arity_count := 0; fn := fn_list_pop l |})
      else fall_through
  | _ => fall_through
  end.

(** The part of [visit_set_expr] after the operands are evaluated *)
Definition set_property (obj : value) (name : string) (v : value) : M value :=
  match obj with
  | VInstance i => LoxInstance_set i name v >> ret v
  | _ => raise (RuntimeError OnlyInstancesHaveFields)
  end.

(** ** The visitor methods of [Interpreter]

    The methods call [self.evaluate] and [self.execute]; here these are
    the two parameters of the section, and [fuel] bounds the loops. *)

Section Visitors.
Variable evaluate : expr -> M value.
Variable execute : stmt -> M unit.
Variable fuel : nat.

(** [Interpreter.execute_block] *)
Definition execute_block (statements : list stmt) (env : loc) : M unit :=
  let! st := get_state in
  let previous := environment st in
  finally_restore (modify (set_environment env) >> iterM execute statements) previous.

Definition visit_block_stmt (statements : list stmt) : M unit :=
  let! st := get_state in
  let! env := Environment_new (Some (environment st)) in
  execute_block statements env.

Definition visit_expression_stmt (expression : expr) : M unit :=
  evaluate expression >> ret tt.

Definition visit_function_stmt (d : fundecl) : M unit :=
  let! st := get_state in
  let! i := fresh_id in
  let function := {| fid := i; declaration := d; closure := environment st |} in
  Environment_define (environment st) (decl_name d) (VFunction function).

Definition visit_if_stmt (condition : expr) (then_branch : stmt)
    (else_branch : option stmt) : M unit :=
  let! c := evaluate condition in
  let! t := is_truthy c in
  if t then execute then_branch
  else match else_branch with
       | Some s => execute s
       | None => ret tt
       end.

Definition visit_print_stmt (expression : expr) : M unit :=
  let! v := evaluate expression in
  let! text := stringify fuel v in
  print text.

Definition visit_return_stmt (value_expr : option expr) : M unit :=
  let! v := match value_expr with
            | Some e => evaluate e
            | None => ret VNil
            end in
  raise (ReturnException v).

Fixpoint while_loop (k : nat) (condition : expr) (body : stmt) : M unit :=
  match k with
  | O => abort_with OutOfFuel
  | S k' =>
      let! c := evaluate condition in
      let! t := is_truthy c in
      if t then execute body >> while_loop k' condition body else ret tt
  end.

Definition visit_while_stmt (condition : expr) (body : stmt) : M unit :=
  while_loop fuel condition body.

Definition visit_input_stmt (variable : string) (prompt : option expr) : M unit :=
  let! prompt_text := match prompt with
                      | Some p => let! v := evaluate p in stringify fuel v
                      | None => ret ""
                      end in
  let! user_input := input prompt_text in
  let! v :=
    if isdigit user_input then
      if (Z.to_nat max_str_digits <? String.length user_input)%nat
      then raise (HostError (too_many_digits_for_int (String.length user_input)))
      else ret (VInt (int_of_digits 0 user_input))
    else if isdigit (remove_first "."%char user_input)
            && Nat.eqb (count_char "."%char user_input) 1
         then match host_float_of_string H user_input with
              | inl e => raise (HostError e)
              | inr f => new_number (NFloat f)
              end
         else ret (VStr user_input) in
  let! st := get_state in
  Environment_define (environment st) variable v.

Definition visit_binary_expr (left : expr) (operator : binop) (right : expr) : M value :=
  let! l := evaluate left in
  let! r := evaluate right in
  binary_operation fuel operator l r.

(** Positional binding of [Function.call]: [arguments[i]] fails when
    there are fewer arguments than parameters. *)
Fixpoint bind_parameters (env : loc) (params : list string) (arguments : list value)
    : M unit :=
  match params, arguments with
  | [], _ => ret tt
  | p :: ps, a :: rest => Environment_define env p a >> bind_parameters env ps rest
  | _ :: _, [] => raise (HostError (IndexError "list index out of range"))
  end.

(** [try: ... except ReturnException as return_value: return
    return_value.value], then [return None] *)
Definition catch_return (m : M unit) : M value :=
  fun st =>
    match m st with
    | (Normal _, st') => (Normal VNil, st')
    | (Raise (ReturnException v), st') => (Normal v, st')
    | (Raise e, st') => (Raise e, st')
    | (Abort a, st') => (Abort a, st')
    end.

(** [Function.call] *)
Definition Function_call (f : Function) (arguments : list value) : M value :=
  let! env := Environment_new (Some (closure f)) in
  bind_parameters env (decl_params (declaration f)) arguments >>
  catch_return (execute_block (decl_body (declaration f)) env).

(** [BuiltinFunction.call] *)
Definition BuiltinFunction_call (b : BuiltinFunction) (arguments : list value) : M value :=
  builtin_call (fn b) arguments.

(** [LoxClass.call] *)
Definition LoxClass_call (k : LoxClass) (arguments : list value) : M value :=
  let! instance := LoxInstance_new k in
  match find_method k "init" with
  | Some initializer =>
      let! bound := Function_bind initializer (VInstance instance) in
      Function_call bound arguments >> ret (VInstance instance)
  | None => ret (VInstance instance)
  end.

Definition no_attribute (v : value) (attr : string) : py_error :=
  AttributeError ("'" ++ type_name v ++ "' object has no attribute '" ++ attr ++ "'").

(** [getattr(callee, "call", None)] is callable *)
Definition has_call (v : value) : bool :=
  match v with
  | VFunction _ | VBuiltin _ | VClass _ => true
  | _ => false
  end.

(** [callee.call(self, arguments)] *)
Definition call_method (callee : value) (arguments : list value) : M value :=
  match callee with
  | VFunction f => Function_call f arguments
  | VBuiltin b => BuiltinFunction_call b arguments
  | VClass k => LoxClass_call k arguments
  | _ => raise (HostError (no_attribute callee "call"))
  end.

(** [callee.arity()]: [Function] and [BuiltinFunction] define the
    method, [LoxClass] does not. *)
Definition arity_method (callee : value) : M nat :=
  match callee with
  | VFunction f => ret (Function_arity f)
  | VBuiltin b => ret (BuiltinFunction_arity b)
  | _ => raise (HostError (no_attribute callee "arity"))
  end.

Definition visit_call_expr (callee : expr) (arguments : list expr) : M value :=
  let! function := evaluate callee in
  let! args := mapM_M evaluate arguments in
  if negb (has_call function) then raise (RuntimeError (NotCallable function))
  else
    let! n := arity_method function in
    if negb (Nat.eqb (length args) n)
    then raise (RuntimeError (ArityMismatch n (length args)))
    else call_method function args.

Definition visit_get_expr (object : expr) (name : string) : M value :=
  let! obj := evaluate object in
  get_property obj name.

Definition visit_set_expr (object : expr) (name : string) (value_expr : expr) : M value :=
  let! obj := evaluate object in
  let! v := evaluate value_expr in
  set_property obj name v.

Fixpoint dictionary_entries (keys vals : list expr) (result : list (value * value))
    : M (list (value * value)) :=
  match keys with
  | [] => ret result
  | k :: ks =>
      let! key := evaluate k in
      match vals with
      | [] => raise (HostError (IndexError "list index out of range"))
      | v :: vs =>
          let! x := evaluate v in
          if is_list_or_dict key then raise (RuntimeError InvalidKey)
          else dictionary_entries ks vs (dict_store key x result)
      end
  end.

Definition visit_dictionary_expr (keys vals : list expr) : M value :=
  let! entries := dictionary_entries keys vals [] in
  let! l := dict_new entries in
  ret (VDict l).

Definition visit_grouping_expr (expression : expr) : M value :=
  evaluate expression.

Definition visit_index_expr (object index : expr) : M value :=
  let! obj := evaluate object in
  let! i := evaluate index in
  index_get obj i.

Definition visit_list_expr (elements : list expr) : M value :=
  let! items := mapM_M evaluate elements in
  let! l := list_new items in
  ret (VList l).

Definition visit_literal_expr (l : literal) : M value :=
  ret (value_of_literal l).

Definition visit_logical_expr (left : expr) (operator : logop) (right : expr) : M value :=
  let! l := evaluate left in
  let! t := is_truthy l in
  match operator with
  | OR => if t then ret l else evaluate right
  | AND => if negb t then ret l else evaluate right
  end.

Definition visit_unary_expr (operator : unop) (right : expr) : M value :=
  let! r := evaluate right in
  unary_operation operator r.

Definition visit_variable_expr (name : string) : M value :=
  lookup_variable name.

Definition visit_assign_expr (name : string) (value_expr : expr) : M value :=
  let! v := evaluate value_expr in
  assign_variable name v >> ret v.

Definition visit_index_assign_expr (object index value_expr : expr) : M value :=
  let! obj := evaluate object in
  let! i := evaluate index in
  let! v := evaluate value_expr in
  index_set obj i v.

(** One iteration of [visit_foreach_stmt] *)
Definition foreach_iteration (variable : string) (body : stmt) (v : value) : M unit :=
  let! st := get_state in
  let! env := Environment_new (Some (environment st)) in
  Environment_define env variable v >>
  let previous_env := environment st in
  finally_restore (modify (set_environment env) >> execute body) previous_env.

(** Iteration over a list of the host: the list is read again at every
    step, so that items appended by the body are visited too. *)
Fixpoint foreach_list (k : nat) (variable : string) (body : stmt) (l : loc) (i : nat)
    : M unit :=
  match k with
  | O => abort_with OutOfFuel
  | S k' =>
      let! xs := read_list l in
      match xs !! i with
      | Some v => foreach_iteration variable body v >> foreach_list k' variable body l (S i)
      | None => ret tt
      end
  end.

Definition visit_foreach_stmt (variable : string) (iterable : expr) (body : stmt) : M unit :=
  let! it := evaluate iterable in
  match it with
  | VList l => foreach_list fuel variable body l O
  | VStr s => iterM (foreach_iteration variable body) (chars s)
  | VDict l =>
      let! d := read_dict l in
      iterM (foreach_iteration variable body) (map fst d)
  | _ => raise (RuntimeError NotIterable)
  end.

Fixpoint collect_methods (env : loc) (decls : list fundecl)
    (methods : list (string * Function)) : M (list (string * Function)) :=
  match decls with
  | [] => ret methods
  | d :: rest =>
      let! i := fresh_id in
      let function := {| fid := i; declaration := d; closure := env |} in
      collect_methods env rest (methods_store (decl_name d) function methods)
  end.

Definition visit_class_stmt (name : string) (superclass : option expr)
    (decls : list fundecl) : M unit :=
  let! st := get_state in
  Environment_define (environment st) name VNil >>
  let! super :=
    match superclass with
    | None => ret None
    | Some e =>
        let! v := evaluate e in
        match v with
        | VClass k => ret (Some k)
        | _ => raise (RuntimeError SuperclassNotClass)
        end
    end in
  let! methods := collect_methods (environment st) decls [] in
  let! i := fresh_id in
  Environment_define (environment st) name (VClass (MkLoxClass i name super methods)).

(** [try: klass = self.environment.get(...) except: raise RuntimeError] *)
Definition get_class (name : string) : M value :=
  fun st =>
    match Environment_get (environment st) name st with
    | (Raise _, st') => (Raise (RuntimeError (UndefinedClass name)), st')
    | other => other
    end.

Definition visit_new_expr (class_name : string) (arguments : list expr) : M value :=
  let! k := get_class class_name in
  let! args := mapM_M evaluate arguments in
  if negb (has_call k) then raise (RuntimeError (NotAClass class_name))
  else call_method k args.

(** The class defines [visit_this_expr] twice; the second definition is
    the one in effect. *)
Definition visit_this_expr : M value :=
  lookup_variable "this".

(** [self.locals]: [Interpreter.__init__] sets [globals] and
    [environment], and no method sets another attribute. *)
Definition Interpreter_locals_get : M nat :=
  raise (HostError (AttributeError "'Interpreter' object has no attribute 'locals'")).

(** [self.environment.get_at(distance, name)]: [Environment] defines
    [define], [get] and [assign]. *)
Definition Environment_get_at (distance : nat) (name : string) : M value :=
  raise (HostError (AttributeError "'Environment' object has no attribute 'get_at'")).

Definition visit_super_expr (method : string) : M value :=
  let! distance := Interpreter_locals_get in
  let! superclass := Environment_get_at distance "super" in
  let! instance := Environment_get_at (distance - 1) "this" in
  match superclass with
  | VClass k =>
      match find_method k method with
      | None => raise (RuntimeError (UndefinedProperty method))
      | Some m =>
          let! bound := Function_bind m instance in
          ret (VFunction bound)
      end
  | _ => raise (HostError (no_attribute superclass "find_method"))
  end.

(** [expr.accept(self)] *)
Definition expr_accept (e : expr) : M value :=
  match e with
  | Binary l op r => visit_binary_expr l op r
  | Grouping e' => visit_grouping_expr e'
  | Literal l => visit_literal_expr l
  | Unary op r => visit_unary_expr op r
  | Variable_ name => visit_variable_expr name
  | Assign name v => visit_assign_expr name v
  | Call callee args => visit_call_expr callee args
  | Get obj name => visit_get_expr obj name
  | Set_ obj name v => visit_set_expr obj name v
  | List_ elements => visit_list_expr elements
  | Index obj i => visit_index_expr obj i
  | IndexAssign obj i v => visit_index_assign_expr obj i v
  | Dictionary keys vals => visit_dictionary_expr keys vals
  | Logical l op r => visit_logical_expr l op r
  | This => visit_this_expr
  | Super method => visit_super_expr method
  | New name args => visit_new_expr name args
  end.

(** [stmt.accept(self)] *)
Definition stmt_accept (s : stmt) : M unit :=
  match s with
  | ExpressionStmt e => visit_expression_stmt e
  | PrintStmt e => visit_print_stmt e
  | InputStmt variable prompt => visit_input_stmt variable prompt
  | BlockStmt statements => visit_block_stmt statements
  | IfStmt c t e => visit_if_stmt c t e
  | WhileStmt c body => visit_while_stmt c body
  | FunctionStmt d => visit_function_stmt d
  | ReturnStmt v => visit_return_stmt v
  | ForEach variable iterable body => visit_foreach_stmt variable iterable body
  | Class name superclass methods => visit_class_stmt name superclass methods
  end.

End Visitors.

(** ** [Interpreter.evaluate] and [Interpreter.execute]

    Each level of nesting of the two methods uses one unit of fuel. *)

Fixpoint evaluate (fuel : nat) (e : expr) : M value :=
  match fuel with
  | O => abort_with OutOfFuel
  | S n => expr_accept (evaluate n) (execute n) n e
  end
with execute (fuel : nat) (s : stmt) : M unit :=
  match fuel with
  | O => abort_with OutOfFuel
  | S n => stmt_accept (evaluate n) (execute n) n s
  end.

(** The loop of [Interpreter.interpret]: [None] statements are skipped *)
Fixpoint execute_all (fuel : nat) (statements : list (option stmt)) : M unit :=
  match statements with
  | [] => ret tt
  | None :: rest => execute_all fuel rest
  | Some s :: rest => execute fuel s >> execute_all fuel rest
  end.

(** [Interpreter.interpret]: [except RuntimeError] names the class of
    [interpreter.py]. *)
Definition interpret (fuel : nat) (statements : list (option stmt)) : M unit :=
  fun st =>
    match execute_all fuel statements st with
    | (Raise (RuntimeError error), st') => print ("Runtime error: " ++ error) st'
    | other => other
    end.

(** [Interpreter.__init__] *)
Definition Interpreter_new (text : list string) : state :=
  snd (define_globals 0%nat
         {| envs := [{| values := ∅; enclosing := None |}];
            lists := []; dicts := []; instances := []; next_id := 0%nat;
            globals := 0%nat; environment := 0%nat; stdin := text; stdout := "" |}).

(** [run] of [src/main.py], after lexing and parsing: the outcome of the
    process and its final state.  A [Raise] is an exception that nothing
    catches: the process ends with a traceback. *)
Definition run (fuel : nat) (statements : list (option stmt)) (text : list string)
    : outcome unit * state :=
  match statements with
  | [] => (Normal tt, Interpreter_new text)
  | _ => interpret fuel statements (Interpreter_new text)
  end.

(** * Properties *)

(** ** The monad *)

Lemma bind_normal {A B} (m : M A) (k : A -> M B) st a st' :
  m st = (Normal a, st') -> bind m k st = k a st'.
Proof. intros Hm. unfold bind. now rewrite Hm. Qed.

Lemma bind_raise {A B} (m : M A) (k : A -> M B) st e st' :
  m st = (Raise e, st') -> bind m k st = (Raise e, st').
Proof. intros Hm. unfold bind. now rewrite Hm. Qed.

Lemma bind_abort {A B} (m : M A) (k : A -> M B) st a st' :
  m st = (Abort a, st') -> bind m k st = (Abort a, st').
Proof. intros Hm. unfold bind. now rewrite Hm. Qed.

Lemma finally_restore_environment {A} (m : M A) previous st :
  environment (snd (finally_restore m previous st)) = previous.
Proof. unfold finally_restore. now destruct (m st). Qed.

(** ** Unfolding one level of [evaluate] and [execute] *)

Lemma evaluate_S n e :
  evaluate (S n) e = expr_accept (evaluate n) (execute n) n e.
Proof. reflexivity. Qed.

Lemma execute_S n s :
  execute (S n) s = stmt_accept (evaluate n) (execute n) n s.
Proof. reflexivity. Qed.

(** ** Blocks *)

(** The state in which the statements of a block start: a new, empty
    environment whose parent is the current one has become current. *)
Definition enter_block (st : state) : state :=
  set_environment (length (envs st))
    (set_envs (fun es => (es ++ [{| values := ∅; enclosing := Some (environment st) |}])%list)
       st).

Lemma execute_block_restores execute_ statements env st :
  environment (snd (execute_block execute_ statements env st)) = environment st.
Proof.
  unfold execute_block, bind, get_state.
  apply finally_restore_environment.
Qed.

Lemma execute_block_runs execute_ statements env st :
  execute_block execute_ statements env st =
  (fst (iterM execute_ statements (set_environment env st)),
   set_environment (environment st)
     (snd (iterM execute_ statements (set_environment env st)))).
Proof.
  unfold execute_block, bind, get_state, finally_restore, modify. simpl.
  now destruct (iterM execute_ statements (set_environment env st)).
Qed.

(** C8.  A block statement runs its statements in a new, empty
    environment whose parent is the environment that was current at
    entry, and whatever the statements do (finish, raise a runtime error,
    unwind with a return) the environment that was current at entry is
    current again afterwards. *)
Theorem block_runs_in_fresh_scope_and_restores n statements st :
  envs st !! length (envs st) = None /\
  envs (enter_block st) !! environment (enter_block st)
    = Some {| values := ∅; enclosing := Some (environment st) |} /\
  execute (S n) (BlockStmt statements) st
    = (fst (iterM (execute n) statements (enter_block st)),
       set_environment (environment st)
         (snd (iterM (execute n) statements (enter_block st)))) /\
  environment (snd (execute (S n) (BlockStmt statements) st)) = environment st.
Proof.
  split; [| split; [| split]].
  - apply lookup_ge_None. lia.
  - simpl. rewrite lookup_app_r by lia. now rewrite Nat.sub_diag.
  - rewrite execute_S. simpl. unfold visit_block_stmt, bind, get_state, Environment_new.
    now rewrite execute_block_runs.
  - rewrite execute_S. simpl. unfold visit_block_stmt, bind, get_state, Environment_new.
    now rewrite execute_block_restores.
Qed.

(** ** [super] *)

(** [find_method] takes the first match along the superclass chain, so a
    lookup that starts at a class never sees the methods of its
    subclasses. *)
Lemma find_method_own k name f :
  methods_lookup name (class_methods k) = Some f -> find_method k name = Some f.
Proof. destruct k as [i n s m]. simpl. now intros ->. Qed.

Lemma find_method_inherited k name :
  methods_lookup name (class_methods k) = None ->
  find_method k name
  = match class_superclass k with
    | Some s => find_method s name
    | None => None
    end.
Proof. destruct k as [i n s m]. simpl. now intros ->. Qed.

(** C1.  Evaluating [super.method] raises the host's [AttributeError]
    in every state and for every method name: the interpreter has no
    [locals] attribute.  No method is looked up, neither from the
    superclass of the enclosing class nor from the class of the
    instance. *)
Theorem super_expression_raises_attribute_error n method st :
  evaluate (S n) (Super method) st
  = (Raise (HostError
       (AttributeError "'Interpreter' object has no attribute 'locals'")), st).
Proof. reflexivity. Qed.

(** ** Arity *)

(** C5.  [Function] and [BuiltinFunction] answer [arity()] with their
    parameter count; a [LoxClass] has no such method and the call raises
    the host's [AttributeError]. *)
Theorem arity_of_the_three_callables st :
  (forall f, arity_method (VFunction f) st
             = (Normal (length (decl_params (declaration f))), st)) /\
  (forall b, arity_method (VBuiltin b) st = (Normal (arity_count b), st)) /\
  (forall k, arity_method (VClass k) st
             = (Raise (HostError
                  (AttributeError "'LoxClass' object has no attribute 'arity'")), st)).
Proof. repeat split. Qed.

Lemma call_of_a_class_raises n callee arguments st k st1 args st2 :
  evaluate n callee st = (Normal (VClass k), st1) ->
  mapM_M (evaluate n) arguments st1 = (Normal args, st2) ->
  evaluate (S n) (Call callee arguments) st
  = (Raise (HostError
       (AttributeError "'LoxClass' object has no attribute 'arity'")), st2).
Proof.
  intros Hc Ha. rewrite evaluate_S. simpl. unfold visit_call_expr.
  rewrite (bind_normal _ _ _ _ _ Hc), (bind_normal _ _ _ _ _ Ha).
  reflexivity.
Qed.

(** C4, as the code has it.  With the callee and the arguments
    evaluated, the count of the arguments is compared with [arity()] of
    the callee.  For a function and for a built-in function a different
    count raises the interpreter's [RuntimeError] with the message that
    names the expected and the actual count, in the state reached by
    evaluating the callee and the arguments: no environment is created,
    no parameter is bound and no statement of the body runs.  For a
    class there is no [arity()]: the call raises the host's
    [AttributeError] in that same state, whatever the count is, and the
    claimed error is not raised. *)
Theorem call_with_wrong_argument_count n callee arguments st function st1 args st2 :
  evaluate n callee st = (Normal function, st1) ->
  mapM_M (evaluate n) arguments st1 = (Normal args, st2) ->
  (forall f, function = VFunction f -> length args <> Function_arity f ->
     evaluate (S n) (Call callee arguments) st
     = (Raise (RuntimeError (ArityMismatch (Function_arity f) (length args))), st2)) /\
  (forall b, function = VBuiltin b -> length args <> BuiltinFunction_arity b ->
     evaluate (S n) (Call callee arguments) st
     = (Raise (RuntimeError (ArityMismatch (BuiltinFunction_arity b) (length args))), st2)) /\
  (forall k, function = VClass k ->
     evaluate (S n) (Call callee arguments) st
     = (Raise (HostError (AttributeError "'LoxClass' object has no attribute 'arity'")),
        st2) /\
     forall expected,
       fst (evaluate (S n) (Call callee arguments) st)
       <> Raise (RuntimeError (ArityMismatch expected (length args)))).
Proof.
  intros Hc Ha.
  assert (evaluate (S n) (Call callee arguments) st
          = (if negb (has_call function)
             then raise (RuntimeError (NotCallable function))
             else
               let! expected := arity_method function in
               if negb (Nat.eqb (length args) expected)
               then raise (RuntimeError (ArityMismatch expected (length args)))
               else call_method (execute n) function args) st2) as Hcall.
  { rewrite evaluate_S. simpl. unfold visit_call_expr.
    now rewrite (bind_normal _ _ _ _ _ Hc), (bind_normal _ _ _ _ _ Ha). }
  split; [| split].
  - intros f -> Hne. rewrite Hcall. apply Nat.eqb_neq in Hne.
    cbn [has_call negb]. unfold arity_method, bind, ret. now rewrite Hne.
  - intros b -> Hne. rewrite Hcall. apply Nat.eqb_neq in Hne.
    cbn [has_call negb]. unfold arity_method, bind, ret. now rewrite Hne.
  - intros k ->. rewrite Hcall. split; [reflexivity | discriminate].
Qed.

(** ** String concatenation *)

(** C6.  With a string on one side, [+] converts the other operand with
    the host's [str], not with [stringify]: [None] gives "None" where
    [stringify] gives "nil", [True] gives "True" where [stringify] gives
    "true", and a float keeps the ".0" that [stringify] removes. *)
Theorem plus_converts_with_host_str fuel s st :
  binary_operation fuel PLUS (VStr s) VNil st = (Normal (VStr (s ++ "None")), st) /\
  binary_operation fuel PLUS VNil (VStr s) st = (Normal (VStr ("None" ++ s)), st) /\
  binary_operation fuel PLUS (VStr s) (VBool true) st = (Normal (VStr (s ++ "True")), st) /\
  (forall i f, binary_operation fuel PLUS (VStr s) (VFloat i f) st
               = (Normal (VStr (s ++ host_float_str H f)), st)) /\
  stringify (S fuel) VNil st = (Normal "nil", st) /\
  stringify (S fuel) (VBool true) st = (Normal "true", st) /\
  (forall i f, stringify (S fuel) (VFloat i f) st
               = (Normal (strip_dot_zero (host_float_str H f)), st)).
Proof. repeat split. Qed.

(** ** Assignment to a name that no scope defines *)

Lemma assign_variable_from_undefined fuel env name v st :
  fst (lookup_variable_from fuel env name st) = Raise (RuntimeError (UndefinedVariable name)) ->
  assign_variable_from fuel env name v st = Environment_define (environment st) name v st.
Proof.
  revert env. induction fuel as [| n IH]; intros [env |] Hl; simpl in *;
    try reflexivity; try discriminate.
  unfold bind, read_env in *.
  destruct (envs st !! env) as [e |]; [| discriminate].
  destruct (values e !! name); [discriminate |].
  now apply IH.
Qed.

Lemma Environment_assign_from_undefined fuel env name v st :
  fst (lookup_variable_from fuel (Some env) name st)
    = Raise (RuntimeError (UndefinedVariable name)) ->
  Environment_assign_from fuel env name v st
    = (Raise (RuntimeError (UndefinedVariable name)), st).
Proof.
  revert env. induction fuel as [| n IH]; intros env Hl; simpl in *; [discriminate |].
  unfold bind, read_env in *.
  destruct (envs st !! env) as [e |]; [| discriminate].
  destruct (values e !! name); [discriminate |].
  destruct (enclosing e) as [parent |]; [now apply IH | reflexivity].
Qed.

Lemma lookup_undefined_current_exists name st :
  fst (lookup_variable name st) = Raise (RuntimeError (UndefinedVariable name)) ->
  exists e, envs st !! environment st = Some e.
Proof.
  unfold lookup_variable, bind, get_state.
  destruct (length (envs st)); simpl; [discriminate |].
  unfold bind, read_env.
  destruct (envs st !! environment st) as [e |]; [eauto | discriminate].
Qed.

(** C3, as the code has it.  When no scope of the chain defines the
    target name, the assignment expression does not fail: it yields the
    assigned value and the name is now defined in the current
    environment.  [Environment.assign], which the assignment expression
    does not call, is where the same situation raises the
    undefined-variable error. *)
Theorem assignment_defines_undeclared_name n name value_expr st v st1 :
  evaluate n value_expr st = (Normal v, st1) ->
  fst (lookup_variable name st1) = Raise (RuntimeError (UndefinedVariable name)) ->
  exists e,
    envs st1 !! environment st1 = Some e /\
    evaluate (S n) (Assign name value_expr) st
    = (Normal v,
       set_envs (fun es =>
         <[environment st1 := {| values := <[name := v]> (values e);
                                  enclosing := enclosing e |}]> es) st1) /\
    Environment_assign (environment st1) name v st1
    = (Raise (RuntimeError (UndefinedVariable name)), st1).
Proof.
  intros Hv Hl.
  destruct (lookup_undefined_current_exists _ _ Hl) as [e He].
  exists e. split; [exact He |]. split.
  - rewrite evaluate_S. simpl. unfold visit_assign_expr.
    rewrite (bind_normal _ _ _ _ _ Hv).
    unfold assign_variable, bind at 1. unfold bind at 1, get_state.
    unfold lookup_variable, bind, get_state in Hl.
    rewrite (assign_variable_from_undefined _ _ _ v _ Hl).
    unfold Environment_define, bind, read_env. rewrite He. reflexivity.
  - unfold Environment_assign, bind, get_state.
    unfold lookup_variable, bind, get_state in Hl.
    now apply Environment_assign_from_undefined.
Qed.

(** ** Construction of instances *)

(** The state after [LoxInstance(self)] *)
Definition new_instance_state (k : LoxClass) (st : state) : state :=
  set_instances (fun l => (l ++ [{| klass := k; fields := ∅ |}])%list) st.

(** The function that [Function.bind] returns, and the state it leaves *)
Definition bound_method (f : Function) (st : state) : Function :=
  {| fid := next_id st; declaration := declaration f; closure := length (envs st) |}.

Definition bind_state (f : Function) (this : value) (st : state) : state :=
  set_next_id (S (next_id st))
    (set_envs (fun es =>
       (es ++ [{| values := {[ "this" := this ]}; enclosing := Some (closure f) |}])%list) st).

Lemma insert_last {A} (l : list A) x y :
  <[length l := y]> (l ++ [x])%list = (l ++ [y])%list.
Proof. rewrite insert_app_r_alt by lia. now rewrite Nat.sub_diag. Qed.

Lemma lookup_last {A} (l : list A) x : (l ++ [x])%list !! length l = Some x.
Proof. now apply list_lookup_middle. Qed.

Lemma Function_bind_eq f this st :
  Function_bind f this st = (Normal (bound_method f st), bind_state f this st).
Proof.
  unfold Function_bind, bind, Environment_new, Environment_define, bind, read_env.
  cbn [envs set_envs].
  rewrite lookup_last.
  unfold modify, fresh_id, ret, bound_method, bind_state, set_next_id, set_envs. cbn.
  rewrite insert_last. reflexivity.
Qed.

Lemma bind_state_closure f this st :
  envs (bind_state f this st) !! closure (bound_method f st)
  = Some {| values := {[ "this" := this ]}; enclosing := Some (closure f) |}.
Proof.
  cbn. apply lookup_last.
Qed.

(** The class and the classes above it, nearest first: the objects
    reached from [k] through [superclass] *)
Fixpoint superclass_chain (k : LoxClass) : list LoxClass :=
  match k with
  | MkLoxClass _ _ superclass _ =>
      k :: match superclass with
           | Some s => superclass_chain s
           | None => []
           end
  end.

Lemma superclass_chain_eq k :
  superclass_chain k
  = k :: match class_superclass k with
         | Some s => superclass_chain s
         | None => []
         end.
Proof. now destruct k. Qed.

(** [find_method] finds nothing when no class of the chain has the
    method among its own. *)
Lemma find_method_nowhere k name :
  (forall c, c ∈ superclass_chain k -> methods_lookup name (class_methods c) = None) ->
  find_method k name = None.
Proof.
  remember (superclass_chain k) as chain eqn:Hchain. revert k Hchain.
  induction chain as [| c chain IH]; intros k Hchain Hnone;
    rewrite superclass_chain_eq in Hchain; [discriminate |].
  injection Hchain as -> Hchain.
  rewrite find_method_inherited by (apply Hnone; left).
  destruct (class_superclass k) as [s |]; [| reflexivity].
  apply (IH s Hchain). intros c Hc. apply Hnone. now right.
Qed.

(** [find_method] finds the method of the nearest class of the chain that
    has one among its own. *)
Lemma find_method_nearest k name before owner after f :
  superclass_chain k = (before ++ owner :: after)%list ->
  (forall c, c ∈ before -> methods_lookup name (class_methods c) = None) ->
  methods_lookup name (class_methods owner) = Some f ->
  find_method k name = Some f.
Proof.
  revert k. induction before as [| c before IH]; intros k Hchain Hnone Hown;
    rewrite superclass_chain_eq in Hchain; injection Hchain as <- Hchain.
  - now apply find_method_own.
  - rewrite find_method_inherited by (apply Hnone; left).
    destruct (class_superclass k) as [s |]; [| now destruct before].
    apply (IH s Hchain); [| exact Hown]. intros c Hc. apply Hnone. now right.
Qed.

(** C7.  Calling a class allocates a new instance of it, with no fields.
    When no class of the chain (the class, its superclass, and so on) has
    an [init] among its own methods, the call returns that instance.
    Otherwise the [init] of the nearest class of the chain that has one,
    be it the class itself or a class any number of levels above it, is
    bound to the new instance ([this] in a new environment over the
    method's closure) and called with the arguments of the constructor
    call; when that call returns, with whatever value, the constructor
    returns the new instance. *)
Theorem constructor_returns_the_new_instance execute_ k arguments st :
  let i := length (instances st) in
  let st0 := new_instance_state k st in
  instances st !! i = None /\
  instances st0 !! i = Some {| klass := k; fields := ∅ |} /\
  ((forall c, c ∈ superclass_chain k -> methods_lookup "init" (class_methods c) = None) ->
   LoxClass_call execute_ k arguments st = (Normal (VInstance i), st0)) /\
  (forall before owner after initializer,
     superclass_chain k = (before ++ owner :: after)%list ->
     (forall c, c ∈ before -> methods_lookup "init" (class_methods c) = None) ->
     methods_lookup "init" (class_methods owner) = Some initializer ->
     let bound := bound_method initializer st0 in
     let st1 := bind_state initializer (VInstance i) st0 in
     declaration bound = declaration initializer /\
     envs st1 !! closure bound
       = Some {| values := {[ "this" := VInstance i ]};
                 enclosing := Some (closure initializer) |} /\
     LoxClass_call execute_ k arguments st
     = (match fst (Function_call execute_ bound arguments st1) with
        | Normal _ => Normal (VInstance i)
        | Raise e => Raise e
        | Abort a => Abort a
        end,
        snd (Function_call execute_ bound arguments st1))).
Proof.
  intros i st0. split; [| split; [| split]].
  - apply lookup_ge_None. subst i. lia.
  - subst i st0. cbn. apply lookup_last.
  - intros Hnone. apply find_method_nowhere in Hnone.
    unfold LoxClass_call, bind, LoxInstance_new. now rewrite Hnone.
  - intros before owner after initializer Hchain Hnone Hown bound st1.
    pose proof (find_method_nearest _ _ _ _ _ _ Hchain Hnone Hown) as Hinit.
    split; [reflexivity |]. split.
    + apply bind_state_closure.
    + unfold LoxClass_call, bind at 1. unfold LoxInstance_new. rewrite Hinit.
      unfold bind at 1. rewrite Function_bind_eq. unfold bind.
      subst bound st1 st0. unfold new_instance_state.
      now destruct (Function_call _ _ _ _) as [[v | e | a] st2].
Qed.

(** A [new] expression whose class name is bound to a class calls that
    class with the evaluated arguments. *)
Lemma new_expression_calls_the_class n name arguments st k st1 args st2 :
  get_class name st = (Normal (VClass k), st1) ->
  mapM_M (evaluate n) arguments st1 = (Normal args, st2) ->
  evaluate (S n) (New name arguments) st = LoxClass_call (execute n) k args st2.
Proof.
  intros Hk Ha. rewrite evaluate_S. simpl. unfold visit_new_expr.
  now rewrite (bind_normal _ _ _ _ _ Hk), (bind_normal _ _ _ _ _ Ha).
Qed.

(** ** Indexing *)

(** The exception of an error whose message formats the index with
    [f"{index}"]: the host's own when the formatting raises *)
Definition index_error (text : py_error + string) (message : string -> string) : exn :=
  match text with
  | inr t => RuntimeError (message t)
  | inl e => HostError e
  end.

(** The rule of [obj[idx]], for a given outcome [result] in the state
    [st] reached after the operands.  An index is an integer when the
    host says so, which includes [True] (1) and [False] (0).  A key that
    the host cannot hash, a list or a dictionary, raises the host's
    [TypeError]. *)
Definition index_rule (st : state) (obj idx : value) (result : outcome value * state) : Prop :=
  (forall l xs, obj = VList l -> lists st !! l = Some xs ->
     (as_int idx = None -> result = (Raise (RuntimeError ListIndexNotInteger), st)) /\
     (forall i, as_int idx = Some i -> i < 0 \/ Z.of_nat (length xs) <= i ->
        result = (Raise (index_error (py_str_atom idx) ListIndexOutOfRange), st)) /\
     (forall i, as_int idx = Some i -> 0 <= i < Z.of_nat (length xs) ->
        exists x, xs !! Z.to_nat i = Some x /\ result = (Normal x, st))) /\
  (forall s, obj = VStr s ->
     (as_int idx = None -> result = (Raise (RuntimeError StringIndexNotInteger), st)) /\
     (forall i, as_int idx = Some i -> i < 0 \/ Z.of_nat (String.length s) <= i ->
        result = (Raise (index_error (py_str_atom idx) StringIndexOutOfRange), st)) /\
     (forall i, as_int idx = Some i -> 0 <= i < Z.of_nat (String.length s) ->
        exists c, String.get (Z.to_nat i) s = Some c /\
                  result = (Normal (VStr (String c "")), st))) /\
  (forall l d, obj = VDict l -> dicts st !! l = Some d ->
     (is_list_or_dict idx = true ->
        result = (Raise (HostError (TypeError (unhashable idx))), st)) /\
     (is_list_or_dict idx = false -> dict_lookup idx d = None ->
        result = (Raise (index_error (py_str_atom idx) KeyNotFound), st)) /\
     (forall x, is_list_or_dict idx = false -> dict_lookup idx d = Some x ->
        result = (Normal x, st))) /\
  (is_list_or_dict obj = false -> (forall s, obj <> VStr s) ->
     result = (Raise (RuntimeError (NotIndexable obj)), st)).

(** The rule of [obj[idx] = v] *)
Definition index_assign_rule (st : state) (obj idx v : value)
    (result : outcome value * state) : Prop :=
  (forall l xs, obj = VList l -> lists st !! l = Some xs ->
     (as_int idx = None -> result = (Raise (RuntimeError ListIndexNotInteger), st)) /\
     (forall i, as_int idx = Some i -> i < 0 \/ Z.of_nat (length xs) <= i ->
        result = (Raise (index_error (py_str_atom idx) ListIndexOutOfRange), st)) /\
     (forall i, as_int idx = Some i -> 0 <= i < Z.of_nat (length xs) ->
        result = (Normal v, set_lists (fun ls => <[l := <[Z.to_nat i := v]> xs]> ls) st))) /\
  (forall l d, obj = VDict l -> dicts st !! l = Some d ->
     (is_list_or_dict idx = true ->
        result = (Raise (HostError (TypeError (unhashable idx))), st)) /\
     (is_list_or_dict idx = false ->
        result = (Normal v, set_dicts (fun ds => <[l := dict_store idx v d]> ds) st) /\
        (dict_lookup idx d = None -> dict_store idx v d = (d ++ [(idx, v)])%list) /\
        (forall old, dict_lookup idx d = Some old ->
           length (dict_store idx v d) = length d /\
           dict_lookup idx (dict_store idx v d) = Some v))) /\
  (is_list_or_dict obj = false ->
     result = (Raise (RuntimeError (NotIndexAssignable obj)), st)).

Lemma py_str_of_int st idx i : as_int idx = Some i -> py_str st idx = Some (py_str_atom idx).
Proof. now destruct idx. Qed.

Lemma py_str_hashable st idx :
  is_list_or_dict idx = false -> py_str st idx = Some (py_str_atom idx).
Proof. now destruct idx. Qed.

(** [raise RuntimeError(f"...{index}")] *)
Lemma raise_index_error {A} st (text : py_error + string) message :
  match lift_conv (Some text) st with
  | (Normal t, st') => (@Raise A (RuntimeError (message t)), st')
  | (Raise e, st') => (Raise e, st')
  | (Abort a, st') => (Abort a, st')
  end
  = (Raise (index_error text message), st).
Proof. now destruct text. Qed.

Lemma out_of_range_test (i len : Z) : i < 0 \/ len <= i -> (i <? 0) || (len <=? i) = true.
Proof.
  intros [Hi | Hi]; apply orb_true_iff; [left; now apply Z.ltb_lt | right; now apply Z.leb_le].
Qed.

Lemma in_range_test (i len : Z) : 0 <= i < len -> (i <? 0) || (len <=? i) = false.
Proof.
  intros [Hlo Hhi]. apply orb_false_iff. split; [now apply Z.ltb_ge | now apply Z.leb_gt].
Qed.

Lemma length_list_ascii_of_string s :
  length (list_ascii_of_string s) = String.length s.
Proof. induction s as [| c s IH]; simpl; [reflexivity | now rewrite IH]. Qed.

Lemma chars_lookup s i :
  chars s !! i = (fun c => VStr (String c "")) <$> String.get i s.
Proof.
  unfold chars. revert i. induction s as [| c s IH]; intros [| i]; simpl; try reflexivity.
  apply IH.
Qed.

Lemma string_get_in_range s i : (i < String.length s)%nat -> exists c, String.get i s = Some c.
Proof.
  revert i. induction s as [| c s IH]; intros [| i] Hi; simpl in *; try lia; eauto.
  apply IH. lia.
Qed.

Lemma index_get_rule st obj idx : index_rule st obj idx (index_get obj idx st).
Proof.
  unfold index_rule. split; [| split; [| split]].
  - intros l xs -> Hxs. unfold index_get, bind, get_state, read_list.
    rewrite Hxs. split; [| split].
    + intros Hidx. now rewrite Hidx.
    + intros i Hidx Hi. rewrite Hidx, (out_of_range_test _ _ Hi).
      rewrite (py_str_of_int _ _ _ Hidx). apply raise_index_error.
    + intros i Hidx Hi.
      destruct (lookup_lt_is_Some_2 xs (Z.to_nat i)) as [x Hx]; [lia |].
      exists x. split; [exact Hx |].
      now rewrite Hidx, (in_range_test _ _ Hi), Hx.
  - intros s ->. unfold index_get, bind, get_state.
    split; [| split].
    + intros Hidx. now rewrite Hidx.
    + intros i Hidx Hi. rewrite Hidx, (out_of_range_test _ _ Hi).
      rewrite (py_str_of_int _ _ _ Hidx). apply raise_index_error.
    + intros i Hidx Hi.
      destruct (string_get_in_range s (Z.to_nat i)) as [c Hc]; [lia |].
      exists c. split; [exact Hc |].
      now rewrite Hidx, (in_range_test _ _ Hi), chars_lookup, Hc.
  - intros l d -> Hd. unfold index_get, bind, get_state, read_dict.
    rewrite Hd. split; [| split].
    + intros Hhash. now rewrite Hhash.
    + intros Hhash Hnone. rewrite Hhash, Hnone.
      rewrite (py_str_hashable _ _ Hhash). apply raise_index_error.
    + intros x Hhash Hx. now rewrite Hhash, Hx.
  - intros Hobj Hstr. destruct obj; try discriminate; try reflexivity.
    now destruct (Hstr s).
Qed.

Lemma dict_store_absent idx v d :
  dict_lookup idx d = None -> dict_store idx v d = (d ++ [(idx, v)])%list.
Proof.
  induction d as [| [k x] d IH]; simpl; [reflexivity |].
  destruct (key_eqb k idx); [discriminate |].
  intros Hnone. now rewrite IH.
Qed.

Lemma dict_store_present idx v d old :
  dict_lookup idx d = Some old ->
  length (dict_store idx v d) = length d /\ dict_lookup idx (dict_store idx v d) = Some v.
Proof.
  induction d as [| [k x] d IH]; simpl; [discriminate |].
  destruct (key_eqb k idx) eqn:Hk; simpl.
  - intros _. now rewrite Hk.
  - intros Hold. rewrite Hk. destruct (IH Hold) as [Hlen Hget]. now rewrite Hlen.
Qed.

Lemma index_set_rule st obj idx v : index_assign_rule st obj idx v (index_set obj idx v st).
Proof.
  unfold index_assign_rule. split; [| split].
  - intros l xs -> Hxs. unfold index_set, bind, get_state, read_list.
    rewrite Hxs. split; [| split].
    + intros Hidx. now rewrite Hidx.
    + intros i Hidx Hi. rewrite Hidx, (out_of_range_test _ _ Hi).
      rewrite (py_str_of_int _ _ _ Hidx). apply raise_index_error.
    + intros i Hidx Hi. now rewrite Hidx, (in_range_test _ _ Hi).
  - intros l d -> Hd. unfold index_set, bind, get_state, read_dict.
    rewrite Hd. split.
    + intros Hhash. now rewrite Hhash.
    + intros Hhash. rewrite Hhash. split; [reflexivity |]. split.
      * apply dict_store_absent.
      * apply dict_store_present.
  - intros Hobj. now destruct obj.
Qed.

(** A Boolean index never raises the not-an-integer error. *)
Lemma boolean_index_is_an_integer st l xs b v :
  lists st !! l = Some xs ->
  fst (index_get (VList l) (VBool b) st) <> Raise (RuntimeError ListIndexNotInteger) /\
  fst (index_set (VList l) (VBool b) v st) <> Raise (RuntimeError ListIndexNotInteger).
Proof.
  intros Hxs. unfold index_get, index_set, bind, get_state, read_list. rewrite Hxs.
  cbn [as_int].
  destruct ((_ <? 0) || (_ <=? _)).
  - destruct b; split; cbn; discriminate.
  - split; [| discriminate]. unfold lift_option. now destruct (xs !! _).
Qed.

Lemma boolean_index_of_a_string st s b :
  fst (index_get (VStr s) (VBool b) st) <> Raise (RuntimeError StringIndexNotInteger).
Proof.
  unfold index_get, bind, get_state. cbn [as_int].
  destruct ((_ <? 0) || (_ <=? _)).
  - destruct b; cbn; discriminate.
  - unfold lift_option. now destruct (chars s !! _).
Qed.

(** C9, as the code has it.  After the operands of [obj[idx]] and of
    [obj[idx] = v] are evaluated, the outcome follows [index_rule] and
    [index_assign_rule]: on a list or a string an index that the host
    does not count as an integer raises the not-an-integer error, an
    integer outside the bounds raises the out-of-range error, an integer
    inside them selects the item; on a dictionary a hashable key that is
    absent raises the key-not-found error; assignment updates the item of
    a list under the same bounds rule, stores into a dictionary under a
    hashable key (replacing the value of a present key, appending an
    absent one), and raises the cannot-assign error on a string and on
    every other value.  Against the claim: a Boolean index of a list or
    of a string counts as the integer 1 or 0 and never raises the
    not-an-integer error; a list or a dictionary used as the key of a dictionary raises
    the host's [TypeError], in lookup and in assignment; and an integer
    too long for the host to format raises the host's [ValueError] in
    the place of the out-of-range or key-not-found error. *)
Theorem indexing_follows_the_rules n object index value_expr st obj st1 idx st2 v st3 :
  evaluate n object st = (Normal obj, st1) ->
  evaluate n index st1 = (Normal idx, st2) ->
  evaluate n value_expr st2 = (Normal v, st3) ->
  index_rule st2 obj idx (evaluate (S n) (Index object index) st) /\
  index_assign_rule st3 obj idx v
    (evaluate (S n) (IndexAssign object index value_expr) st) /\
  (forall l b, obj = VList l -> idx = VBool b ->
     (forall xs, lists st2 !! l = Some xs ->
        fst (evaluate (S n) (Index object index) st)
        <> Raise (RuntimeError ListIndexNotInteger)) /\
     (forall xs, lists st3 !! l = Some xs ->
        fst (evaluate (S n) (IndexAssign object index value_expr) st)
        <> Raise (RuntimeError ListIndexNotInteger))) /\
  (forall s b, obj = VStr s -> idx = VBool b ->
     fst (evaluate (S n) (Index object index) st)
     <> Raise (RuntimeError StringIndexNotInteger)).
Proof.
  intros Ho Hi Hv.
  assert (evaluate (S n) (Index object index) st = index_get obj idx st2) as Hget.
  { rewrite evaluate_S. simpl. unfold visit_index_expr.
    now rewrite (bind_normal _ _ _ _ _ Ho), (bind_normal _ _ _ _ _ Hi). }
  assert (evaluate (S n) (IndexAssign object index value_expr) st = index_set obj idx v st3)
    as Hset.
  { rewrite evaluate_S. simpl. unfold visit_index_assign_expr.
    now rewrite (bind_normal _ _ _ _ _ Ho), (bind_normal _ _ _ _ _ Hi),
      (bind_normal _ _ _ _ _ Hv). }
  rewrite Hget, Hset. split; [apply index_get_rule |]. split; [apply index_set_rule |].
  split.
  - intros l b -> ->. split; intros xs Hxs.
    + now apply (boolean_index_is_an_integer st2 l xs b v).
    + now apply (boolean_index_is_an_integer st3 l xs b v).
  - intros s b -> ->. apply boolean_index_of_a_string.
Qed.

(** ** The two [pop]s *)

(** C10.  On an empty list the global built-in [pop] raises the
    interpreter's [RuntimeError]; the [pop] obtained by property access
    is a built-in of arity 0 whose call returns [None] and leaves the
    state as it is.  The global name [pop] of a new interpreter is bound
    to the former. *)
Theorem pop_of_an_empty_list execute_ st l :
  lists st !! l = Some [] ->
  (forall text, exists b,
     fst (Environment_get 0%nat "pop" (Interpreter_new text)) = Normal (VBuiltin b) /\
     fn b = fn_pop /\ arity_count b = 1%nat) /\
  (forall b, fn b = fn_pop ->
     call_method execute_ (VBuiltin b) [VList l] st = (Raise (RuntimeError PopExpects), st)) /\
  (exists b st',
     get_property (VList l) "pop" st = (Normal (VBuiltin b), st') /\
     arity_count b = 0%nat /\
     lists st' = lists st /\
     call_method execute_ (VBuiltin b) [] st' = (Normal VNil, st')).
Proof.
  intros Hl. split; [| split].
  - intros text. eexists. split; [vm_compute; reflexivity |]. split; reflexivity.
  - intros b Hb. unfold call_method, BuiltinFunction_call. rewrite Hb.
    unfold builtin_call, bind, read_list. now rewrite Hl.
  - eexists. eexists. split; [reflexivity |]. split; [reflexivity |].
    split; [reflexivity |].
    unfold call_method, BuiltinFunction_call. cbn [fn].
    unfold builtin_call, bind, read_list. cbn [lists set_next_id]. now rewrite Hl.
Qed.

(** ** The entry point *)

Lemma execute_all_stops fuel s rest st e st' :
  execute fuel s st = (Raise e, st') ->
  execute_all fuel (Some s :: rest) st = (Raise e, st').
Proof. intros Hs. simpl. now apply bind_raise. Qed.

Lemma execute_all_app fuel before rest st st1 :
  execute_all fuel before st = (Normal tt, st1) ->
  execute_all fuel (before ++ rest)%list st = execute_all fuel rest st1.
Proof.
  revert st. induction before as [| [s |] before IH]; intros st Hb; simpl in *.
  - unfold ret in Hb. now injection Hb as ->.
  - unfold bind in *. destruct (execute fuel s st) as [[[] | e | a] st0]; try discriminate.
    now apply IH.
  - now apply IH.
Qed.

(** X21.  A [RuntimeError] of the interpreter raised by a top-level statement
    is caught, wherever the statement stands: its message is printed, the
    statements after it do not run, and [interpret] returns. *)
Lemma interpret_reports_and_halts fuel before s rest st st1 msg st2 :
  execute_all fuel before st = (Normal tt, st1) ->
  execute fuel s st1 = (Raise (RuntimeError msg), st2) ->
  interpret fuel (before ++ Some s :: rest)%list st
  = (Normal tt, write_stdout (("Runtime error: " ++ msg) ++ String "010"%char "") st2).
Proof.
  intros Hb Hs. unfold interpret.
  now rewrite (execute_all_app _ _ _ _ _ Hb), (execute_all_stops _ _ rest _ _ _ Hs).
Qed.

(** An exception of the host raised by a top-level statement leaves
    [interpret]. *)
Lemma interpret_lets_host_errors_through fuel before s rest st st1 e st2 :
  execute_all fuel before st = (Normal tt, st1) ->
  execute fuel s st1 = (Raise (HostError e), st2) ->
  interpret fuel (before ++ Some s :: rest)%list st = (Raise (HostError e), st2).
Proof.
  intros Hb Hs. unfold interpret.
  now rewrite (execute_all_app _ _ _ _ _ Hb), (execute_all_stops _ _ rest _ _ _ Hs).
Qed.

(** The same for a first statement. *)
Lemma interpret_catches_runtime_error fuel s rest st msg st' :
  execute fuel s st = (Raise (RuntimeError msg), st') ->
  interpret fuel (Some s :: rest) st
  = (Normal tt, write_stdout (("Runtime error: " ++ msg) ++ String "010"%char "") st').
Proof.
  intros Hs. unfold interpret. now rewrite (execute_all_stops _ _ rest _ _ _ Hs).
Qed.

(** Any other exception leaves [interpret]: nothing is printed and no
    handler lies between [interpret] and the end of the process. *)
Lemma interpret_propagates_host_error fuel s rest st e st' :
  execute fuel s st = (Raise (HostError e), st') ->
  interpret fuel (Some s :: rest) st = (Raise (HostError e), st').
Proof.
  intros Hs. unfold interpret. now rewrite (execute_all_stops _ _ rest _ _ _ Hs).
Qed.

(** The property lookup of an instance that has neither a field nor a
    method of that name raises the host's [RuntimeError]. *)
Lemma undefined_property_is_host_error i name st o :
  instances st !! i = Some o ->
  fields o !! name = None ->
  find_method (klass o) name = None ->
  get_property (VInstance i) name st
  = (Raise (HostError (BuiltinRuntimeError (UndefinedProperty name))), st).
Proof.
  intros Hi Hf Hm. unfold get_property, bind, py_len, ret. simpl.
  destruct (String.eqb name "length"); unfold LoxInstance_get, bind, read_instance;
    now rewrite Hi, Hf, Hm.
Qed.

(** * Further properties of the interpreter *)

Lemma Environment_new_environment parent st :
  environment (snd (Environment_new parent st)) = environment st.
Proof. reflexivity. Qed.

Lemma Environment_define_environment env name v st :
  environment (snd (Environment_define env name v st)) = environment st.
Proof.
  unfold Environment_define, bind, read_env. now destruct (envs st !! env).
Qed.

(** ** Invariants of evaluation

    A relation [R] between the state before and the state after.  When
    the primitive steps of the interpreter respect it, so do [evaluate],
    [execute] and [interpret].  [R_scope] is the step of [execute_block]
    and of the loop of [visit_foreach_stmt]: a computation that runs with
    another current environment and puts the former one back. *)

Section Invariant.
Set Default Proof Using "All".
Variable R : state -> state -> Prop.
Hypothesis R_refl : forall st, R st st.
Hypothesis R_trans : forall a b c, R a b -> R b c -> R a c.
Hypothesis R_envs : forall f st,
  (forall es, length es <= length (f es))%nat -> R st (set_envs f st).
Hypothesis R_lists : forall f st,
  (forall ls, length ls <= length (f ls))%nat -> R st (set_lists f st).
Hypothesis R_dicts : forall f st,
  (forall ds, length ds <= length (f ds))%nat -> R st (set_dicts f st).
Hypothesis R_instances : forall f st,
  (forall l, length l <= length (f l))%nat -> R st (set_instances f st).
Hypothesis R_next_id : forall st, R st (set_next_id (S (next_id st)) st).
Hypothesis R_write : forall text st, R st (write_stdout text st).
Hypothesis R_read : forall line rest st, stdin st = line :: rest -> R st (set_stdin rest st).
Hypothesis R_scope : forall st env st',
  R (set_environment env st) st' -> R st (set_environment (environment st) st').

Definition respects {A} (m : M A) : Prop := forall st, R st (snd (m st)).

Lemma respects_ret {A} (a : A) : respects (ret a).
Proof. intros st. apply R_refl. Qed.

Lemma respects_raise {A} e : respects (@raise A e).
Proof. intros st. apply R_refl. Qed.

Lemma respects_abort {A} a : respects (@abort_with A a).
Proof. intros st. apply R_refl. Qed.

Lemma respects_get_state : respects get_state.
Proof. intros st. apply R_refl. Qed.

Lemma respects_bind {A B} (m : M A) (k : A -> M B) :
  respects m -> (forall a, respects (k a)) -> respects (bind m k).
Proof.
  intros Hm Hk st. unfold bind. specialize (Hm st).
  destruct (m st) as [[a | e | a] st1]; simpl in *; try exact Hm.
  eapply R_trans; [exact Hm | apply Hk].
Qed.

Lemma respects_lift_option {A} (o : option A) : respects (lift_option o).
Proof. destruct o; [apply respects_ret | apply respects_abort]. Qed.

Lemma respects_lift_fuel {A} (o : option A) : respects (lift_fuel o).
Proof. destruct o; [apply respects_ret | apply respects_abort]. Qed.

Lemma respects_mapM {A B} (f : A -> M B) l :
  (forall a, respects (f a)) -> respects (mapM_M f l).
Proof.
  intros Hf. induction l as [| x l IH]; simpl; [apply respects_ret |].
  apply respects_bind; [apply Hf | intros y].
  apply respects_bind; [exact IH | intros ys; apply respects_ret].
Qed.

Lemma respects_iterM {A} (f : A -> M unit) l :
  (forall a, respects (f a)) -> respects (iterM f l).
Proof.
  intros Hf. induction l as [| x l IH]; simpl; [apply respects_ret |].
  apply respects_bind; [apply Hf | intros _; exact IH].
Qed.

Lemma respects_fresh_id : respects fresh_id.
Proof. intros st. apply R_next_id. Qed.

Lemma respects_read_env env : respects (read_env env).
Proof. intros st. unfold read_env. destruct (envs st !! env); apply R_refl. Qed.

Lemma respects_read_list l : respects (read_list l).
Proof. intros st. unfold read_list. destruct (lists st !! l); apply R_refl. Qed.

Lemma respects_read_dict l : respects (read_dict l).
Proof. intros st. unfold read_dict. destruct (dicts st !! l); apply R_refl. Qed.

Lemma respects_read_instance i : respects (read_instance i).
Proof. intros st. unfold read_instance. destruct (instances st !! i); apply R_refl. Qed.

Lemma respects_Environment_new parent : respects (Environment_new parent).
Proof. intros st. apply R_envs. intros es. rewrite length_app. lia. Qed.

Lemma respects_Environment_define env name v : respects (Environment_define env name v).
Proof.
  apply respects_bind; [apply respects_read_env | intros e st].
  apply R_envs. intros es. rewrite length_insert. lia.
Qed.

Lemma respects_list_new items : respects (list_new items).
Proof. intros st. apply R_lists. intros ls. rewrite length_app. lia. Qed.

Lemma respects_write_list l items : respects (write_list l items).
Proof. intros st. apply R_lists. intros ls. rewrite length_insert. lia. Qed.

Lemma respects_dict_new entries : respects (dict_new entries).
Proof. intros st. apply R_dicts. intros ds. rewrite length_app. lia. Qed.

Lemma respects_write_dict l entries : respects (write_dict l entries).
Proof. intros st. apply R_dicts. intros ds. rewrite length_insert. lia. Qed.

Lemma respects_LoxInstance_new k : respects (LoxInstance_new k).
Proof. intros st. apply R_instances. intros l. rewrite length_app. lia. Qed.

Lemma respects_LoxInstance_set i name v : respects (LoxInstance_set i name v).
Proof.
  apply respects_bind; [apply respects_read_instance | intros o st].
  apply R_instances. intros l. rewrite length_insert. lia.
Qed.

Lemma respects_print text : respects (print text).
Proof. intros st. apply R_write. Qed.

Lemma respects_input prompt : respects (input prompt).
Proof.
  intros st. unfold input. destruct (stdin st) as [| line rest] eqn:Hin; simpl.
  - apply R_write.
  - eapply R_trans; [apply (R_write prompt) |].
    apply (R_read line rest (write_stdout prompt st)). exact Hin.
Qed.

Create HintDb respects discriminated.

Local Hint Resolve respects_ret respects_raise respects_abort respects_get_state
  respects_lift_option respects_lift_fuel respects_fresh_id respects_read_env
  respects_read_list respects_read_dict respects_read_instance
  respects_Environment_new respects_Environment_define respects_list_new
  respects_write_list respects_dict_new respects_write_dict
  respects_LoxInstance_new respects_LoxInstance_set respects_print
  respects_input : respects.

Ltac respects_step :=
  first
    [ solve [auto with respects]
    | progress cbv beta zeta
    | match goal with
      | |- respects (bind _ _) => apply respects_bind; [| intros ?]
      | |- respects (match ?x with _ => _ end) => destruct x
      end ].

Ltac respects_auto := repeat respects_step.

Lemma respects_Environment_get_from fuel env name :
  respects (Environment_get_from fuel env name).
Proof. revert env. induction fuel as [| n IH]; intros env; simpl; respects_auto. Qed.

Lemma respects_Environment_get env name : respects (Environment_get env name).
Proof.
  unfold Environment_get. apply respects_bind; [auto with respects | intros st].
  apply respects_Environment_get_from.
Qed.

Lemma respects_lookup_variable_from fuel env name :
  respects (lookup_variable_from fuel env name).
Proof.
  revert env. induction fuel as [| n IH]; intros [env |]; simpl; respects_auto.
Qed.

Lemma respects_lookup_variable name : respects (lookup_variable name).
Proof.
  unfold lookup_variable. apply respects_bind; [auto with respects | intros st].
  apply respects_lookup_variable_from.
Qed.

Lemma respects_assign_variable_from fuel env name v :
  respects (assign_variable_from fuel env name v).
Proof.
  revert env. induction fuel as [| n IH]; intros [env |]; simpl; respects_auto.
Qed.

Lemma respects_assign_variable name v : respects (assign_variable name v).
Proof.
  unfold assign_variable. apply respects_bind; [auto with respects | intros st].
  apply respects_assign_variable_from.
Qed.

Lemma respects_Function_bind f this : respects (Function_bind f this).
Proof. unfold Function_bind. respects_auto. Qed.

Lemma respects_LoxInstance_get i name : respects (LoxInstance_get i name).
Proof.
  unfold LoxInstance_get. respects_auto. apply respects_Function_bind.
Qed.

Lemma respects_is_truthy v : respects (is_truthy v).
Proof. unfold is_truthy. respects_auto. Qed.

Lemma respects_is_equal fuel a b : respects (is_equal fuel a b).
Proof. unfold is_equal. respects_auto. Qed.

Lemma respects_lift_conv {A} (o : option (py_error + A)) : respects (lift_conv o).
Proof.
  destruct o as [[e | a] |]; [apply respects_raise | apply respects_ret | apply respects_abort].
Qed.

Lemma respects_new_number n : respects (new_number n).
Proof. unfold new_number. respects_auto. Qed.

Local Hint Resolve respects_lift_conv respects_new_number : respects.

Lemma respects_stringify fuel v : respects (stringify fuel v).
Proof. unfold stringify. respects_auto. Qed.

Lemma respects_py_arith op a b : respects (py_arith op a b).
Proof. unfold py_arith. respects_auto. Qed.

Lemma respects_compare_values c a b : respects (compare_values c a b).
Proof. unfold compare_values. respects_auto. Qed.

Local Hint Resolve respects_is_truthy respects_is_equal respects_stringify
  respects_py_arith respects_compare_values respects_Function_bind
  respects_LoxInstance_get respects_assign_variable respects_lookup_variable
  respects_Environment_get : respects.

Lemma respects_binary_operation fuel op a b : respects (binary_operation fuel op a b).
Proof.
  unfold binary_operation, check_number_operands. destruct op; respects_auto.
Qed.

Lemma respects_unary_operation op v : respects (unary_operation op v).
Proof. unfold unary_operation, check_number_operand. respects_auto. Qed.

Lemma respects_builtin_call f args : respects (builtin_call f args).
Proof. unfold builtin_call. destruct f; respects_auto. Qed.

Lemma respects_index_get obj idx : respects (index_get obj idx).
Proof. unfold index_get. respects_auto. Qed.

Lemma respects_index_set obj idx v : respects (index_set obj idx v).
Proof. unfold index_set. respects_auto. Qed.

Lemma respects_get_property obj name : respects (get_property obj name).
Proof. unfold get_property, py_len. respects_auto. Qed.

Lemma respects_set_property obj name v : respects (set_property obj name v).
Proof. unfold set_property. respects_auto. Qed.

Local Hint Resolve respects_binary_operation respects_unary_operation
  respects_builtin_call respects_index_get respects_index_set
  respects_get_property respects_set_property : respects.

Lemma respects_catch_return (m : M unit) : respects m -> respects (catch_return m).
Proof.
  intros Hm st. unfold catch_return. specialize (Hm st).
  now destruct (m st) as [[[] | [msg | v | e] | a] st1].
Qed.

Lemma respects_get_class name : respects (get_class name).
Proof.
  intros st. unfold get_class.
  pose proof (respects_Environment_get (environment st) name st) as Hg.
  now destruct (Environment_get (environment st) name st) as [[v | e | a] st1].
Qed.

Section RespectsVisitors.
Variable evaluate_ : expr -> M value.
Variable execute_ : stmt -> M unit.
Variable fuel : nat.
Hypothesis respects_evaluate : forall e, respects (evaluate_ e).
Hypothesis respects_execute : forall s, respects (execute_ s).

Lemma respects_execute_block statements env :
  respects (execute_block execute_ statements env).
Proof.
  intros st. rewrite execute_block_runs. cbn [snd].
  apply (R_scope st env). now apply respects_iterM.
Qed.

Lemma respects_foreach_iteration variable body v :
  respects (foreach_iteration execute_ variable body v).
Proof.
  intros st. unfold foreach_iteration, bind at 1. unfold get_state.
  unfold bind at 1.
  pose proof (respects_Environment_new (Some (environment st)) st) as Hnew.
  destruct (Environment_new (Some (environment st)) st) as [[env | e | a] st1] eqn:Enew;
    simpl in Hnew; try exact Hnew.
  assert (environment st1 = environment st) as Henv1.
  { change st1 with (snd (Normal env, st1)). rewrite <- Enew. reflexivity. }
  unfold bind at 1.
  pose proof (respects_Environment_define env variable v st1) as Hdef.
  pose proof (Environment_define_environment env variable v st1) as Henv2.
  destruct (Environment_define env variable v st1) as [[[] | e | a] st2];
    simpl in Hdef, Henv2; try (eapply R_trans; [exact Hnew | exact Hdef]).
  eapply R_trans; [exact Hnew |]. eapply R_trans; [exact Hdef |].
  unfold finally_restore, bind, modify.
  destruct (execute_ body (set_environment env st2)) as [r st3] eqn:Ebody. simpl.
  assert (R (set_environment env st2) st3) as Hbody.
  { change st3 with (snd (r, st3)). rewrite <- Ebody. apply respects_execute. }
  rewrite <- Henv1, <- Henv2. now apply (R_scope st2 env).
Qed.

Lemma respects_while_loop k condition body :
  respects (while_loop evaluate_ execute_ k condition body).
Proof. induction k as [| k IH]; simpl; respects_auto. Qed.

Lemma respects_bind_parameters env params arguments :
  respects (bind_parameters env params arguments).
Proof.
  revert arguments. induction params as [| p ps IH]; intros [| a rest]; simpl;
    respects_auto.
Qed.

Lemma respects_dictionary_entries keys vals result :
  respects (dictionary_entries evaluate_ keys vals result).
Proof.
  revert vals result. induction keys as [| k ks IH]; intros vals result; simpl;
    respects_auto.
Qed.

Lemma respects_foreach_list k variable body l i :
  respects (foreach_list execute_ k variable body l i).
Proof.
  revert i. induction k as [| k IH]; intros i; simpl; respects_auto.
  apply respects_foreach_iteration.
Qed.

Lemma respects_collect_methods env decls methods :
  respects (collect_methods env decls methods).
Proof.
  revert methods. induction decls as [| d rest IH]; intros methods; simpl; respects_auto.
Qed.

Local Hint Resolve respects_execute_block respects_foreach_iteration
  respects_while_loop respects_bind_parameters respects_dictionary_entries
  respects_foreach_list respects_collect_methods respects_catch_return
  respects_get_class respects_mapM respects_iterM : respects.

Lemma respects_Function_call f arguments :
  respects (Function_call execute_ f arguments).
Proof. unfold Function_call. respects_auto. Qed.

Lemma respects_LoxClass_call k arguments :
  respects (LoxClass_call execute_ k arguments).
Proof.
  unfold LoxClass_call. respects_auto. apply respects_Function_call.
Qed.

Lemma respects_call_method callee arguments :
  respects (call_method execute_ callee arguments).
Proof.
  unfold call_method, BuiltinFunction_call.
  destruct callee; auto using respects_Function_call, respects_LoxClass_call with respects.
Qed.

Local Hint Resolve respects_call_method : respects.

Lemma respects_expr_accept e : respects (expr_accept evaluate_ execute_ fuel e).
Proof.
  destruct e; simpl;
    unfold visit_binary_expr, visit_grouping_expr, visit_literal_expr, visit_unary_expr,
      visit_variable_expr, visit_assign_expr, visit_call_expr, visit_get_expr,
      visit_set_expr, visit_list_expr, visit_index_expr, visit_index_assign_expr,
      visit_dictionary_expr, visit_logical_expr, visit_this_expr, visit_super_expr,
      visit_new_expr, arity_method, Interpreter_locals_get, Environment_get_at;
    respects_auto.
Qed.

Lemma respects_stmt_accept s : respects (stmt_accept evaluate_ execute_ fuel s).
Proof.
  destruct s; simpl;
    unfold visit_expression_stmt, visit_print_stmt, visit_input_stmt, visit_block_stmt,
      visit_if_stmt, visit_while_stmt, visit_function_stmt, visit_return_stmt,
      visit_foreach_stmt, visit_class_stmt;
    respects_auto.
Qed.

End RespectsVisitors.

Lemma respects_evaluate_execute fuel :
  (forall e, respects (evaluate fuel e)) /\ (forall s, respects (execute fuel s)).
Proof.
  induction fuel as [| n [IHe IHs]].
  - split; intros; apply respects_abort.
  - split; intros.
    + rewrite evaluate_S. now apply respects_expr_accept.
    + rewrite execute_S. now apply respects_stmt_accept.
Qed.

Lemma respects_execute_all fuel statements : respects (execute_all fuel statements).
Proof.
  induction statements as [| [s |] rest IH]; simpl; [apply respects_ret | | exact IH].
  apply respects_bind; [apply respects_evaluate_execute | intros _; exact IH].
Qed.

Lemma respects_interpret fuel statements : respects (interpret fuel statements).
Proof.
  intros st. unfold interpret.
  pose proof (respects_execute_all fuel statements st) as Hall.
  destruct (execute_all fuel statements st) as [[[] | [msg | v | e] | a] st1];
    simpl in *; try exact Hall.
  eapply R_trans; [exact Hall | apply R_write].
Qed.

End Invariant.
Set Default Proof Using "Type".

Lemma string_app_assoc (a b c : string) : (a ++ b) ++ c = a ++ (b ++ c).
Proof.
  induction a as [| x a IH]; [reflexivity |].
  change (String x ((a ++ b) ++ c) = String x (a ++ (b ++ c))). now f_equal.
Qed.

Lemma string_app_empty (a : string) : a ++ "" = a.
Proof.
  induction a as [| x a IH]; [reflexivity |].
  change (String x (a ++ "") = String x a). now f_equal.
Qed.

(** The two registers of the interpreter *)
Definition same_registers (st st' : state) : Prop :=
  environment st' = environment st /\ globals st' = globals st.

(** Output is only added at the end, input only taken from the front *)
Definition io_extends (st st' : state) : Prop :=
  (exists written, stdout st' = stdout st ++ written) /\
  (exists consumed, stdin st = (consumed ++ stdin st')%list).

(** X1.  Every expression and every statement, whatever its outcome, leaves
    [self.environment] and [self.globals] as it found them: the scopes
    entered by blocks, loop iterations and calls are all left again. *)
Theorem evaluation_keeps_the_registers fuel :
  (forall e st, same_registers st (snd (evaluate fuel e st))) /\
  (forall s st, same_registers st (snd (execute fuel s st))) /\
  (forall statements st, same_registers st (snd (interpret fuel statements st))).
Proof.
  pose (R := same_registers).
  assert (Hrefl : forall st, R st st) by (intros st; split; reflexivity).
  assert (Htrans : forall a b c, R a b -> R b c -> R a c).
  { intros a b c [H1 H2] [H3 H4]. split; congruence. }
  assert (Hscope : forall st env st',
             R (set_environment env st) st' -> R st (set_environment (environment st) st')).
  { intros st env st' [_ Hg]. split; [reflexivity | exact Hg]. }
  split; [| split].
  - intros e st. apply (respects_evaluate_execute R); try assumption;
      intros; split; reflexivity.
  - intros s st. apply (respects_evaluate_execute R); try assumption;
      intros; split; reflexivity.
  - intros statements st. apply (respects_interpret R); try assumption;
      intros; split; reflexivity.
Qed.

(** X2.  Whatever is run, the text already written stays at the front of the
    output, and the input still to be read is a tail of what it was. *)
Theorem evaluation_only_appends_output fuel :
  (forall e st, io_extends st (snd (evaluate fuel e st))) /\
  (forall s st, io_extends st (snd (execute fuel s st))) /\
  (forall statements st, io_extends st (snd (interpret fuel statements st))).
Proof.
  pose (R := io_extends).
  assert (Hrefl : forall st, R st st).
  { intros st. split; [exists ""; now rewrite string_app_empty | now exists []]. }
  assert (Htrans : forall a b c, R a b -> R b c -> R a c).
  { intros a b c [[w1 H1] [c1 H2]] [[w2 H3] [c2 H4]]. split.
    - exists (w1 ++ w2). now rewrite H3, H1, string_app_assoc.
    - exists (c1 ++ c2)%list. now rewrite H2, H4, app_assoc. }
  assert (Hkeep : forall st st', stdout st' = stdout st -> stdin st' = stdin st -> R st st').
  { intros st st' Ho Hi. split; [exists ""; now rewrite string_app_empty |].
    exists []. now rewrite Hi. }
  assert (Hwrite : forall text st, R st (write_stdout text st)).
  { intros text st. split; [now exists text | now exists []]. }
  assert (Hread : forall line rest st, stdin st = line :: rest -> R st (set_stdin rest st)).
  { intros line rest st Hin. split; [exists ""; simpl; now rewrite string_app_empty |].
    exists [line]. now rewrite Hin. }
  assert (Hscope : forall st env st',
             R (set_environment env st) st' -> R st (set_environment (environment st) st')).
  { intros st env st' HR. exact HR. }
  split; [| split].
  - intros e st. apply (respects_evaluate_execute R); try assumption;
      intros; now apply Hkeep.
  - intros s st. apply (respects_evaluate_execute R); try assumption;
      intros; now apply Hkeep.
  - intros statements st. apply (respects_interpret R); try assumption;
      intros; now apply Hkeep.
Qed.

(** ** Environments *)

Lemma lookup_variable_from_is_get fuel env name st :
  lookup_variable_from fuel (Some env) name st = Environment_get_from fuel env name st.
Proof.
  revert env. induction fuel as [| n IH]; intros env; simpl; [reflexivity |].
  unfold bind, read_env. destruct (envs st !! env) as [e |]; [| reflexivity].
  destruct (values e !! name); [reflexivity |].
  destruct (enclosing e) as [parent |]; [apply IH |]. now destruct n.
Qed.

Lemma Environment_get_from_state fuel env name st :
  snd (Environment_get_from fuel env name st) = st.
Proof.
  revert env. induction fuel as [| n IH]; intros env; simpl; [reflexivity |].
  unfold bind, read_env. destruct (envs st !! env) as [e |]; [| reflexivity].
  destruct (values e !! name); [reflexivity |].
  destruct (enclosing e) as [parent |]; [apply IH | reflexivity].
Qed.

Lemma Environment_get_state env name st : snd (Environment_get env name st) = st.
Proof. unfold Environment_get, bind, get_state. apply Environment_get_from_state. Qed.

Lemma lookup_variable_state name st : snd (lookup_variable name st) = st.
Proof.
  unfold lookup_variable, bind, get_state. rewrite lookup_variable_from_is_get.
  apply Environment_get_from_state.
Qed.

(** X4.  The loop of [Interpreter.lookup_variable] and the recursion of
    [Environment.get] are the same lookup: from the current environment
    they give the same outcome in every state. *)
Theorem lookup_variable_is_Environment_get name st :
  lookup_variable name st = Environment_get (environment st) name st.
Proof.
  unfold lookup_variable, Environment_get, bind, get_state.
  apply lookup_variable_from_is_get.
Qed.

(** The state after [values[name] = v] in the environment [env], whose
    record was [e] *)
Definition defined_in (env : loc) (e : Environment) (name : string) (v : value)
    (st : state) : state :=
  set_envs (fun es =>
    <[env := {| values := <[name := v]> (values e); enclosing := enclosing e |}]> es) st.

Lemma Environment_define_eq env e name v st :
  envs st !! env = Some e ->
  Environment_define env name v st = (Normal tt, defined_in env e name v st).
Proof. intros He. unfold Environment_define, bind, read_env. now rewrite He. Qed.

Lemma defined_in_lookup env e name v st :
  envs st !! env = Some e ->
  envs (defined_in env e name v st) !! env
  = Some {| values := <[name := v]> (values e); enclosing := enclosing e |}.
Proof.
  intros He. cbn. apply list_lookup_insert_eq. now apply lookup_lt_Some in He.
Qed.

Lemma get_from_other_name fuel env e name v st start other :
  envs st !! env = Some e ->
  other <> name ->
  fst (Environment_get_from fuel start other (defined_in env e name v st))
  = fst (Environment_get_from fuel start other st).
Proof.
  intros He Hne. revert start. induction fuel as [| n IH]; intros start; simpl;
    [reflexivity |].
  unfold bind, read_env.
  destruct (decide (start = env)) as [-> | Hse].
  - rewrite (defined_in_lookup _ _ _ _ _ He), He. cbn [values enclosing].
    rewrite lookup_insert_ne by congruence.
    destruct (values e !! other); [reflexivity |].
    destruct (enclosing e) as [parent |]; [apply IH | reflexivity].
  - assert (Hs : envs (defined_in env e name v st) !! start = envs st !! start).
    { cbn. now rewrite list_lookup_insert_ne by congruence. }
    rewrite Hs.
    destruct (envs st !! start) as [e0 |]; [| reflexivity].
    destruct (values e0 !! other); [reflexivity |].
    destruct (enclosing e0) as [parent |]; [apply IH | reflexivity].
Qed.

(** X5.  [Environment.define] then [Environment.get]: the value just defined
    is found in that scope, and the lookup of any other name, from any
    environment, has the outcome it had before. *)
Theorem define_then_get env e name v st :
  envs st !! env = Some e ->
  exists st',
    Environment_define env name v st = (Normal tt, st') /\
    Environment_get env name st' = (Normal v, st') /\
    (forall start other, other <> name ->
       fst (Environment_get start other st') = fst (Environment_get start other st)).
Proof.
  intros He. exists (defined_in env e name v st).
  split; [now apply Environment_define_eq |]. split.
  - unfold Environment_get, bind, get_state.
    assert (Hlen : (0 < length (envs (defined_in env e name v st)))%nat).
    { cbn. rewrite length_insert. apply lookup_lt_Some in He. lia. }
    destruct (length (envs (defined_in env e name v st))) as [| n]; [lia |].
    simpl. unfold bind, read_env. rewrite (defined_in_lookup _ _ _ _ _ He).
    cbn [values]. now rewrite lookup_insert_eq.
  - intros start other Hne. unfold Environment_get, bind, get_state.
    replace (length (envs (defined_in env e name v st))) with (length (envs st))
      by (cbn; now rewrite length_insert).
    now apply get_from_other_name.
Qed.

Lemma assign_in_place fuel env name v st old :
  fst (lookup_variable_from fuel (Some env) name st) = Normal old ->
  exists k e,
    envs st !! k = Some e /\ values e !! name = Some old /\
    assign_variable_from fuel (Some env) name v st = (Normal tt, defined_in k e name v st) /\
    Environment_assign_from fuel env name v st = (Normal tt, defined_in k e name v st) /\
    fst (lookup_variable_from fuel (Some env) name (defined_in k e name v st)) = Normal v.
Proof.
  revert env. induction fuel as [| n IH]; intros env Hl; simpl in *; [discriminate |].
  unfold bind, read_env in *.
  destruct (envs st !! env) as [e0 |] eqn:He0; [| discriminate].
  destruct (values e0 !! name) as [x |] eqn:Hx.
  - injection Hl as ->. exists env, e0.
    rewrite (Environment_define_eq _ _ _ _ _ He0), (defined_in_lookup _ _ _ _ _ He0).
    cbn [values]. now rewrite lookup_insert_eq.
  - destruct (enclosing e0) as [parent |] eqn:Hp; [| destruct n; discriminate].
    destruct (IH parent Hl) as (k & e & Hk & Hname & Has & Hen & Hlook).
    exists k, e. rewrite Has, Hen.
    assert (env <> k) as Hne by (intros ->; congruence).
    assert (Hs : envs (defined_in k e name v st) !! env = envs st !! env).
    { cbn. now rewrite list_lookup_insert_ne by congruence. }
    rewrite Hs, He0, Hx, Hp. auto.
Qed.

(** X6.  Assignment to a name that some scope of the chain defines: the first
    scope that defines it gets the new value, in place.  The assignment
    of the interpreter and [Environment.assign] do the same, the name
    then reads as the new value, and no environment is created. *)
Theorem assignment_overwrites_in_place name v st old :
  fst (lookup_variable name st) = Normal old ->
  exists st',
    assign_variable name v st = (Normal tt, st') /\
    Environment_assign (environment st) name v st = (Normal tt, st') /\
    lookup_variable name st' = (Normal v, st') /\
    length (envs st') = length (envs st) /\
    environment st' = environment st.
Proof.
  intros Hl. unfold lookup_variable, bind, get_state in Hl.
  destruct (assign_in_place _ _ _ v _ _ Hl) as (k & e & Hk & Hname & Has & Hen & Hlook).
  exists (defined_in k e name v st).
  assert (Hlen : length (envs (defined_in k e name v st)) = length (envs st))
    by (cbn; now rewrite length_insert).
  split; [exact Has |]. split; [exact Hen |]. split; [| split; [exact Hlen | reflexivity]].
  pose proof (lookup_variable_state name (defined_in k e name v st)) as Hst.
  unfold lookup_variable, bind, get_state in *. rewrite Hlen.
  cbn [environment defined_in set_envs] in *. rewrite Hlen in Hst.
  destruct (lookup_variable_from (length (envs st)) (Some (environment st)) name
              (defined_in k e name v st)) as [r s] eqn:E.
  simpl in *. now subst.
Qed.

(** ** Instances *)

(** X7.  A field that has been set is what the property reads, without any
    binding, even when the class has a method of that name; the class of
    the instance and its other fields are as before. *)
Theorem field_set_then_get i o name v st :
  instances st !! i = Some o ->
  exists st',
    LoxInstance_set i name v st = (Normal tt, st') /\
    LoxInstance_get i name st' = (Normal v, st') /\
    instances st' !! i
    = Some {| klass := klass o; fields := <[name := v]> (fields o) |} /\
    (forall j, j <> i -> instances st' !! j = instances st !! j).
Proof.
  intros Hi.
  exists (set_instances (fun l =>
            <[i := {| klass := klass o; fields := <[name := v]> (fields o) |}]> l) st).
  assert (Hlt : (i < length (instances st))%nat) by now apply lookup_lt_Some in Hi.
  split; [| split; [| split]].
  - unfold LoxInstance_set, bind, read_instance. now rewrite Hi.
  - unfold LoxInstance_get, bind, read_instance. cbn [instances set_instances].
    rewrite list_lookup_insert_eq by exact Hlt. cbn [fields].
    now rewrite lookup_insert_eq.
  - cbn. now apply list_lookup_insert_eq.
  - intros j Hj. cbn. now rewrite list_lookup_insert_ne by congruence.
Qed.

(** X8.  Every access to a method binds it anew: two accesses in a row return
    two function objects with different identities and different
    closures, each closure holding [this] over the closure of the method;
    the two are not equal for [==]. *)
Theorem method_access_binds_anew i o name method st :
  instances st !! i = Some o ->
  fields o !! name = None ->
  find_method (klass o) name = Some method ->
  exists f1 st1 f2 st2,
    LoxInstance_get i name st = (Normal (VFunction f1), st1) /\
    LoxInstance_get i name st1 = (Normal (VFunction f2), st2) /\
    fid f1 <> fid f2 /\ closure f1 <> closure f2 /\
    declaration f1 = declaration method /\ declaration f2 = declaration method /\
    envs st2 !! closure f1
    = Some {| values := {[ "this" := VInstance i ]}; enclosing := Some (closure method) |} /\
    envs st2 !! closure f2
    = Some {| values := {[ "this" := VInstance i ]}; enclosing := Some (closure method) |} /\
    key_eqb (VFunction f1) (VFunction f2) = false.
Proof.
  intros Hi Hf Hm.
  exists (bound_method method st), (bind_state method (VInstance i) st),
    (bound_method method (bind_state method (VInstance i) st)),
    (bind_state method (VInstance i) (bind_state method (VInstance i) st)).
  assert (Hget : forall s, instances s = instances st ->
            LoxInstance_get i name s
            = (Normal (VFunction (bound_method method s)),
               bind_state method (VInstance i) s)).
  { intros s Hs. unfold LoxInstance_get, bind, read_instance.
    rewrite Hs, Hi, Hf, Hm. now rewrite Function_bind_eq. }
  split; [now apply Hget |]. split; [now apply Hget |].
  split; [cbn; lia |]. split; [cbn; rewrite length_app; simpl; lia |].
  split; [reflexivity |]. split; [reflexivity |]. split; [| split].
  - cbn. rewrite lookup_app_l by (rewrite length_app; simpl; lia). apply lookup_last.
  - apply bind_state_closure.
  - unfold key_eqb. cbn. apply orb_false_iff. split; apply Nat.eqb_neq; lia.
Qed.

(** ** Calls *)

Lemma bind_parameters_too_few env params arguments st :
  (env < length (envs st))%nat ->
  (length arguments < length params)%nat ->
  exists st',
    bind_parameters env params arguments st
    = (Raise (HostError (IndexError "list index out of range")), st') /\
    environment st' = environment st /\ stdout st' = stdout st /\
    instances st' = instances st.
Proof.
  revert arguments st. induction params as [| p ps IH]; intros [| a rest] st Henv Hlen;
    simpl in *; try lia.
  - exists st. auto.
  - destruct (lookup_lt_is_Some_2 _ _ Henv) as [e He].
    unfold bind. rewrite (Environment_define_eq _ _ _ _ _ He).
    destruct (IH rest (defined_in env e p a st)) as (st' & Hb & He' & Ho & Hi).
    + cbn. now rewrite length_insert.
    + lia.
    + exists st'. rewrite Hb. auto.
Qed.

Lemma bind_parameters_surplus env params arguments extra st :
  (length params <= length arguments)%nat ->
  bind_parameters env params (arguments ++ extra)%list st
  = bind_parameters env params arguments st.
Proof.
  revert arguments st. induction params as [| p ps IH]; intros [| a rest] st Hlen;
    simpl in *; try lia; try reflexivity.
  unfold bind. destruct (Environment_define env p a st) as [[[] | e | x] st1];
    try reflexivity.
  apply IH. lia.
Qed.

Lemma Function_call_too_few f arguments st :
  (length arguments < Function_arity f)%nat ->
  exists st', forall execute_,
    Function_call execute_ f arguments st
    = (Raise (HostError (IndexError "list index out of range")), st') /\
    environment st' = environment st /\ stdout st' = stdout st /\
    instances st' = instances st.
Proof.
  intros Hlen.
  destruct (bind_parameters_too_few (length (envs st)) (decl_params (declaration f))
              arguments (snd (Environment_new (Some (closure f)) st)))
    as (st' & Hb & He & Ho & Hi).
  - cbn. rewrite length_app. simpl. lia.
  - exact Hlen.
  - exists st'. intros execute_. unfold Function_call, bind at 1.
    unfold Environment_new at 1.
    unfold Environment_new in Hb. cbn [snd] in Hb.
    rewrite (bind_raise _ _ _ _ _ Hb). auto.
Qed.

(** X9.  A function called with fewer arguments than it has parameters (the
    [new] expression makes such calls, it does not compare the counts)
    raises the host's [IndexError] while the parameters are bound.  The
    body does not run: the outcome and the state do not depend on how
    statements execute, nothing is written and the current environment
    is unchanged. *)
Theorem call_with_too_few_arguments f arguments st :
  (length arguments < Function_arity f)%nat ->
  exists st', forall execute_,
    Function_call execute_ f arguments st
    = (Raise (HostError (IndexError "list index out of range")), st') /\
    environment st' = environment st /\ stdout st' = stdout st.
Proof.
  intros Hlen. destruct (Function_call_too_few f arguments st Hlen) as (st' & Hst').
  exists st'. intros execute_. destruct (Hst' execute_) as (Hc & He & Ho & _). auto.
Qed.

(** X10.  The constructor call of a class whose [init] has more parameters
    than the call has arguments raises the host's [IndexError]: the
    instance is allocated, [init] is bound, and its body does not run. *)
Theorem constructor_with_too_few_arguments k initializer arguments st :
  find_method k "init" = Some initializer ->
  (length arguments < Function_arity initializer)%nat ->
  exists st', forall execute_,
    LoxClass_call execute_ k arguments st
    = (Raise (HostError (IndexError "list index out of range")), st') /\
    environment st' = environment st /\ stdout st' = stdout st /\
    length (instances st') = S (length (instances st)).
Proof.
  intros Hinit Hlen.
  destruct (Function_call_too_few (bound_method initializer (new_instance_state k st))
              arguments
              (bind_state initializer (VInstance (length (instances st)))
                 (new_instance_state k st)) Hlen) as (st' & Hst').
  exists st'. intros execute_. destruct (Hst' execute_) as (Hc & He & Ho & Hi).
  split; [| split; [exact He | split; [exact Ho |]]].
  - unfold LoxClass_call, bind at 1. unfold LoxInstance_new. rewrite Hinit.
    unfold bind at 1. rewrite Function_bind_eq.
    unfold new_instance_state in Hc. now rewrite (bind_raise _ _ _ _ _ Hc).
  - rewrite Hi. cbn. rewrite length_app. simpl. lia.
Qed.

(** X11.  Arguments beyond the parameters of a function are ignored: the call
    is the call with the surplus removed. *)
Theorem surplus_arguments_are_ignored execute_ f arguments extra st :
  (Function_arity f <= length arguments)%nat ->
  Function_call execute_ f (arguments ++ extra)%list st
  = Function_call execute_ f arguments st.
Proof.
  intros Hlen. unfold Function_call, bind at 1 3.
  destruct (Environment_new (Some (closure f)) st) as [[env | e | a] st1]; try reflexivity.
  unfold bind. now rewrite bind_parameters_surplus.
Qed.

(** X13.  A call whose callee is neither a function, a built-in nor a class
    raises the not-callable error, after the arguments have been
    evaluated: the state is the one the arguments leave. *)
Theorem call_of_a_non_callable n callee arguments st function st1 args st2 :
  evaluate n callee st = (Normal function, st1) ->
  mapM_M (evaluate n) arguments st1 = (Normal args, st2) ->
  has_call function = false ->
  evaluate (S n) (Call callee arguments) st
  = (Raise (RuntimeError (NotCallable function)), st2).
Proof.
  intros Hc Ha Hno. rewrite evaluate_S. simpl. unfold visit_call_expr.
  rewrite (bind_normal _ _ _ _ _ Hc), (bind_normal _ _ _ _ _ Ha). now rewrite Hno.
Qed.

(** X14.  A [new] expression whose class name no scope defines raises the
    undefined-class error before any argument is evaluated: the state is
    unchanged. *)
Theorem new_of_an_undefined_class n name arguments st :
  fst (lookup_variable name st) = Raise (RuntimeError (UndefinedVariable name)) ->
  evaluate (S n) (New name arguments) st = (Raise (RuntimeError (UndefinedClass name)), st).
Proof.
  intros Hl. unfold lookup_variable, bind, get_state in Hl.
  rewrite lookup_variable_from_is_get in Hl.
  fold (Environment_get_from (length (envs st)) (environment st) name st) in Hl.
  rewrite evaluate_S. simpl. unfold visit_new_expr, bind at 1. unfold get_class.
  pose proof (Environment_get_state (environment st) name st) as Hst.
  unfold Environment_get, bind, get_state in *.
  destruct (Environment_get_from (length (envs st)) (environment st) name st) as [r s].
  simpl in *. now subst.
Qed.

(** ** Built-in functions *)

Lemma set_lists_same l xs st :
  lists st !! l = Some xs -> set_lists (fun ls => <[l := xs]> ls) st = st.
Proof. intros Hl. destruct st. unfold set_lists. cbn in *. f_equal. now apply list_insert_id. Qed.

Lemma set_lists_twice l xs ys st :
  set_lists (fun ls => <[l := ys]> ls) (set_lists (fun ls => <[l := xs]> ls) st)
  = set_lists (fun ls => <[l := ys]> ls) st.
Proof. unfold set_lists. cbn. f_equal. apply list_insert_insert_eq. Qed.

(** X15.  [append(xs, v)] returns the list itself with [v] added at the end and
    one more item for [length]; [pop(xs)] right after returns [v] and
    leaves the state that was there before the two calls. *)
Theorem append_then_pop l xs v st :
  lists st !! l = Some xs ->
  exists st1,
    builtin_call fn_append [VList l; v] st = (Normal (VList l), st1) /\
    lists st1 !! l = Some (xs ++ [v])%list /\
    builtin_call fn_length [VList l] st1
    = (Normal (VInt (Z.of_nat (S (length xs)))), st1) /\
    builtin_call fn_pop [VList l] st1 = (Normal v, st).
Proof.
  intros Hl. exists (set_lists (fun ls => <[l := (xs ++ [v])%list]> ls) st).
  assert (Hlt : (l < length (lists st))%nat) by now apply lookup_lt_Some in Hl.
  assert (Hl1 : lists (set_lists (fun ls => <[l := (xs ++ [v])%list]> ls) st) !! l
                = Some (xs ++ [v])%list) by (cbn; now apply list_lookup_insert_eq).
  split; [| split; [exact Hl1 | split]].
  - unfold builtin_call, bind, read_list. now rewrite Hl.
  - unfold builtin_call, bind, read_list. rewrite Hl1.
    rewrite length_app. simpl. now rewrite Nat.add_1_r.
  - unfold builtin_call, bind, read_list. rewrite Hl1, last_snoc.
    unfold write_list, modify. rewrite removelast_last, set_lists_twice.
    now rewrite (set_lists_same _ _ _ Hl).
Qed.

(** X16.  On a list that is not empty the global [pop] and the [pop] obtained
    by property access do the same: both return the last item and remove
    it. *)
Theorem pops_agree_on_a_non_empty_list l xs st :
  lists st !! l = Some xs ->
  xs <> [] ->
  exists x,
    last xs = Some x /\
    builtin_call fn_pop [VList l] st
    = (Normal x, set_lists (fun ls => <[l := removelast xs]> ls) st) /\
    builtin_call (fn_list_pop l) [] st
    = (Normal x, set_lists (fun ls => <[l := removelast xs]> ls) st).
Proof.
  intros Hl Hne. destruct (last xs) as [x |] eqn:Hlast.
  - exists x. split; [reflexivity |].
    split; unfold builtin_call, bind, read_list; now rewrite Hl, Hlast.
  - apply last_None in Hlast. contradiction.
Qed.

(** X17.  The global [append] and the [append] obtained by property access
    leave the same state, with the item added at the end of the list; the
    first returns the list, the second returns [None]. *)
Theorem appends_agree_on_the_list l xs v st :
  lists st !! l = Some xs ->
  builtin_call fn_append [VList l; v] st
  = (Normal (VList l), set_lists (fun ls => <[l := (xs ++ [v])%list]> ls) st) /\
  builtin_call (fn_list_append l) [v] st
  = (Normal VNil, set_lists (fun ls => <[l := (xs ++ [v])%list]> ls) st).
Proof.
  intros Hl. split; unfold builtin_call, bind, read_list; now rewrite Hl.
Qed.

(** [isinstance(v, (list, dict, str))] *)
Definition has_length (v : value) : bool :=
  match v with
  | VList _ | VDict _ | VStr _ => true
  | _ => false
  end.

(** X18.  On a list, a dictionary or a string, the built-in [length(v)] and the
    property [v.length] are the same computation. *)
Theorem length_builtin_is_length_property v st :
  has_length v = true ->
  builtin_call fn_length [v] st = get_property v "length" st.
Proof.
  intros Hv. destruct v; try discriminate; unfold builtin_call, get_property, py_len, bind.
  - reflexivity.
  - simpl. unfold read_list. now destruct (lists st !! l).
  - unfold read_dict. now destruct (dicts st !! l).
Qed.

(** ** Indexing round trips *)

(** X19.  [xs[i] = v] followed by [xs[i]]: the item reads as [v], the list
    keeps its length, and every other item is as before. *)
Theorem list_item_assignment_round_trip l xs idx i v st :
  lists st !! l = Some xs ->
  as_int idx = Some i ->
  0 <= i < Z.of_nat (length xs) ->
  exists st',
    index_set (VList l) idx v st = (Normal v, st') /\
    index_get (VList l) idx st' = (Normal v, st') /\
    lists st' !! l = Some (<[Z.to_nat i := v]> xs) /\
    length (<[Z.to_nat i := v]> xs) = length xs /\
    (forall j, j <> Z.to_nat i -> (<[Z.to_nat i := v]> xs) !! j = xs !! j).
Proof.
  intros Hl Hi Hrange.
  exists (set_lists (fun ls => <[l := <[Z.to_nat i := v]> xs]> ls) st).
  assert (Hlt : (l < length (lists st))%nat) by now apply lookup_lt_Some in Hl.
  assert (Hl1 : lists (set_lists (fun ls => <[l := <[Z.to_nat i := v]> xs]> ls) st) !! l
                = Some (<[Z.to_nat i := v]> xs)) by (cbn; now apply list_lookup_insert_eq).
  split; [| split; [| split; [exact Hl1 | split]]].
  - unfold index_set, bind, get_state, read_list.
    now rewrite Hl, Hi, (in_range_test _ _ Hrange).
  - unfold index_get, bind, get_state, read_list. rewrite Hl1, Hi, length_insert.
    rewrite (in_range_test _ _ Hrange), list_lookup_insert_eq by lia. reflexivity.
  - apply length_insert.
  - intros j Hj. now apply list_lookup_insert_ne.
Qed.

(** A key whose comparison does not involve the host: every hashable
    value except a float. *)
Definition plain_key (k : value) : bool :=
  match k with
  | VFloat _ _ | VList _ | VDict _ => false
  | _ => true
  end.

Lemma plain_key_eqb k : plain_key k = true -> key_eqb k k = true.
Proof.
  intros Hk. unfold key_eqb. apply orb_true_iff.
  destruct k; try discriminate; cbn;
    try (left; first [apply Nat.eqb_refl | apply Bool.eqb_reflx | reflexivity]).
  - right. unfold num_eqb, num_compare. now rewrite Z.compare_refl.
  - right. apply String.eqb_refl.
Qed.

Lemma dict_lookup_store k v d : key_eqb k k = true -> dict_lookup k (dict_store k v d) = Some v.
Proof.
  intros Hk. induction d as [| [k' x] d IH]; simpl.
  - now rewrite Hk.
  - destruct (key_eqb k' k) eqn:Hk'; simpl; now rewrite Hk'.
Qed.

(** A float object is found again under itself, also when the host does
    not find its value equal to itself. *)
Lemma float_key_is_found i f v d :
  dict_lookup (VFloat i f) (dict_store (VFloat i f) v d) = Some v.
Proof.
  apply dict_lookup_store. unfold key_eqb. cbn [is_same].
  destruct i; cbn; now rewrite Nat.eqb_refl.
Qed.

(** X20.  [d[k] = v] followed by [d[k]] reads [v], for every key that is
    neither a float, a list nor a dictionary. *)
Theorem dictionary_assignment_round_trip l d k v st :
  dicts st !! l = Some d ->
  plain_key k = true ->
  exists st',
    index_set (VDict l) k v st = (Normal v, st') /\
    index_get (VDict l) k st' = (Normal v, st') /\
    dicts st' !! l = Some (dict_store k v d).
Proof.
  intros Hd Hk.
  exists (set_dicts (fun ds => <[l := dict_store k v d]> ds) st).
  assert (Hlt : (l < length (dicts st))%nat) by now apply lookup_lt_Some in Hd.
  assert (Hd1 : dicts (set_dicts (fun ds => <[l := dict_store k v d]> ds) st) !! l
                = Some (dict_store k v d)) by (cbn; now apply list_lookup_insert_eq).
  assert (Hhash : is_list_or_dict k = false) by now destruct k.
  split; [| split; [| exact Hd1]].
  - unfold index_set, bind, get_state, read_dict. now rewrite Hd, Hhash.
  - unfold index_get, bind, get_state, read_dict. rewrite Hd1, Hhash.
    now rewrite (dict_lookup_store _ _ _ (plain_key_eqb _ Hk)).
Qed.

(** ** The entry point, continued *)

(** [interpret] never ends with the interpreter's own [RuntimeError]:
    that exception is always turned into a printed report. *)
Theorem interpret_never_raises_runtime_error fuel statements st msg :
  fst (interpret fuel statements st) <> Raise (RuntimeError msg).
Proof.
  unfold interpret.
  destruct (execute_all fuel statements st) as [[[] | [m | v | e] | a] st1];
    simpl; discriminate.
Qed.

Lemma execute_all_skips_None fuel statements st :
  execute_all fuel statements st = execute_all fuel (Some <$> omap id statements) st.
Proof.
  revert st. induction statements as [| [s |] rest IH]; intros st; simpl.
  - reflexivity.
  - unfold bind. destruct (execute fuel s st) as [[[] | e | a] st1]; try reflexivity.
    apply IH.
  - apply IH.
Qed.

(** X22.  The [None] entries of a statement list make no difference: the run
    is the run of the list without them. *)
Theorem interpret_skips_missing_statements fuel statements st :
  interpret fuel statements st = interpret fuel (Some <$> omap id statements) st.
Proof. unfold interpret. now rewrite execute_all_skips_None. Qed.

(** X23.  A [return] reached outside of any call is not caught by [interpret]:
    the run ends with the [ReturnException], nothing is reported and the
    statements after it do not run. *)
Theorem top_level_return_escapes fuel before s rest st st1 v st2 :
  execute_all fuel before st = (Normal tt, st1) ->
  execute fuel s st1 = (Raise (ReturnException v), st2) ->
  interpret fuel (before ++ Some s :: rest)%list st = (Raise (ReturnException v), st2).
Proof.
  intros Hb Hs. unfold interpret.
  now rewrite (execute_all_app _ _ _ _ _ Hb), (execute_all_stops _ _ rest _ _ _ Hs).
Qed.

(** ** Which environments can get new names

    [c] is an environment and [L] a number of environments.  An
    environment below [L] other than [c] is protected: [keeps] says that
    it has exactly the names it had, and that no environment loses a name
    or changes its parent.  A state is at home when its current
    environment is [c] or was created after the first [L]. *)

Section Scoping.
Variables c L : nat.

Definition protected (env : loc) : Prop := (env < L)%nat /\ env <> c.

Definition keeps (st st' : state) : Prop :=
  (length (envs st) <= length (envs st'))%nat /\
  forall env e, envs st !! env = Some e ->
    exists e', envs st' !! env = Some e' /\
               enclosing e' = enclosing e /\
               dom (values e) ⊆ dom (values e') /\
               (protected env -> dom (values e') = dom (values e)).

Definition at_home (st : state) : Prop :=
  (environment st = c \/ (L <= environment st)%nat) /\ (L <= length (envs st))%nat.

Definition local_at {A} (st : state) (m : M A) : Prop :=
  at_home st ->
  keeps st (snd (m st)) /\ environment (snd (m st)) = environment st.

Lemma keeps_refl st : keeps st st.
Proof. split; [lia |]. intros env e He. exists e. auto. Qed.

Lemma keeps_trans a b d : keeps a b -> keeps b d -> keeps a d.
Proof.
  intros [Hl1 H1] [Hl2 H2]. split; [lia |]. intros env e He.
  destruct (H1 env e He) as (e1 & He1 & Hp1 & Hs1 & Hd1).
  destruct (H2 env e1 He1) as (e2 & He2 & Hp2 & Hs2 & Hd2).
  exists e2. split; [exact He2 |]. split; [congruence |].
  split; [now transitivity (dom (values e1)) |].
  intros Hprot. rewrite (Hd2 Hprot). now apply Hd1.
Qed.

Lemma keeps_same_envs st st' : envs st' = envs st -> keeps st st'.
Proof. intros Heq. unfold keeps. rewrite Heq. apply keeps_refl. Qed.

Lemma keeps_left st0 st st' : envs st0 = envs st -> keeps st st' -> keeps st0 st'.
Proof. intros Heq. unfold keeps. now rewrite Heq. Qed.

Lemma keeps_right st st' st1 : envs st1 = envs st' -> keeps st st' -> keeps st st1.
Proof. intros Heq. unfold keeps. now rewrite Heq. Qed.

Lemma at_home_after st st' :
  at_home st -> keeps st st' -> environment st' = environment st -> at_home st'.
Proof. intros [Hc Hl] [Hlen _] Henv. unfold at_home. rewrite Henv. split; [exact Hc | lia]. Qed.

Lemma local_at_same {A} (m : M A) st :
  envs (snd (m st)) = envs st ->
  environment (snd (m st)) = environment st ->
  local_at st m.
Proof. intros He Hc _. split; [now apply keeps_same_envs | exact Hc]. Qed.

Lemma local_at_bind {A B} (m : M A) (k : A -> M B) st :
  local_at st m ->
  (forall a st1, at_home st -> m st = (Normal a, st1) -> at_home st1 ->
                 environment st1 = environment st -> local_at st1 (k a)) ->
  local_at st (bind m k).
Proof.
  intros Hm Hk Hhome. destruct (Hm Hhome) as [Hkeep Henv]. unfold bind.
  destruct (m st) as [[a | e | a] st1] eqn:Em; simpl in *; try (split; assumption).
  assert (at_home st1) as Hhome1 by (eapply at_home_after; eassumption).
  destruct (Hk a st1 Hhome eq_refl Hhome1 Henv Hhome1) as [Hkeep2 Henv2].
  split; [eapply keeps_trans; eassumption | congruence].
Qed.

Lemma local_at_get_state {A} (k : state -> M A) st :
  local_at st (k st) -> local_at st (bind get_state k).
Proof. intros Hk. exact Hk. Qed.

Lemma local_at_ret {A} (a : A) st : local_at st (ret a).
Proof. now apply local_at_same. Qed.

Lemma local_at_raise {A} e st : local_at st (@raise A e).
Proof. now apply local_at_same. Qed.

Lemma local_at_abort {A} a st : local_at st (@abort_with A a).
Proof. now apply local_at_same. Qed.

Lemma local_at_lift_option {A} (o : option A) st : local_at st (lift_option o).
Proof. destruct o; now apply local_at_same. Qed.

Lemma local_at_lift_fuel {A} (o : option A) st : local_at st (lift_fuel o).
Proof. destruct o; now apply local_at_same. Qed.

Lemma local_at_fresh_id st : local_at st fresh_id.
Proof. now apply local_at_same. Qed.

Lemma local_at_read_env env st : local_at st (read_env env).
Proof. apply local_at_same; unfold read_env; now destruct (envs st !! env). Qed.

Lemma local_at_read_list l st : local_at st (read_list l).
Proof. apply local_at_same; unfold read_list; now destruct (lists st !! l). Qed.

Lemma local_at_read_dict l st : local_at st (read_dict l).
Proof. apply local_at_same; unfold read_dict; now destruct (dicts st !! l). Qed.

Lemma local_at_read_instance i st : local_at st (read_instance i).
Proof. apply local_at_same; unfold read_instance; now destruct (instances st !! i). Qed.

Lemma local_at_list_new items st : local_at st (list_new items).
Proof. now apply local_at_same. Qed.

Lemma local_at_write_list l items st : local_at st (write_list l items).
Proof. now apply local_at_same. Qed.

Lemma local_at_dict_new entries st : local_at st (dict_new entries).
Proof. now apply local_at_same. Qed.

Lemma local_at_write_dict l entries st : local_at st (write_dict l entries).
Proof. now apply local_at_same. Qed.

Lemma local_at_LoxInstance_new k st : local_at st (LoxInstance_new k).
Proof. now apply local_at_same. Qed.

Lemma local_at_LoxInstance_set i name v st : local_at st (LoxInstance_set i name v).
Proof.
  apply local_at_same; unfold LoxInstance_set, bind, read_instance;
    now destruct (instances st !! i).
Qed.

Lemma local_at_print text st : local_at st (print text).
Proof. now apply local_at_same. Qed.

Lemma local_at_input prompt st : local_at st (input prompt).
Proof. apply local_at_same; unfold input; now destruct (stdin st). Qed.

Lemma local_at_Environment_get env name st : local_at st (Environment_get env name).
Proof. apply local_at_same; now rewrite Environment_get_state. Qed.

Lemma local_at_lookup_variable name st : local_at st (lookup_variable name).
Proof. apply local_at_same; now rewrite lookup_variable_state. Qed.

Lemma local_at_get_class name st : local_at st (get_class name).
Proof.
  assert (snd (get_class name st) = st) as Heq.
  { unfold get_class. pose proof (Environment_get_state (environment st) name st) as Hs.
    now destruct (Environment_get (environment st) name st) as [[v | e | a] s]. }
  apply local_at_same; now rewrite Heq.
Qed.

(** The state after [Environment(parent)] *)
Lemma keeps_Environment_new parent st :
  keeps st (snd (Environment_new parent st)).
Proof.
  split; [cbn; rewrite length_app; lia |].
  intros env e He. exists e. cbn. rewrite lookup_app_l by now apply lookup_lt_Some in He.
  auto.
Qed.

Lemma local_at_Environment_new parent st : local_at st (Environment_new parent).
Proof. intros _. split; [apply keeps_Environment_new | reflexivity]. Qed.

(** [values[name] = v] in an environment that is not protected, or that
    has the name already *)
Lemma keeps_define env name v st :
  (protected env -> exists e, envs st !! env = Some e /\ is_Some (values e !! name)) ->
  keeps st (snd (Environment_define env name v st)).
Proof.
  intros Hok. unfold Environment_define, bind, read_env.
  destruct (envs st !! env) as [e |] eqn:He; [| apply keeps_refl].
  split; [cbn; now rewrite length_insert |].
  intros env' e' He'. cbn.
  destruct (decide (env' = env)) as [-> | Hne].
  - rewrite list_lookup_insert_eq by now apply lookup_lt_Some in He.
    assert (e' = e) as -> by congruence.
    eexists. split; [reflexivity |]. cbn. split; [reflexivity |].
    rewrite dom_insert_L. split; [apply union_subseteq_r |].
    intros Hprot. destruct (Hok Hprot) as (e0 & He0 & Hsome).
    assert (e0 = e) as -> by congruence.
    apply elem_of_dom in Hsome. now apply subseteq_union_1_L, singleton_subseteq_l.
  - rewrite list_lookup_insert_ne by congruence. exists e'. auto.
Qed.

Lemma local_at_define env name v st :
  (at_home st -> ~ protected env) -> local_at st (Environment_define env name v).
Proof.
  intros Hnot Hhome. split; [| apply Environment_define_environment].
  apply keeps_define. intros Hprot. now destruct (Hnot Hhome).
Qed.

Lemma local_at_define_current name v st :
  local_at st (Environment_define (environment st) name v).
Proof.
  apply local_at_define. intros [[Hc | Hl] _] [Hlt Hne]; [congruence | lia].
Qed.

Lemma local_at_define_fresh env name v st :
  (L <= env)%nat -> local_at st (Environment_define env name v).
Proof. intros Hl. apply local_at_define. intros _ [Hlt _]. lia. Qed.

Lemma local_at_assign_variable_from fuel env name v st :
  local_at st (assign_variable_from fuel env name v).
Proof.
  revert env. induction fuel as [| n IH]; intros [env |]; simpl;
    try (apply local_at_get_state, local_at_define_current);
    try apply local_at_abort.
  apply local_at_bind; [apply local_at_read_env |].
  intros e st1 _ Heq Hhome1 Henv.
  unfold read_env in Heq. destruct (envs st !! env) as [e0 |] eqn:He; [| discriminate].
  injection Heq as -> ->.
  destruct (values e !! name) as [old |] eqn:Hold; [| apply IH].
  intros Hhome. split; [| apply Environment_define_environment].
  apply keeps_define. intros _. exists e. split; [exact He | now rewrite Hold].
Qed.

Lemma local_at_assign_variable name v st : local_at st (assign_variable name v).
Proof. unfold assign_variable. apply local_at_get_state, local_at_assign_variable_from. Qed.

Lemma Environment_new_eq parent st a st1 :
  Environment_new parent st = (Normal a, st1) ->
  a = length (envs st) /\ envs st1 = (envs st ++ [{| values := ∅; enclosing := parent |}])%list.
Proof. unfold Environment_new. intros Heq. now injection Heq as <- <-. Qed.

Lemma local_at_Function_bind f this st : local_at st (Function_bind f this).
Proof.
  unfold Function_bind. apply local_at_bind; [apply local_at_Environment_new |].
  intros env st1 [_ Hlen] Heq _ _. apply Environment_new_eq in Heq as [-> _].
  apply local_at_bind; [now apply local_at_define_fresh |].
  intros _ st2 _ _ _ _.
  apply local_at_bind; [apply local_at_fresh_id | intros; apply local_at_ret].
Qed.

Lemma local_at_LoxInstance_get i name st : local_at st (LoxInstance_get i name).
Proof.
  unfold LoxInstance_get. apply local_at_bind; [apply local_at_read_instance |].
  intros o st1 _ _ _ _. destruct (fields o !! name); [apply local_at_ret |].
  destruct (find_method (klass o) name); [| apply local_at_raise].
  apply local_at_bind; [apply local_at_Function_bind | intros; apply local_at_ret].
Qed.

Create HintDb local discriminated.

Local Hint Resolve local_at_ret local_at_raise local_at_abort local_at_lift_option
  local_at_lift_fuel local_at_fresh_id local_at_read_env local_at_read_list
  local_at_read_dict local_at_read_instance local_at_list_new local_at_write_list
  local_at_dict_new local_at_write_dict local_at_LoxInstance_new
  local_at_LoxInstance_set local_at_print local_at_input local_at_Environment_get
  local_at_lookup_variable local_at_get_class local_at_Environment_new
  local_at_define_current local_at_assign_variable local_at_Function_bind
  local_at_LoxInstance_get : local.

Ltac local_step :=
  first
    [ solve [auto with local]
    | progress cbv beta zeta
    | match goal with
      | |- local_at _ (bind get_state _) => apply local_at_get_state
      | |- local_at _ (bind _ _) => apply local_at_bind; [| intros ? ? ? ? ? ?]
      | |- local_at _ (match ?x with _ => _ end) => destruct x
      end ].

Ltac local_auto := repeat local_step.

Lemma local_at_lift_conv {A} (o : option (py_error + A)) st : local_at st (lift_conv o).
Proof. destruct o as [[e | a] |]; now apply local_at_same. Qed.

Lemma local_at_new_number n st : local_at st (new_number n).
Proof. destruct n; now apply local_at_same. Qed.

Local Hint Resolve local_at_lift_conv local_at_new_number : local.

Lemma local_at_is_truthy v st : local_at st (is_truthy v).
Proof. unfold is_truthy. local_auto. Qed.

Lemma local_at_is_equal fuel a b st : local_at st (is_equal fuel a b).
Proof. unfold is_equal. local_auto. Qed.

Lemma local_at_stringify fuel v st : local_at st (stringify fuel v).
Proof. unfold stringify. local_auto. Qed.

Lemma local_at_py_arith op a b st : local_at st (py_arith op a b).
Proof. unfold py_arith. local_auto. Qed.

Lemma local_at_compare_values cm a b st : local_at st (compare_values cm a b).
Proof. unfold compare_values. local_auto. Qed.

Local Hint Resolve local_at_is_truthy local_at_is_equal local_at_stringify
  local_at_py_arith local_at_compare_values : local.

Lemma local_at_binary_operation fuel op a b st : local_at st (binary_operation fuel op a b).
Proof. unfold binary_operation, check_number_operands. destruct op; local_auto. Qed.

Lemma local_at_unary_operation op v st : local_at st (unary_operation op v).
Proof. unfold unary_operation, check_number_operand. local_auto. Qed.

Lemma local_at_builtin_call f args st : local_at st (builtin_call f args).
Proof. unfold builtin_call. destruct f; local_auto. Qed.

Lemma local_at_index_get obj idx st : local_at st (index_get obj idx).
Proof. unfold index_get. local_auto. Qed.

Lemma local_at_index_set obj idx v st : local_at st (index_set obj idx v).
Proof. unfold index_set. local_auto. Qed.

Lemma local_at_get_property obj name st : local_at st (get_property obj name).
Proof. unfold get_property, py_len. local_auto. Qed.

Lemma local_at_set_property obj name v st : local_at st (set_property obj name v).
Proof. unfold set_property. local_auto. Qed.

Local Hint Resolve local_at_binary_operation local_at_unary_operation
  local_at_builtin_call local_at_index_get local_at_index_set
  local_at_get_property local_at_set_property : local.

(** *** Operations that leave the environments alone *)

Definition quiet {A} (m : M A) : Prop :=
  forall st, envs (snd (m st)) = envs st /\ environment (snd (m st)) = environment st.

Lemma quiet_bind {A B} (m : M A) (k : A -> M B) :
  quiet m -> (forall a, quiet (k a)) -> quiet (bind m k).
Proof.
  intros Hm Hk st. specialize (Hm st). unfold bind.
  destruct (m st) as [[a | e | a] st1]; simpl in *; try exact Hm.
  destruct (Hk a st1) as [He Hc], Hm. split; congruence.
Qed.

Lemma quiet_ret {A} (a : A) : quiet (ret a).
Proof. now intros st. Qed.

Lemma quiet_raise {A} e : quiet (@raise A e).
Proof. now intros st. Qed.

Lemma quiet_read_list l : quiet (read_list l).
Proof. intros st. unfold read_list. now destruct (lists st !! l). Qed.

Lemma quiet_read_dict l : quiet (read_dict l).
Proof. intros st. unfold read_dict. now destruct (dicts st !! l). Qed.

Lemma quiet_write_list l items : quiet (write_list l items).
Proof. now intros st. Qed.

Lemma quiet_builtin_call f args : quiet (builtin_call f args).
Proof.
  unfold builtin_call.
  repeat first
    [ apply quiet_ret | apply quiet_raise | apply quiet_read_list | apply quiet_read_dict
    | apply quiet_write_list
    | apply quiet_bind; [| intros ?]
    | match goal with |- quiet (match ?x with _ => _ end) => destruct x end ].
Qed.

(** *** Operations that may run in any current environment *)

Definition scoped {A} (st : state) (m : M A) : Prop :=
  (L <= length (envs st))%nat ->
  keeps st (snd (m st)) /\ environment (snd (m st)) = environment st.

Lemma scoped_local_at {A} (m : M A) st : scoped st m -> local_at st m.
Proof. intros Hs [_ Hlen]. now apply Hs. Qed.

Lemma quiet_scoped {A} (m : M A) st : quiet m -> scoped st m.
Proof. intros Hq _. destruct (Hq st). split; [now apply keeps_same_envs | assumption]. Qed.

Lemma scoped_bind {A B} (m : M A) (k : A -> M B) st :
  scoped st m ->
  (forall a st1, (L <= length (envs st))%nat -> m st = (Normal a, st1) -> scoped st1 (k a)) ->
  scoped st (bind m k).
Proof.
  intros Hm Hk Hlen. destruct (Hm Hlen) as [Hkeep Henv]. unfold bind.
  destruct (m st) as [[a | e | a] st1] eqn:Em; simpl in *; try (split; assumption).
  destruct (Hk a st1 Hlen eq_refl) as [Hkeep2 Henv2]; [destruct Hkeep; lia |].
  split; [eapply keeps_trans; eassumption | congruence].
Qed.

Lemma scoped_ret {A} (a : A) st : scoped st (ret a).
Proof. apply quiet_scoped, quiet_ret. Qed.

Lemma scoped_raise {A} e st : scoped st (@raise A e).
Proof. apply quiet_scoped, quiet_raise. Qed.

Lemma scoped_Environment_new parent st : scoped st (Environment_new parent).
Proof. intros _. split; [apply keeps_Environment_new | reflexivity]. Qed.

Lemma scoped_define_fresh env name v st :
  (L <= env)%nat -> scoped st (Environment_define env name v).
Proof.
  intros Henv _. split; [| apply Environment_define_environment].
  apply keeps_define. intros [Hlt _]. lia.
Qed.

Lemma scoped_Function_bind f this st : scoped st (Function_bind f this).
Proof.
  unfold Function_bind. apply scoped_bind; [apply scoped_Environment_new |].
  intros env st1 Hlen Heq. apply Environment_new_eq in Heq as [-> _].
  apply scoped_bind; [now apply scoped_define_fresh |].
  intros _ st2 _ _. apply quiet_scoped, quiet_bind; [now intros st3 |].
  intros i. apply quiet_ret.
Qed.

Lemma scoped_bind_parameters env params arguments st :
  (L <= env)%nat -> scoped st (bind_parameters env params arguments).
Proof.
  intros Henv. revert arguments st.
  induction params as [| p ps IH]; intros [| a rest] st; simpl;
    try apply scoped_ret; try apply scoped_raise.
  apply scoped_bind; [now apply scoped_define_fresh | intros; apply IH].
Qed.

Lemma scoped_catch_return (m : M unit) st : scoped st m -> scoped st (catch_return m).
Proof.
  intros Hm Hlen. specialize (Hm Hlen). unfold catch_return.
  now destruct (m st) as [[[] | [msg | v | e] | a] st1].
Qed.

(** A body run in an environment created after the first [L], with the
    current environment put back afterwards *)
Lemma scoped_body (m : M unit) env st :
  (L <= env)%nat -> (forall st1, local_at st1 m) ->
  scoped st (finally_restore (modify (set_environment env) >> m) (environment st)).
Proof.
  intros Henv Hm Hlen. split; [| apply finally_restore_environment].
  unfold finally_restore, bind, modify.
  assert (at_home (set_environment env st)) as Hhome by (split; [right |]; assumption).
  destruct (Hm (set_environment env st) Hhome) as [Hkeep _].
  destruct (m (set_environment env st)) as [r st3]. cbn in *.
  eapply keeps_right; [| eapply keeps_left; [| exact Hkeep]]; reflexivity.
Qed.

(** *** The visitors, for an [evaluate] and an [execute] that are local *)

Section LocalVisitors.
Set Default Proof Using "All".
Variable evaluate_ : expr -> M value.
Variable execute_ : stmt -> M unit.
Variable fuel : nat.
Hypothesis local_evaluate : forall e st, local_at st (evaluate_ e).
Hypothesis local_execute : forall s st, local_at st (execute_ s).

Lemma local_at_mapM {A B} (f : A -> M B) l st :
  (forall a st1, local_at st1 (f a)) -> local_at st (mapM_M f l).
Proof.
  intros Hf. revert st. induction l as [| a l IH]; intros st; simpl; [apply local_at_ret |].
  apply local_at_bind; [apply Hf |]. intros b st1 _ _ _ _.
  apply local_at_bind; [apply IH | intros; apply local_at_ret].
Qed.

Lemma local_at_iterM {A} (f : A -> M unit) l st :
  (forall a st1, local_at st1 (f a)) -> local_at st (iterM f l).
Proof.
  intros Hf. revert st. induction l as [| a l IH]; intros st; simpl; [apply local_at_ret |].
  apply local_at_bind; [apply Hf | intros; apply IH].
Qed.

Lemma scoped_execute_block statements env st :
  (L <= env)%nat -> scoped st (execute_block execute_ statements env).
Proof.
  intros Henv.
  apply (scoped_body (iterM execute_ statements) env st Henv).
  intros st1. now apply local_at_iterM.
Qed.

Lemma scoped_visit_block_stmt statements st :
  scoped st (visit_block_stmt execute_ statements).
Proof.
  unfold visit_block_stmt.
  change (scoped st (let! env := Environment_new (Some (environment st)) in
                     execute_block execute_ statements env)).
  apply scoped_bind; [apply scoped_Environment_new |].
  intros env st1 Hlen Heq. apply Environment_new_eq in Heq as [-> _].
  now apply scoped_execute_block.
Qed.

Lemma scoped_foreach_iteration variable body v st :
  scoped st (foreach_iteration execute_ variable body v).
Proof.
  unfold foreach_iteration.
  change (scoped st
            (let! env := Environment_new (Some (environment st)) in
             Environment_define env variable v >>
             finally_restore (modify (set_environment env) >> execute_ body)
               (environment st))).
  apply scoped_bind; [apply scoped_Environment_new |].
  intros env st1 Hlen Heq.
  assert (environment st1 = environment st) as Hc1.
  { change st1 with (snd (Normal env, st1)). now rewrite <- Heq. }
  apply Environment_new_eq in Heq as [-> _].
  apply scoped_bind; [now apply scoped_define_fresh |].
  intros [] st2 _ Hdef.
  assert (environment st2 = environment st) as Hc2.
  { rewrite <- Hc1. change st2 with (snd (Normal tt, st2)). rewrite <- Hdef.
    apply Environment_define_environment. }
  rewrite <- Hc2. now apply scoped_body.
Qed.

Lemma scoped_Function_call f arguments st :
  scoped st (Function_call execute_ f arguments).
Proof.
  unfold Function_call. apply scoped_bind; [apply scoped_Environment_new |].
  intros env st1 Hlen Heq. apply Environment_new_eq in Heq as [-> _].
  apply scoped_bind; [now apply scoped_bind_parameters |].
  intros _ st2 _ _. now apply scoped_catch_return, scoped_execute_block.
Qed.

Lemma scoped_LoxClass_call k arguments st :
  scoped st (LoxClass_call execute_ k arguments).
Proof.
  unfold LoxClass_call. apply scoped_bind; [now apply quiet_scoped |].
  intros instance st1 _ _. destruct (find_method k "init"); [| apply scoped_ret].
  apply scoped_bind; [apply scoped_Function_bind |]. intros bound st2 _ _.
  apply scoped_bind; [apply scoped_Function_call | intros; apply scoped_ret].
Qed.

Lemma scoped_call_method callee arguments st :
  scoped st (call_method execute_ callee arguments).
Proof.
  unfold call_method, BuiltinFunction_call.
  destruct callee; try apply scoped_raise.
  - apply scoped_Function_call.
  - apply quiet_scoped, quiet_builtin_call.
  - apply scoped_LoxClass_call.
Qed.

Lemma local_at_visit_block_stmt statements st :
  local_at st (visit_block_stmt execute_ statements).
Proof. apply scoped_local_at, scoped_visit_block_stmt. Qed.

Lemma local_at_foreach_iteration variable body v st :
  local_at st (foreach_iteration execute_ variable body v).
Proof. apply scoped_local_at, scoped_foreach_iteration. Qed.

Lemma local_at_call_method callee arguments st :
  local_at st (call_method execute_ callee arguments).
Proof. apply scoped_local_at, scoped_call_method. Qed.

Lemma local_at_while_loop k condition body st :
  local_at st (while_loop evaluate_ execute_ k condition body).
Proof. revert st. induction k as [| k IH]; intros st; simpl; local_auto. Qed.

Lemma local_at_dictionary_entries keys vals result st :
  local_at st (dictionary_entries evaluate_ keys vals result).
Proof.
  revert vals result st. induction keys as [| k ks IH]; intros vals result st; simpl;
    local_auto.
Qed.

Lemma local_at_foreach_list k variable body l i st :
  local_at st (foreach_list execute_ k variable body l i).
Proof.
  revert i st. induction k as [| k IH]; intros i st; simpl; local_auto.
  apply local_at_foreach_iteration.
Qed.

Lemma local_at_collect_methods env decls methods st :
  local_at st (collect_methods env decls methods).
Proof.
  revert methods st. induction decls as [| d rest IH]; intros methods st; simpl; local_auto.
Qed.

Local Hint Resolve local_at_visit_block_stmt local_at_foreach_iteration
  local_at_call_method local_at_while_loop local_at_dictionary_entries
  local_at_foreach_list local_at_collect_methods : local.

Lemma local_at_expr_accept e st : local_at st (expr_accept evaluate_ execute_ fuel e).
Proof.
  destruct e; simpl;
    unfold visit_binary_expr, visit_grouping_expr, visit_literal_expr, visit_unary_expr,
      visit_variable_expr, visit_assign_expr, visit_call_expr, visit_get_expr,
      visit_set_expr, visit_list_expr, visit_index_expr, visit_index_assign_expr,
      visit_dictionary_expr, visit_logical_expr, visit_this_expr, visit_super_expr,
      visit_new_expr, arity_method, Interpreter_locals_get, Environment_get_at;
    local_auto; try (apply local_at_mapM; intros; apply local_evaluate).
Qed.

Lemma local_at_stmt_accept s st : local_at st (stmt_accept evaluate_ execute_ fuel s).
Proof.
  destruct s; simpl;
    unfold visit_expression_stmt, visit_print_stmt, visit_input_stmt,
      visit_if_stmt, visit_while_stmt, visit_function_stmt, visit_return_stmt,
      visit_foreach_stmt, visit_class_stmt;
    local_auto; try (apply local_at_iterM; intros; apply local_at_foreach_iteration);
    (apply local_at_define; intros [[Hc | Hl] _] [Hlt Hne]; [congruence | lia]).
Qed.

End LocalVisitors.
Set Default Proof Using "Type".

Lemma local_at_evaluate_execute fuel :
  (forall e st, local_at st (evaluate fuel e)) /\
  (forall s st, local_at st (execute fuel s)).
Proof.
  induction fuel as [| n [IHe IHs]].
  - split; intros; apply local_at_abort.
  - split; intros.
    + rewrite evaluate_S. now apply local_at_expr_accept.
    + rewrite execute_S. now apply local_at_stmt_accept.
Qed.

End Scoping.

(** The environment [env] of [st] is still there in [st'], with the same
    parent and exactly the same names (their values may differ). *)
Definition same_names (st st' : state) (env : loc) : Prop :=
  forall e, envs st !! env = Some e ->
    exists e', envs st' !! env = Some e' /\
               enclosing e' = enclosing e /\
               dom (values e') = dom (values e).

Lemma keeps_same_names c L st st' env :
  keeps c L st st' -> (env < L)%nat -> env <> c -> same_names st st' env.
Proof.
  intros [_ Hk] Hlt Hne e He. destruct (Hk env e He) as (e' & He' & Hp & _ & Hd).
  exists e'. split; [exact He' |]. split; [exact Hp |]. apply Hd. now split.
Qed.

(** X25.  Whatever an expression or a statement does, and however it ends, the
    only environment of those that exist before it in which it can
    declare a name is the current one: in every other environment an
    assignment can replace the value of a name, and nothing more.  So the
    assignment of an undeclared name inside a function declares a local of
    the call, not a global. *)
Theorem names_are_declared_in_the_current_environment fuel st env :
  env <> environment st ->
  (forall e, same_names st (snd (evaluate fuel e st)) env) /\
  (forall s, same_names st (snd (execute fuel s st)) env).
Proof.
  intros Hne.
  assert (at_home (environment st) (length (envs st)) st) as Hhome
    by (split; [now left | lia]).
  destruct (local_at_evaluate_execute (environment st) (length (envs st)) fuel) as [He Hs].
  split.
  - intros e r Hr. destruct (He e st Hhome) as [Hk _].
    apply (keeps_same_names _ _ _ _ env Hk); [now apply lookup_lt_Some in Hr | exact Hne |].
    exact Hr.
  - intros s r Hr. destruct (Hs s st Hhome) as [Hk _].
    apply (keeps_same_names _ _ _ _ env Hk); [now apply lookup_lt_Some in Hr | exact Hne |].
    exact Hr.
Qed.

(** X26.  A block statement declares no name in any environment that exists
    when it is entered, the current one included: what its statements
    declare goes to the environment of the block. *)
Theorem block_declares_nothing_outside fuel statements st env :
  same_names st (snd (execute fuel (BlockStmt statements) st)) env.
Proof.
  intros e He. destruct fuel as [| n]; [now exists e |].
  rewrite execute_S. cbn [stmt_accept].
  destruct (local_at_evaluate_execute (length (envs st)) (length (envs st)) n) as [_ Hs].
  destruct (scoped_visit_block_stmt (length (envs st)) (length (envs st))
              (evaluate n) (execute n) n (fun e st => proj1 (local_at_evaluate_execute _ _ n) e st)
              Hs statements st) as [Hk _]; [lia |].
  apply lookup_lt_Some in He as Hlt.
  apply (keeps_same_names _ _ _ _ env Hk); [exact Hlt | lia | exact He].
Qed.

(** X27.  A call of a function, of a built-in function or of a class declares
    no name in any environment that exists when the call is made:
    parameters and the names the body declares go to the environment of
    the call, [this] to the environment of the bound initializer. *)
Theorem call_declares_nothing_outside fuel callee arguments st env :
  same_names st (snd (call_method (execute fuel) callee arguments st)) env.
Proof.
  intros e He.
  destruct (local_at_evaluate_execute (length (envs st)) (length (envs st)) fuel) as [Hev Hs].
  destruct (scoped_call_method (length (envs st)) (length (envs st))
              (evaluate fuel) (execute fuel) fuel Hev Hs callee arguments st) as [Hk _]; [lia |].
  apply lookup_lt_Some in He as Hlt.
  apply (keeps_same_names _ _ _ _ env Hk); [exact Hlt | lia | exact He].
Qed.

(** X28.  No environment ever loses a name or changes its parent: whatever is
    run, every environment keeps its [enclosing] and all the names it
    has. *)
Theorem names_are_never_removed fuel st env :
  forall e, envs st !! env = Some e ->
  (forall x, exists e', envs (snd (evaluate fuel x st)) !! env = Some e' /\
                        enclosing e' = enclosing e /\ dom (values e) ⊆ dom (values e')) /\
  (forall s, exists e', envs (snd (execute fuel s st)) !! env = Some e' /\
                        enclosing e' = enclosing e /\ dom (values e) ⊆ dom (values e')).
Proof.
  intros e He.
  assert (at_home (environment st) 0 st) as Hhome by (split; [now left | lia]).
  destruct (local_at_evaluate_execute (environment st) 0 fuel) as [Hev Hs].
  split.
  - intros x. destruct (Hev x st Hhome) as [[_ Hk] _].
    destruct (Hk env e He) as (e' & He' & Hp & Hsub & _). now exists e'.
  - intros s. destruct (Hs s st Hhome) as [[_ Hk] _].
    destruct (Hk env e He) as (e' & He' & Hp & Hsub & _). now exists e'.
Qed.


(** ** Where a [return] can go

    [ReturnException] is raised by the return statement and caught by
    [Function.call]. *)

Definition no_return {A} (m : M A) : Prop :=
  forall st v, fst (m st) <> Raise (ReturnException v).

Lemma no_return_bind {A B} (m : M A) (k : A -> M B) :
  no_return m -> (forall a, no_return (k a)) -> no_return (bind m k).
Proof.
  intros Hm Hk st v. specialize (Hm st v). unfold bind.
  destruct (m st) as [[a | e | a] st1]; simpl in *; [apply Hk | | discriminate].
  intros [= ->]. now apply Hm.
Qed.

Ltac no_return_prim :=
  intros ? ?;
  repeat match goal with
         | |- context [match ?x with _ => _ end] => destruct x
         end;
  simpl; discriminate.

Lemma no_return_ret {A} (a : A) : no_return (ret a).
Proof. no_return_prim. Qed.

Lemma no_return_abort {A} a : no_return (@abort_with A a).
Proof. no_return_prim. Qed.

Lemma no_return_RuntimeError {A} msg : no_return (@raise A (RuntimeError msg)).
Proof. no_return_prim. Qed.

Lemma no_return_HostError {A} e : no_return (@raise A (HostError e)).
Proof. no_return_prim. Qed.

Lemma no_return_get_state : no_return get_state.
Proof. no_return_prim. Qed.

Lemma no_return_modify f : no_return (modify f).
Proof. no_return_prim. Qed.

Lemma no_return_lift_option {A} (o : option A) : no_return (lift_option o).
Proof. unfold lift_option. no_return_prim. Qed.

Lemma no_return_lift_fuel {A} (o : option A) : no_return (lift_fuel o).
Proof. unfold lift_fuel. no_return_prim. Qed.

Lemma no_return_fresh_id : no_return fresh_id.
Proof. no_return_prim. Qed.

Lemma no_return_read_env env : no_return (read_env env).
Proof. unfold read_env. no_return_prim. Qed.

Lemma no_return_read_list l : no_return (read_list l).
Proof. unfold read_list. no_return_prim. Qed.

Lemma no_return_read_dict l : no_return (read_dict l).
Proof. unfold read_dict. no_return_prim. Qed.

Lemma no_return_read_instance i : no_return (read_instance i).
Proof. unfold read_instance. no_return_prim. Qed.

Lemma no_return_list_new items : no_return (list_new items).
Proof. no_return_prim. Qed.

Lemma no_return_dict_new entries : no_return (dict_new entries).
Proof. no_return_prim. Qed.

Lemma no_return_LoxInstance_new k : no_return (LoxInstance_new k).
Proof. no_return_prim. Qed.

Lemma no_return_Environment_new parent : no_return (Environment_new parent).
Proof. no_return_prim. Qed.

Lemma no_return_input prompt : no_return (input prompt).
Proof. unfold input. no_return_prim. Qed.

Lemma no_return_catch_return (m : M unit) : no_return (catch_return m).
Proof. unfold catch_return. no_return_prim. Qed.

Create HintDb no_return discriminated.

#[local] Hint Resolve no_return_ret no_return_abort no_return_RuntimeError
  no_return_HostError no_return_get_state no_return_modify no_return_lift_option
  no_return_lift_fuel no_return_fresh_id no_return_read_env no_return_read_list
  no_return_read_dict no_return_read_instance no_return_list_new no_return_dict_new
  no_return_LoxInstance_new no_return_Environment_new no_return_input
  no_return_catch_return : no_return.

Ltac no_return_step :=
  first
    [ solve [auto with no_return]
    | progress cbv beta zeta
    | match goal with
      | |- no_return (bind _ _) => apply no_return_bind; [| intros ?]
      | |- no_return (match ?x with _ => _ end) => destruct x
      end ].

Ltac no_return_auto := repeat no_return_step.

Lemma no_return_write_list l items : no_return (write_list l items).
Proof. unfold write_list. no_return_auto. Qed.

Lemma no_return_write_dict l entries : no_return (write_dict l entries).
Proof. unfold write_dict. no_return_auto. Qed.

Lemma no_return_print text : no_return (print text).
Proof. unfold print. no_return_auto. Qed.

Lemma no_return_Environment_define env name v : no_return (Environment_define env name v).
Proof. unfold Environment_define. no_return_auto. Qed.

#[local] Hint Resolve no_return_write_list no_return_write_dict no_return_print
  no_return_Environment_define : no_return.

Lemma no_return_lift_conv {A} (o : option (py_error + A)) : no_return (lift_conv o).
Proof. unfold lift_conv. no_return_auto. Qed.

Lemma no_return_new_number n : no_return (new_number n).
Proof. unfold new_number. no_return_auto. Qed.

#[local] Hint Resolve no_return_lift_conv no_return_new_number : no_return.

Lemma no_return_Environment_get env name : no_return (Environment_get env name).
Proof.
  unfold Environment_get. apply no_return_bind; [apply no_return_get_state |]. intros st.
  generalize (length (envs st)) as fuel. intros fuel. revert env.
  induction fuel as [| n IH]; intros env; simpl; no_return_auto.
Qed.

Lemma no_return_lookup_variable name : no_return (lookup_variable name).
Proof.
  unfold lookup_variable. apply no_return_bind; [apply no_return_get_state |]. intros st.
  generalize (length (envs st)) as fuel. generalize (Some (environment st)) as env.
  intros env fuel. revert env.
  induction fuel as [| n IH]; intros [env |]; simpl; no_return_auto.
Qed.

Lemma no_return_assign_variable name v : no_return (assign_variable name v).
Proof.
  unfold assign_variable. apply no_return_bind; [apply no_return_get_state |]. intros st.
  generalize (length (envs st)) as fuel. generalize (Some (environment st)) as env.
  intros env fuel. revert env.
  induction fuel as [| n IH]; intros [env |]; simpl; no_return_auto.
Qed.

Lemma no_return_get_class name : no_return (get_class name).
Proof.
  intros st v. unfold get_class.
  pose proof (no_return_Environment_get (environment st) name st v) as Hg.
  destruct (Environment_get (environment st) name st) as [[x | e | a] st1];
    simpl in *; [discriminate | discriminate | discriminate].
Qed.

Lemma no_return_Function_bind f this : no_return (Function_bind f this).
Proof. unfold Function_bind. no_return_auto. Qed.

#[local] Hint Resolve no_return_Environment_get no_return_lookup_variable
  no_return_assign_variable no_return_get_class no_return_Function_bind : no_return.

Lemma no_return_LoxInstance_get i name : no_return (LoxInstance_get i name).
Proof. unfold LoxInstance_get. no_return_auto. Qed.

Lemma no_return_LoxInstance_set i name v : no_return (LoxInstance_set i name v).
Proof. unfold LoxInstance_set. no_return_auto. Qed.

Lemma no_return_is_truthy v : no_return (is_truthy v).
Proof. unfold is_truthy. no_return_auto. Qed.

Lemma no_return_is_equal fuel a b : no_return (is_equal fuel a b).
Proof. unfold is_equal. no_return_auto. Qed.

Lemma no_return_stringify fuel v : no_return (stringify fuel v).
Proof. unfold stringify. no_return_auto. Qed.

Lemma no_return_py_arith op a b : no_return (py_arith op a b).
Proof. unfold py_arith. no_return_auto. Qed.

Lemma no_return_compare_values cm a b : no_return (compare_values cm a b).
Proof. unfold compare_values. no_return_auto. Qed.

#[local] Hint Resolve no_return_LoxInstance_get no_return_LoxInstance_set
  no_return_is_truthy no_return_is_equal no_return_stringify no_return_py_arith
  no_return_compare_values : no_return.

Lemma no_return_binary_operation fuel op a b : no_return (binary_operation fuel op a b).
Proof. unfold binary_operation, check_number_operands. destruct op; no_return_auto. Qed.

Lemma no_return_unary_operation op v : no_return (unary_operation op v).
Proof. unfold unary_operation, check_number_operand. no_return_auto. Qed.

Lemma no_return_builtin_call f args : no_return (builtin_call f args).
Proof. unfold builtin_call. destruct f; no_return_auto. Qed.

Lemma no_return_index_get obj idx : no_return (index_get obj idx).
Proof. unfold index_get. no_return_auto. Qed.

Lemma no_return_index_set obj idx v : no_return (index_set obj idx v).
Proof. unfold index_set. no_return_auto. Qed.

Lemma no_return_get_property obj name : no_return (get_property obj name).
Proof. unfold get_property, py_len. no_return_auto. Qed.

Lemma no_return_set_property obj name v : no_return (set_property obj name v).
Proof. unfold set_property. no_return_auto. Qed.

Lemma no_return_bind_parameters env params arguments :
  no_return (bind_parameters env params arguments).
Proof.
  revert arguments. induction params as [| p ps IH]; intros [| a rest]; simpl;
    no_return_auto.
Qed.

#[local] Hint Resolve no_return_binary_operation no_return_unary_operation
  no_return_builtin_call no_return_index_get no_return_index_set
  no_return_get_property no_return_set_property no_return_bind_parameters : no_return.

Lemma no_return_Function_call execute_ f arguments :
  no_return (Function_call execute_ f arguments).
Proof. unfold Function_call. no_return_auto. Qed.

Lemma no_return_LoxClass_call execute_ k arguments :
  no_return (LoxClass_call execute_ k arguments).
Proof. unfold LoxClass_call. no_return_auto. apply no_return_Function_call. Qed.

Lemma no_return_call_method execute_ callee arguments :
  no_return (call_method execute_ callee arguments).
Proof.
  unfold call_method, BuiltinFunction_call.
  destruct callee; auto using no_return_Function_call, no_return_LoxClass_call
    with no_return.
Qed.

#[local] Hint Resolve no_return_call_method : no_return.

Lemma no_return_mapM {A B} (f : A -> M B) l :
  (forall a, no_return (f a)) -> no_return (mapM_M f l).
Proof. intros Hf. induction l as [| a l IH]; simpl; no_return_auto. Qed.

Lemma no_return_dictionary_entries evaluate_ keys vals result :
  (forall e, no_return (evaluate_ e)) ->
  no_return (dictionary_entries evaluate_ keys vals result).
Proof.
  intros He. revert vals result.
  induction keys as [| k ks IH]; intros vals result; simpl; no_return_auto.
Qed.

Lemma no_return_expr_accept evaluate_ execute_ fuel e :
  (forall e, no_return (evaluate_ e)) ->
  no_return (expr_accept evaluate_ execute_ fuel e).
Proof.
  intros He.
  destruct e; simpl;
    unfold visit_binary_expr, visit_grouping_expr, visit_literal_expr, visit_unary_expr,
      visit_variable_expr, visit_assign_expr, visit_call_expr, visit_get_expr,
      visit_set_expr, visit_list_expr, visit_index_expr, visit_index_assign_expr,
      visit_dictionary_expr, visit_logical_expr, visit_this_expr, visit_super_expr,
      visit_new_expr, arity_method, Interpreter_locals_get, Environment_get_at;
    no_return_auto;
    try (now apply no_return_mapM); try (now apply no_return_dictionary_entries).
Qed.

(** X24.  A [ReturnException] stops at the nearest call.  No call ends with
    it, whatever the callee, the arguments and the way statements
    execute; therefore no expression ends with it: the evaluation of an
    expression ends normally, with an error, or for lack of fuel. *)
Theorem return_stops_at_the_call fuel :
  (forall execute_ callee arguments st v,
     fst (call_method execute_ callee arguments st) <> Raise (ReturnException v)) /\
  (forall e st v, fst (evaluate fuel e st) <> Raise (ReturnException v)).
Proof.
  split; [intros; apply no_return_call_method |].
  induction fuel as [| n IH]; intros e; [apply no_return_abort |].
  rewrite evaluate_S. now apply no_return_expr_accept.
Qed.


(** ** The environment of a call *)

(** The bindings after the loop of [Function.call] over the parameters,
    started from the bindings [m] *)
Definition bound_values (params : list string) (arguments : list value)
    (m : gmap string value) : gmap string value :=
  foldl (fun m pa => <[pa.1 := pa.2]> m) m (zip params arguments).

Lemma bound_values_other p params arguments m :
  p ∉ params -> bound_values params arguments m !! p = m !! p.
Proof.
  revert arguments m. induction params as [| q ps IH]; intros [| a rest] m Hp;
    try reflexivity.
  apply not_elem_of_cons in Hp as [Hne Hp].
  unfold bound_values in *. simpl. rewrite IH by exact Hp.
  now apply lookup_insert_ne.
Qed.

Lemma bound_values_lookup params arguments m i p a :
  NoDup params -> params !! i = Some p -> arguments !! i = Some a ->
  bound_values params arguments m !! p = Some a.
Proof.
  revert arguments m i. induction params as [| q ps IH]; intros [| b rest] m i Hnd Hp Ha;
    try (destruct i; discriminate).
  apply NoDup_cons in Hnd as [Hq Hnd]. destruct i as [| i]; simpl in *.
  - injection Hp as ->. injection Ha as ->.
    change (bound_values ps rest (<[p := a]> m) !! p = Some a).
    rewrite bound_values_other by exact Hq. apply lookup_insert_eq.
  - now apply (IH rest (<[q := b]> m) i).
Qed.

Lemma bound_values_dom params arguments m :
  (length params <= length arguments)%nat ->
  dom (bound_values params arguments m) = dom m ∪ list_to_set params.
Proof.
  revert arguments m. induction params as [| q ps IH]; intros [| a rest] m Hlen;
    simpl in *; try lia.
  - unfold bound_values. simpl. now rewrite (right_id_L ∅ (∪)).
  - unfold bound_values. simpl. now rewrite (right_id_L ∅ (∪)).
  - change (dom (bound_values ps rest (<[q := a]> m)) = dom m ∪ ({[q]} ∪ list_to_set ps)).
    rewrite IH by lia. rewrite dom_insert_L.
    now rewrite (comm_L (∪) {[q]} (dom m)), (assoc_L (∪)).
Qed.

Lemma set_envs_id e (env : loc) st :
  envs st !! env = Some e ->
  set_envs (fun es => <[env := {| values := values e; enclosing := enclosing e |}]> es) st = st.
Proof.
  intros He. destruct st, e. unfold set_envs. cbn in *. f_equal. now apply list_insert_id.
Qed.

Lemma bind_parameters_eq env e params arguments st :
  envs st !! env = Some e ->
  (length params <= length arguments)%nat ->
  bind_parameters env params arguments st
  = (Normal tt,
     set_envs (fun es =>
       <[env := {| values := bound_values params arguments (values e);
                   enclosing := enclosing e |}]> es) st).
Proof.
  revert arguments e st. induction params as [| p ps IH]; intros [| a rest] e st He Hlen;
    try (simpl in Hlen; lia).
  - change (bound_values [] [] (values e)) with (values e).
    now rewrite (set_envs_id _ _ _ He).
  - change (bound_values [] (a :: rest) (values e)) with (values e).
    now rewrite (set_envs_id _ _ _ He).
  - cbn [bind_parameters]. simpl in Hlen.
    change (bound_values (p :: ps) (a :: rest) (values e))
      with (bound_values ps rest (<[p := a]> (values e))).
    unfold bind. rewrite (Environment_define_eq _ _ _ _ _ He).
    rewrite (IH rest _ _ (defined_in_lookup _ _ _ _ _ He)) by lia.
    f_equal. unfold defined_in, set_envs. cbn. f_equal. apply list_insert_insert_eq.
Qed.

(** X12.  A call with enough arguments runs the body in a new environment,
    added to the store: its parent is the closure of the function (the
    environment of the declaration, not the one of the caller), its names
    are exactly the parameters, and each parameter holds the argument at
    its position.  Nothing else of the state differs when the body
    starts. *)
Theorem call_runs_the_body_in_a_new_scope execute_ f arguments st :
  (Function_arity f <= length arguments)%nat ->
  exists scope,
    enclosing scope = Some (closure f) /\
    dom (values scope) = list_to_set (decl_params (declaration f)) /\
    (NoDup (decl_params (declaration f)) ->
     forall i p a,
       decl_params (declaration f) !! i = Some p -> arguments !! i = Some a ->
       values scope !! p = Some a) /\
    Function_call execute_ f arguments st
    = catch_return (execute_block execute_ (decl_body (declaration f)) (length (envs st)))
        (set_envs (fun es => (es ++ [scope])%list) st).
Proof.
  intros Hlen.
  exists {| values := bound_values (decl_params (declaration f)) arguments ∅;
            enclosing := Some (closure f) |}.
  split; [reflexivity |]. split; [| split].
  - cbn. rewrite bound_values_dom by exact Hlen.
    now rewrite dom_empty_L, (left_id_L ∅ (∪)).
  - intros Hnd i p a Hp Ha. cbn. now apply (bound_values_lookup _ _ _ i).
  - unfold Function_call, bind at 1. unfold Environment_new at 1.
    unfold bind at 1.
    rewrite (bind_parameters_eq (length (envs st))
               {| values := ∅; enclosing := Some (closure f) |});
      [| apply lookup_last | exact Hlen].
    f_equal. unfold set_envs. cbn. f_equal. apply insert_last.
Qed.


(** ** Class declarations *)

Lemma methods_lookup_store m n f ms :
  methods_lookup m (methods_store n f ms)
  = if String.eqb n m then Some f else methods_lookup m ms.
Proof.
  induction ms as [| [n' g] ms IH]; simpl; [reflexivity |].
  destruct (String.eqb n' n) eqn:E1; simpl.
  - apply String.eqb_eq in E1 as ->. now destruct (String.eqb n m).
  - rewrite IH. destruct (String.eqb n' m) eqn:E2; [| reflexivity].
    apply String.eqb_eq in E2 as ->. apply String.eqb_neq in E1.
    destruct (String.eqb n m) eqn:E3; [| reflexivity].
    apply String.eqb_eq in E3. congruence.
Qed.

(** The loop of [visit_class_stmt] over the methods: a name that is not
    declared is left as it was in [methods], and a name that is declared
    holds its last declaration, closed over [env]. *)
Lemma collect_methods_run env decls methods st :
  exists ms,
    collect_methods env decls methods st
    = (Normal ms, set_next_id (next_id st + length decls) st) /\
    (forall m, m ∉ decl_name <$> decls -> methods_lookup m ms = methods_lookup m methods) /\
    (forall i d,
       decls !! i = Some d ->
       (forall j d', (i < j)%nat -> decls !! j = Some d' -> decl_name d' <> decl_name d) ->
       exists f, methods_lookup (decl_name d) ms = Some f /\
                 declaration f = d /\ closure f = env).
Proof.
  revert methods st. induction decls as [| d0 rest IH]; intros methods st.
  - exists methods. split; [| split].
    + simpl. unfold ret. f_equal. destruct st. unfold set_next_id. cbn. f_equal. lia.
    + reflexivity.
    + intros i d Hd. discriminate.
  - simpl. unfold bind at 1. unfold fresh_id at 1.
    destruct (IH (methods_store (decl_name d0)
                    {| fid := next_id st; declaration := d0; closure := env |} methods)
                 (set_next_id (S (next_id st)) st)) as (ms & Hrun & Hother & Hlast).
    exists ms. split; [| split].
    + rewrite Hrun. f_equal. unfold set_next_id. cbn. f_equal. lia.
    + intros m Hm. apply not_elem_of_cons in Hm as [Hne Hm].
      rewrite (Hother m Hm), methods_lookup_store.
      destruct (String.eqb (decl_name d0) m) eqn:E; [| reflexivity].
      apply String.eqb_eq in E. congruence.
    + intros [| i] d Hd Hlater.
      * injection Hd as <-.
        assert (decl_name d0 ∉ decl_name <$> rest) as Hnot.
        { intros Hin. apply list_elem_of_fmap in Hin as (d' & Hname & Hin).
          apply list_elem_of_lookup in Hin as (j & Hj).
          apply (Hlater (S j) d'); [lia | exact Hj | now symmetry]. }
        rewrite (Hother _ Hnot), methods_lookup_store, String.eqb_refl.
        eexists. split; [reflexivity |]. split; reflexivity.
      * apply (Hlast i d Hd). intros j d' Hlt Hj.
        apply (Hlater (S j) d'); [lia | exact Hj].
Qed.

(** X29.  A class declaration without superclass, in a current environment
    that exists: the statement ends normally and leaves the name bound, in
    the current scope, to a class of that name without superclass.
    [find_method] finds nothing for a name that is not declared; for a
    declared name it finds the last declaration of that name, closed over
    the environment of the class statement. *)
Theorem class_declaration_defines_the_class n name decls st e :
  envs st !! environment st = Some e ->
  exists k st',
    execute (S n) (Class name None decls) st = (Normal tt, st') /\
    lookup_variable name st' = (Normal (VClass k), st') /\
    class_name_of k = name /\ class_superclass k = None /\
    (forall m, m ∉ decl_name <$> decls -> find_method k m = None) /\
    (forall i d,
       decls !! i = Some d ->
       (forall j d', (i < j)%nat -> decls !! j = Some d' -> decl_name d' <> decl_name d) ->
       exists f, find_method k (decl_name d) = Some f /\
                 declaration f = d /\ closure f = environment st).
Proof.
  intros He.
  set (st1 := defined_in (environment st) e name VNil st).
  destruct (collect_methods_run (environment st) decls [] st1)
    as (ms & Hrun & Hother & Hlast).
  set (st2 := set_next_id (next_id st1 + length decls) st1) in *.
  set (k := MkLoxClass (next_id st2) name None ms).
  set (e1 := {| values := <[name := VNil]> (values e); enclosing := enclosing e |}).
  assert (envs (set_next_id (S (next_id st2)) st2) !! environment st = Some e1) as He1.
  { apply (defined_in_lookup _ _ _ _ _ He). }
  exists k, (defined_in (environment st) e1 name (VClass k) (set_next_id (S (next_id st2)) st2)).
  split; [| split; [| split; [reflexivity | split; [reflexivity | split]]]].
  - rewrite execute_S. cbn [stmt_accept]. unfold visit_class_stmt, bind at 1, get_state.
    unfold bind at 1. rewrite (Environment_define_eq _ _ _ _ _ He). fold st1.
    unfold bind at 1. unfold ret at 1. unfold bind at 1. rewrite Hrun.
    unfold bind, fresh_id. fold st2. fold k.
    now rewrite (Environment_define_eq _ _ _ _ _ He1).
  - pose proof (defined_in_lookup _ _ name (VClass k) _ He1) as Hk.
    set (st3 := defined_in (environment st) e1 name (VClass k)
                  (set_next_id (S (next_id st2)) st2)) in *.
    assert (environment st3 = environment st) as Henv by reflexivity.
    unfold lookup_variable, bind at 1, get_state. rewrite Henv.
    destruct (length (envs st3)) as [| fuel] eqn:El;
      [apply lookup_lt_Some in Hk; lia |].
    cbn [lookup_variable_from]. unfold bind, read_env. rewrite Hk. cbn [values].
    now rewrite lookup_insert_eq.
  - intros m Hm. cbn. now rewrite (Hother m Hm).
  - intros i d Hd Hlater. destruct (Hlast i d Hd Hlater) as (f & Hf & Hdecl & Hclo).
    exists f. cbn. rewrite Hf. auto.
Qed.


(** ** Booleans as operands *)

(** X30.  The host's [bool] is a subclass of [int], and the operand checks are
    [isinstance] tests: next to a number, a Boolean operand of a binary
    operator (arithmetic, comparison or equality) behaves as the integer
    1 or 0, on either side.  So [true + 1] is 2 and [true < 2] holds,
    where a string operand in the place of the Boolean raises a runtime
    error. *)
Theorem booleans_count_as_integers fuel op b v st :
  is_Some (as_num v) ->
  binary_operation fuel op (VBool b) v st
  = binary_operation fuel op (VInt (if b then 1 else 0)) v st /\
  binary_operation fuel op v (VBool b) st
  = binary_operation fuel op v (VInt (if b then 1 else 0)) st.
Proof.
  intros [n Hn].
  assert (forall x y, as_num x = as_num y -> is_Some (as_num x) ->
            forall w, is_Some (as_num w) ->
            is_equal fuel x w st = is_equal fuel y w st /\
            is_equal fuel w x st = is_equal fuel w y st) as Heq.
  { intros x y Hxy [nx Hx] w [nw Hw].
    assert (forall p q, is_Some (as_num p) -> is_Some (as_num q) ->
              is_equal fuel p q st
              = lift_fuel (match fuel with
                           | O => None
                           | S _ => match as_num p, as_num q with
                                    | Some x, Some y => Some (num_eqb x y)
                                    | _, _ => Some false
                                    end
                           end) st) as Hnum.
    { intros p q [np Hp] [nq Hq]. unfold is_equal, bind, get_state.
      destruct fuel; destruct p; try discriminate; destruct q; try discriminate;
        reflexivity. }
    rewrite !Hnum by (rewrite ?Hxy, ?Hx, ?Hw, <- ?Hxy, ?Hx; eauto).
    now rewrite Hxy. }
  destruct (Heq (VBool b) (VInt (if b then 1 else 0)) eq_refl (ex_intro _ _ eq_refl)
              v (ex_intro _ _ Hn)) as [He1 He2].
  split; destruct op; unfold binary_operation, check_number_operands, compare_values, bind;
    try (rewrite ?He1, ?He2; reflexivity);
    destruct v; try discriminate; reflexivity.
Qed.

End Lang.

Arguments Normal {H A} a.
Arguments Raise {H A} e.
Arguments Abort {H A} a.
Arguments RuntimeError {H} msg.
Arguments ReturnException {H} v.
Arguments HostError {H} e.
Arguments VNil {H}.
Arguments VBool {H} b.
Arguments VInt {H} n.
Arguments VFloat {H} i f.
Arguments VStr {H} s.
Arguments VList {H} l.
Arguments VDict {H} l.
Arguments VFunction {H} f.
Arguments VBuiltin {H} b.
Arguments VClass {H} k.
Arguments VInstance {H} i.

(** * Runs of the sample programs *)

Definition newline : string := String "010"%char "".

(** The interpreter after [function f(a, b) { print a }] *)
Definition after_two_parameters : state integer_host :=
  snd (execute integer_host 3 Sample.two_parameters (Interpreter_new integer_host [])).

Definition function_f : Function integer_host :=
  Build_Function integer_host 3
    (FunDecl "f" ["a"; "b"] [PrintStmt (Sample.var "a")]) 0%nat.

(** The interpreter after the declaration of the class [P], and the
    class *)
Definition after_class_with_init : state integer_host :=
  snd (execute integer_host 3 Sample.class_with_init (Interpreter_new integer_host [])).

Definition init_of_P : Function integer_host :=
  Build_Function integer_host 3
    (FunDecl "init" ["x"]
       [ExpressionStmt (Set_ This "x" (Sample.var "x"));
        ReturnStmt (Some (Sample.num 5))]) 0%nat.

Definition class_P : LoxClass integer_host :=
  MkLoxClass integer_host 4 "P" None [("init", init_of_P)].

(** A state whose only list is empty *)
Definition with_empty_list : state integer_host :=
  snd (list_new integer_host [] (Interpreter_new integer_host [])).

(** C1, on a chain of three classes: the run ends with the host's
    [AttributeError], uncaught, and nothing is printed. *)
Lemma super_chain_run :
  fst (run integer_host 40 Sample.super_chain [])
  = Raise (HostError (AttributeError "'Interpreter' object has no attribute 'locals'")) /\
  stdout _ (snd (run integer_host 40 Sample.super_chain [])) = "".
Proof. split; vm_compute; reflexivity. Qed.

(** C2.  The undefined property of an instance raises the host's
    [RuntimeError], which [interpret] does not catch: the run ends with
    that exception uncaught, after the first [print] and before the
    last. *)
Theorem undefined_property_escapes_interpret :
  fst (run integer_host 40 Sample.undefined_property [])
  = Raise (HostError (BuiltinRuntimeError "Undefined property 'missing'.")) /\
  stdout _ (snd (run integer_host 40 Sample.undefined_property []))
  = "before" ++ newline.
Proof. split; vm_compute; reflexivity. Qed.

(** The undefined variable, whose error is the interpreter's, is caught
    and reported, and the run ends normally without the last [print]. *)
Lemma undefined_variable_is_reported :
  fst (run integer_host 40 Sample.undefined_variable []) = Normal tt /\
  stdout _ (snd (run integer_host 40 Sample.undefined_variable []))
  = "before" ++ newline ++ "Runtime error: Undefined variable 'missing'." ++ newline.
Proof. split; vm_compute; reflexivity. Qed.

(** C3, as stated, fails on a new interpreter: no scope defines [x],
    and [x = 1] evaluates to 1 instead of raising. *)
Lemma assignment_to_undeclared_name_succeeds :
  fst (lookup_variable integer_host "x" (Interpreter_new integer_host []))
  = Raise (RuntimeError (UndefinedVariable "x")) /\
  fst (evaluate integer_host 2 (Assign "x" (Sample.num 1)) (Interpreter_new integer_host []))
  = Normal (VInt 1) /\
  fst (evaluate integer_host 2 (Assign "x" (Sample.num 1)) (Interpreter_new integer_host []))
  <> Raise (RuntimeError (UndefinedVariable "x")).
Proof. split; [| split]; vm_compute; [reflexivity | reflexivity | discriminate]. Qed.

(** C3, witness: [x = 1] on a new interpreter. *)
Lemma assignment_defines_undeclared_name_witness :
  exists st',
    evaluate integer_host 2 (Assign "x" (Sample.num 1)) (Interpreter_new integer_host [])
    = (Normal (VInt 1), st') /\
    fst (lookup_variable integer_host "x" st') = Normal (VInt 1) /\
    Environment_assign integer_host 0%nat "x" (VInt 1) (Interpreter_new integer_host [])
    = (Raise (RuntimeError (UndefinedVariable "x")), Interpreter_new integer_host []).
Proof.
  destruct (assignment_defines_undeclared_name integer_host 1 "x" (Sample.num 1)
              (Interpreter_new integer_host []) (VInt 1) (Interpreter_new integer_host []))
    as (e & He & Hev & Has); [reflexivity | vm_compute; reflexivity |].
  eexists. split; [exact Hev |]. split; [| exact Has].
  vm_compute in He. injection He as <-. vm_compute. reflexivity.
Defined.

(** C4, witness: [f(1)] for the two-parameter [f], and [P(1, 2)] for the
    class [P] whose [init] has one parameter. *)
Lemma call_with_wrong_argument_count_witness :
  evaluate integer_host 3 (Call (Sample.var "f") [Sample.num 1]) after_two_parameters
  = (Raise (RuntimeError (ArityMismatch 2 1)), after_two_parameters) /\
  stdout _ after_two_parameters = "" /\
  evaluate integer_host 3 (Call (Sample.var "P") [Sample.num 1; Sample.num 2])
    after_class_with_init
  = (Raise (HostError (AttributeError "'LoxClass' object has no attribute 'arity'")),
     after_class_with_init).
Proof.
  split; [| split; [reflexivity |]].
  - destruct (call_with_wrong_argument_count integer_host 2 (Sample.var "f") [Sample.num 1]
                after_two_parameters (VFunction function_f) after_two_parameters
                [VInt 1] after_two_parameters) as [Hfunction _];
      [vm_compute; reflexivity | vm_compute; reflexivity |].
    apply (Hfunction function_f eq_refl). vm_compute. lia.
  - destruct (call_with_wrong_argument_count integer_host 2 (Sample.var "P")
                [Sample.num 1; Sample.num 2]
                after_class_with_init (VClass class_P) after_class_with_init
                [VInt 1; VInt 2] after_class_with_init) as (_ & _ & Hclass);
      [vm_compute; reflexivity | vm_compute; reflexivity |].
    apply (Hclass class_P eq_refl).
Defined.

(** C5, on a program: the call of a class ends the run with the host's
    [AttributeError], uncaught. *)
Lemma class_called_run :
  fst (run integer_host 40 Sample.class_called [])
  = Raise (HostError (AttributeError "'LoxClass' object has no attribute 'arity'")).
Proof. vm_compute. reflexivity. Qed.

(** C6, on a program: the two concatenations print [None] and [True],
    the two plain prints [nil] and [true]. *)
Lemma string_plus_run :
  fst (run integer_host 40 Sample.string_plus []) = Normal tt /\
  stdout _ (snd (run integer_host 40 Sample.string_plus []))
  = "v=None" ++ newline ++ "v=True" ++ newline ++ "nil" ++ newline ++ "true" ++ newline.
Proof. split; vm_compute; reflexivity. Qed.

(** The classes [Q], below [P], and [R], below [Q]: neither has a method
    of its own. *)
Definition class_Q : LoxClass integer_host :=
  MkLoxClass integer_host 5 "Q" (Some class_P) [].

Definition class_R : LoxClass integer_host :=
  MkLoxClass integer_host 6 "R" (Some class_Q) [].

(** C7, witness: the constructor of [R] runs the [init] that [R] inherits
    from [P], two levels above it; [init] returns 5, the constructor
    returns the new instance, whose field [x] holds the argument. *)
Lemma constructor_returns_the_new_instance_witness :
  fst (Environment_get integer_host 0%nat "P" after_class_with_init) = Normal (VClass class_P) /\
  fst (Function_call integer_host (execute integer_host 5)
         (bound_method integer_host init_of_P
            (new_instance_state integer_host class_R after_class_with_init))
         [VInt 7]
         (bind_state integer_host init_of_P (VInstance 0%nat)
            (new_instance_state integer_host class_R after_class_with_init)))
  = Normal (VInt 5) /\
  fst (LoxClass_call integer_host (execute integer_host 5) class_R [VInt 7]
         after_class_with_init)
  = Normal (VInstance 0%nat) /\
  (fields _ <$> instances _
     (snd (LoxClass_call integer_host (execute integer_host 5) class_R [VInt 7]
             after_class_with_init)) !! 0%nat)
  = Some {[ "x" := VInt 7 ]}.
Proof.
  split; [vm_compute; reflexivity |]. split; [vm_compute; reflexivity |].
  destruct (constructor_returns_the_new_instance integer_host (execute integer_host 5)
              class_R [VInt 7] after_class_with_init) as (_ & _ & _ & Hinit).
  destruct (Hinit [class_R; class_Q] class_P [] init_of_P eq_refl) as (_ & _ & Hcall);
    [| reflexivity |].
  { intros c Hc. apply elem_of_cons in Hc as [-> | Hc]; [reflexivity |].
    apply elem_of_cons in Hc as [-> | Hc]; [reflexivity |].
    now apply elem_of_nil in Hc. }
  rewrite Hcall. split; vm_compute; reflexivity.
Defined.

(** C7, on a program: [new R(7)] where [init] is two classes up *)
Lemma inherited_init_run :
  fst (run integer_host 40 Sample.inherited_init []) = Normal tt /\
  stdout _ (snd (run integer_host 40 Sample.inherited_init [])) = "7" ++ newline.
Proof. split; vm_compute; reflexivity. Qed.

(** C8, on two blocks: the first unwinds with a return, the second
    raises a runtime error; both leave the global environment current. *)
Lemma blocks_that_unwind :
  fst (execute integer_host 5 Sample.block_with_return (Interpreter_new integer_host []))
  = Raise (ReturnException (VInt 1)) /\
  environment _
    (snd (execute integer_host 5 Sample.block_with_return (Interpreter_new integer_host [])))
  = 0%nat /\
  fst (execute integer_host 5 Sample.block_with_error (Interpreter_new integer_host []))
  = Raise (RuntimeError (UndefinedVariable "missing")) /\
  environment _
    (snd (execute integer_host 5 Sample.block_with_error (Interpreter_new integer_host [])))
  = 0%nat.
Proof. split; [| split; [| split]]; vm_compute; reflexivity. Qed.

(** C9, as stated, fails on [[10, 20][true]]: the index is a Boolean,
    not an integer of the language, and the expression evaluates to 20
    instead of raising the not-an-integer error. *)
Lemma boolean_index_selects_an_item :
  fst (evaluate integer_host 4 Sample.index_by_true (Interpreter_new integer_host []))
  = Normal (VInt 20) /\
  fst (evaluate integer_host 4 Sample.index_by_true (Interpreter_new integer_host []))
  <> Raise (RuntimeError ListIndexNotInteger).
Proof. split; vm_compute; [reflexivity | discriminate]. Qed.

(** C9, witness: [xs[2]] and [xs[2] = 5] on the empty list [xs] are out
    of range. *)
Lemma indexing_follows_the_rules_witness :
  evaluate integer_host 3 (Index (Sample.var "xs") (Sample.num 2))
    (snd (execute integer_host 4 (ExpressionStmt (Assign "xs" (List_ [])))
            (Interpreter_new integer_host [])))
  = (Raise (RuntimeError (ListIndexOutOfRange "2")),
     snd (execute integer_host 4 (ExpressionStmt (Assign "xs" (List_ [])))
            (Interpreter_new integer_host []))) /\
  evaluate integer_host 3 (IndexAssign (Sample.var "xs") (Sample.num 2) (Sample.num 5))
    (snd (execute integer_host 4 (ExpressionStmt (Assign "xs" (List_ [])))
            (Interpreter_new integer_host [])))
  = (Raise (RuntimeError (ListIndexOutOfRange "2")),
     snd (execute integer_host 4 (ExpressionStmt (Assign "xs" (List_ [])))
            (Interpreter_new integer_host []))).
Proof.
  set (st := snd (execute integer_host 4 (ExpressionStmt (Assign "xs" (List_ [])))
                    (Interpreter_new integer_host []))).
  destruct (indexing_follows_the_rules integer_host 2 (Sample.var "xs") (Sample.num 2)
              (Sample.num 5) st (VList 0%nat) st (VInt 2) st (VInt 5) st)
    as (Hget & Hset & _ & _); [vm_compute; reflexivity | reflexivity | reflexivity |].
  destruct Hget as (Hlist & _ & _ & _).
  destruct (Hlist 0%nat [] eq_refl eq_refl) as (_ & Hrange & _).
  destruct Hset as (Hlist' & _ & _).
  destruct (Hlist' 0%nat [] eq_refl eq_refl) as (_ & Hrange' & _).
  split.
  - apply (Hrange 2 eq_refl). right. simpl. lia.
  - apply (Hrange' 2 eq_refl). right. simpl. lia.
Defined.

(** C10, witness: the two [pop]s on a state whose list 0 is empty. *)
Lemma pop_of_an_empty_list_witness :
  lists _ with_empty_list !! 0%nat = Some [] /\
  call_method integer_host (execute integer_host 3)
    (VBuiltin {| bid := 1; arity_count := 1; fn := fn_pop |})
    [VList 0%nat] with_empty_list
  = (Raise (RuntimeError PopExpects), with_empty_list) /\
  exists b st',
    get_property integer_host (VList 0%nat) "pop" with_empty_list = (Normal (VBuiltin b), st') /\
    call_method integer_host (execute integer_host 3) (VBuiltin b) [] st' = (Normal VNil, st').
Proof.
  destruct (pop_of_an_empty_list integer_host (execute integer_host 3) with_empty_list 0%nat)
    as (_ & Hglobal & b & st' & Hget & _ & _ & Hcall); [reflexivity |].
  split; [reflexivity |]. split.
  - apply Hglobal. reflexivity.
  - exists b, st'. split; [exact Hget | exact Hcall].
Defined.

(** C10, on a program: [xs.pop()] prints [nil], [pop(xs)] is reported
    as a runtime error and ends the run. *)
Lemma two_pops_run :
  fst (run integer_host 40 Sample.two_pops []) = Normal tt /\
  stdout _ (snd (run integer_host 40 Sample.two_pops []))
  = "nil" ++ newline ++ "Runtime error: pop expects a non-empty list" ++ newline.
Proof. split; vm_compute; reflexivity. Qed.

(** C4, on the other cases of the two-parameter [f] and on a built-in:
    three arguments, and [append] with one argument.  Nothing is printed
    and no environment is created. *)
Lemma more_wrong_argument_counts :
  evaluate integer_host 3
    (Call (Sample.var "f") [Sample.num 1; Sample.num 2; Sample.num 3]) after_two_parameters
  = (Raise (RuntimeError (ArityMismatch 2 3)), after_two_parameters) /\
  fst (evaluate integer_host 3 (Call (Sample.var "append") [Sample.num 1]) after_two_parameters)
  = Raise (RuntimeError (ArityMismatch 2 1)) /\
  ArityMismatch 2 3 = "Expected 2 arguments but got 3.".
Proof. split; [| split]; vm_compute; reflexivity. Qed.

(** C9, on further expressions: an absent key of a dictionary, an index
    assignment into a string, and a list used as the key of a dictionary,
    where the host's [TypeError] is raised. *)
Lemma more_indexing_runs :
  fst (evaluate integer_host 4
         (Index (Dictionary [Sample.str "a"] [Sample.num 1]) (Sample.str "b"))
         (Interpreter_new integer_host []))
  = Raise (RuntimeError (KeyNotFound "b")) /\
  fst (evaluate integer_host 4
         (IndexAssign (Sample.str "abc") (Sample.num 0) (Sample.str "x"))
         (Interpreter_new integer_host []))
  = Raise (RuntimeError "Cannot assign to index of type str") /\
  fst (evaluate integer_host 4
         (Index (Dictionary [Sample.str "a"] [Sample.num 1]) (List_ [Sample.num 1]))
         (Interpreter_new integer_host []))
  = Raise (HostError (TypeError "unhashable type: 'list'")).
Proof. split; [| split]; vm_compute; reflexivity. Qed.

(** * The further properties, on concrete states *)

(** The global environment of a new interpreter *)
Definition global_scope : Environment integer_host :=
  default {| values := ∅; enclosing := None |}
    (envs _ (Interpreter_new integer_host []) !! 0%nat).

(** A new interpreter with the list [[1, 2]], and one with an empty
    dictionary *)
Definition with_two_items : state integer_host :=
  snd (list_new integer_host [VInt 1; VInt 2] (Interpreter_new integer_host [])).

Definition with_empty_dict : state integer_host :=
  snd (dict_new integer_host [] (Interpreter_new integer_host [])).

(** The interpreter after the declaration of [P] and the allocation of
    an instance of it *)
Definition with_instance_of_P : state integer_host :=
  new_instance_state integer_host class_P after_class_with_init.

(** A new interpreter inside a block: environment 1, whose parent is the
    global environment, is current. *)
Definition inside_a_block : state integer_host :=
  enter_block integer_host (Interpreter_new integer_host []).

(** X5, witness, on the global environment of a new interpreter *)
Lemma define_then_get_witness :
  exists st',
    Environment_define integer_host 0%nat "x" (VInt 1) (Interpreter_new integer_host [])
    = (Normal tt, st') /\
    Environment_get integer_host 0%nat "x" st' = (Normal (VInt 1), st').
Proof.
  destruct (define_then_get integer_host 0%nat global_scope "x" (VInt 1)
              (Interpreter_new integer_host [])) as (st' & Hd & Hg & _);
    [vm_compute; reflexivity |].
  exists st'. split; assumption.
Defined.

(** X6, witness: [f = 2] after the declaration of
    the function [f] *)
Lemma assignment_overwrites_in_place_witness :
  exists st',
    assign_variable integer_host "f" (VInt 2) after_two_parameters = (Normal tt, st') /\
    lookup_variable integer_host "f" st' = (Normal (VInt 2), st').
Proof.
  destruct (assignment_overwrites_in_place integer_host "f" (VInt 2) after_two_parameters
              (VFunction function_f)) as (st' & Ha & _ & Hl & _);
    [vm_compute; reflexivity |].
  exists st'. split; assumption.
Defined.

(** X7, witness: the field [init] of an instance of [P], whose
    class has a method of that name *)
Lemma field_set_then_get_witness :
  exists st',
    LoxInstance_set integer_host 0%nat "init" (VInt 1) with_instance_of_P = (Normal tt, st') /\
    LoxInstance_get integer_host 0%nat "init" st' = (Normal (VInt 1), st').
Proof.
  destruct (field_set_then_get integer_host 0%nat {| klass := class_P; fields := ∅ |}
              "init" (VInt 1) with_instance_of_P) as (st' & Hs & Hg & _);
    [vm_compute; reflexivity |].
  exists st'. split; assumption.
Defined.

(** X8, witness: [init] read twice from an instance of
    [P] *)
Lemma method_access_binds_anew_witness :
  exists f1 st1 f2 st2,
    LoxInstance_get integer_host 0%nat "init" with_instance_of_P
    = (Normal (VFunction f1), st1) /\
    LoxInstance_get integer_host 0%nat "init" st1 = (Normal (VFunction f2), st2) /\
    fid _ f1 <> fid _ f2.
Proof.
  destruct (method_access_binds_anew integer_host 0%nat {| klass := class_P; fields := ∅ |}
              "init" init_of_P with_instance_of_P)
    as (f1 & st1 & f2 & st2 & H1 & H2 & Hne & _);
    [vm_compute; reflexivity | reflexivity | reflexivity |].
  exists f1, st1, f2, st2. split; [exact H1 | split; [exact H2 | exact Hne]].
Defined.

(** X9, witness: the two-parameter [f] with one
    argument *)
Lemma call_with_too_few_arguments_witness :
  exists st',
    Function_call integer_host (execute integer_host 3) function_f [VInt 1]
      after_two_parameters
    = (Raise (HostError (IndexError "list index out of range")), st').
Proof.
  destruct (call_with_too_few_arguments integer_host function_f [VInt 1] after_two_parameters)
    as (st' & Hcall); [vm_compute; lia |].
  exists st'. apply Hcall.
Defined.

(** X10, witness: [new P()] for the class [P]
    whose [init] has one parameter *)
Lemma constructor_with_too_few_arguments_witness :
  exists st',
    LoxClass_call integer_host (execute integer_host 5) class_P [] after_class_with_init
    = (Raise (HostError (IndexError "list index out of range")), st').
Proof.
  destruct (constructor_with_too_few_arguments integer_host class_P init_of_P []
              after_class_with_init) as (st' & Hcall); [reflexivity | vm_compute; lia |].
  exists st'. apply Hcall.
Defined.

(** X11, witness: the two-parameter [f] with three
    arguments *)
Lemma surplus_arguments_are_ignored_witness :
  Function_call integer_host (execute integer_host 3) function_f [VInt 1; VInt 2; VInt 3]
    after_two_parameters
  = Function_call integer_host (execute integer_host 3) function_f [VInt 1; VInt 2]
      after_two_parameters.
Proof.
  apply (surplus_arguments_are_ignored integer_host (execute integer_host 3) function_f
           [VInt 1; VInt 2] [VInt 3] after_two_parameters).
  vm_compute. lia.
Defined.

(** X13, witness: [1()] *)
Lemma call_of_a_non_callable_witness :
  evaluate integer_host 2 (Call (Sample.num 1) []) (Interpreter_new integer_host [])
  = (Raise (RuntimeError (NotCallable integer_host (VInt 1))),
     Interpreter_new integer_host []).
Proof.
  apply (call_of_a_non_callable integer_host 1 (Sample.num 1) []
           (Interpreter_new integer_host []) (VInt 1) (Interpreter_new integer_host [])
           [] (Interpreter_new integer_host [])); reflexivity.
Defined.

(** X14, witness: [new Q()] on a new interpreter *)
Lemma new_of_an_undefined_class_witness :
  evaluate integer_host 2 (New "Q" []) (Interpreter_new integer_host [])
  = (Raise (RuntimeError (UndefinedClass "Q")), Interpreter_new integer_host []).
Proof.
  apply (new_of_an_undefined_class integer_host 1 "Q" [] (Interpreter_new integer_host [])).
  vm_compute. reflexivity.
Defined.

(** X15, witness, on the empty list *)
Lemma append_then_pop_witness :
  exists st1,
    builtin_call integer_host fn_append [VList 0%nat; VInt 1] with_empty_list
    = (Normal (VList 0%nat), st1) /\
    builtin_call integer_host fn_pop [VList 0%nat] st1 = (Normal (VInt 1), with_empty_list).
Proof.
  destruct (append_then_pop integer_host 0%nat [] (VInt 1) with_empty_list)
    as (st1 & Ha & _ & _ & Hp); [reflexivity |].
  exists st1. split; assumption.
Defined.

(** X16, witness, on the list [[1, 2]] *)
Lemma pops_agree_on_a_non_empty_list_witness :
  exists x st',
    builtin_call integer_host fn_pop [VList 0%nat] with_two_items = (Normal x, st') /\
    builtin_call integer_host (fn_list_pop 0%nat) [] with_two_items = (Normal x, st').
Proof.
  destruct (pops_agree_on_a_non_empty_list integer_host 0%nat [VInt 1; VInt 2] with_two_items)
    as (x & _ & H1 & H2); [reflexivity | discriminate |].
  exists x. eexists. split; [exact H1 | exact H2].
Defined.

(** X17, witness, on the list [[1, 2]] *)
Lemma appends_agree_on_the_list_witness :
  snd (builtin_call integer_host fn_append [VList 0%nat; VInt 3] with_two_items)
  = snd (builtin_call integer_host (fn_list_append 0%nat) [VInt 3] with_two_items).
Proof.
  destruct (appends_agree_on_the_list integer_host 0%nat [VInt 1; VInt 2] (VInt 3)
              with_two_items) as [H1 H2]; [reflexivity |].
  now rewrite H1, H2.
Defined.

(** X18, witness, on a string *)
Lemma length_builtin_is_length_property_witness :
  builtin_call integer_host fn_length [VStr "abc"] (Interpreter_new integer_host [])
  = get_property integer_host (VStr "abc") "length" (Interpreter_new integer_host []).
Proof.
  apply (length_builtin_is_length_property integer_host (VStr "abc")). reflexivity.
Defined.

(** X19, witness: [xs[1] = 7] on the list [[1, 2]] *)
Lemma list_item_assignment_round_trip_witness :
  exists st',
    index_set integer_host (VList 0%nat) (VInt 1) (VInt 7) with_two_items
    = (Normal (VInt 7), st') /\
    index_get integer_host (VList 0%nat) (VInt 1) st' = (Normal (VInt 7), st').
Proof.
  destruct (list_item_assignment_round_trip integer_host 0%nat [VInt 1; VInt 2] (VInt 1) 1
              (VInt 7) with_two_items) as (st' & Hs & Hg & _);
    [reflexivity | reflexivity | simpl; lia |].
  exists st'. split; assumption.
Defined.

(** X20, witness: [d["a"] = 7] on the empty
    dictionary *)
Lemma dictionary_assignment_round_trip_witness :
  exists st',
    index_set integer_host (VDict 0%nat) (VStr "a") (VInt 7) with_empty_dict
    = (Normal (VInt 7), st') /\
    index_get integer_host (VDict 0%nat) (VStr "a") st' = (Normal (VInt 7), st').
Proof.
  destruct (dictionary_assignment_round_trip integer_host 0%nat [] (VStr "a") (VInt 7)
              with_empty_dict) as (st' & Hs & Hg & _); [reflexivity | reflexivity |].
  exists st'. split; assumption.
Defined.

(** X23, witness: [return 1] followed by a [print] *)
Lemma top_level_return_escapes_witness :
  interpret integer_host 3
    [Some (ReturnStmt (Some (Sample.num 1))); Some (PrintStmt (Sample.num 2))]
    (Interpreter_new integer_host [])
  = (Raise (ReturnException (VInt 1)), Interpreter_new integer_host []).
Proof.
  apply (top_level_return_escapes integer_host 3 [] (ReturnStmt (Some (Sample.num 1)))
           [Some (PrintStmt (Sample.num 2))] (Interpreter_new integer_host [])
           (Interpreter_new integer_host []) (VInt 1) (Interpreter_new integer_host []));
    reflexivity.
Defined.

(** X25, witness: [x = 1] inside a
    block declares nothing in the global environment. *)
Lemma names_are_declared_in_the_current_environment_witness :
  environment _ inside_a_block = 1%nat /\
  same_names integer_host inside_a_block
    (snd (execute integer_host 3 (ExpressionStmt (Assign "x" (Sample.num 1))) inside_a_block))
    0%nat.
Proof.
  split; [reflexivity |].
  apply (names_are_declared_in_the_current_environment integer_host 3 inside_a_block 0%nat).
  vm_compute. lia.
Defined.

(** X28, witness: the global environment after [x = 1] *)
Lemma names_are_never_removed_witness :
  exists e',
    envs _ (snd (execute integer_host 3 (ExpressionStmt (Assign "x" (Sample.num 1)))
                   (Interpreter_new integer_host []))) !! 0%nat = Some e' /\
    dom (values _ global_scope) ⊆ dom (values _ e').
Proof.
  destruct (names_are_never_removed integer_host 3 (Interpreter_new integer_host []) 0%nat
              global_scope) as [_ Hs]; [vm_compute; reflexivity |].
  destruct (Hs (ExpressionStmt (Assign "x" (Sample.num 1)))) as (e' & He' & _ & Hsub).
  exists e'. split; assumption.
Defined.

(** X12, witness: [f(1, 2)] for the two-parameter
    [f] *)
Lemma call_runs_the_body_in_a_new_scope_witness :
  exists scope,
    values _ scope !! "a" = Some (VInt 1) /\
    values _ scope !! "b" = Some (VInt 2) /\
    Function_call integer_host (execute integer_host 3) function_f [VInt 1; VInt 2]
      after_two_parameters
    = catch_return integer_host
        (execute_block integer_host (execute integer_host 3)
           [PrintStmt (Sample.var "a")] (length (envs _ after_two_parameters)))
        (set_envs integer_host (fun es => (es ++ [scope])%list) after_two_parameters).
Proof.
  destruct (call_runs_the_body_in_a_new_scope integer_host (execute integer_host 3)
              function_f [VInt 1; VInt 2] after_two_parameters)
    as (scope & _ & _ & Hargs & Hcall); [vm_compute; lia |].
  assert (NoDup ["a"; "b"]) as Hnd by (apply (bool_decide_unpack _); vm_compute; reflexivity).
  exists scope. split; [| split].
  - apply (Hargs Hnd 0%nat); reflexivity.
  - apply (Hargs Hnd 1%nat); reflexivity.
  - exact Hcall.
Defined.

(** X29, witness: [class A { m() { } }] on a new
    interpreter *)
Lemma class_declaration_defines_the_class_witness :
  exists k st' f,
    execute integer_host 1 (Class "A" None [FunDecl "m" [] []])
      (Interpreter_new integer_host [])
    = (Normal tt, st') /\
    lookup_variable integer_host "A" st' = (Normal (VClass k), st') /\
    find_method integer_host k "m" = Some f /\
    closure _ f = 0%nat.
Proof.
  destruct (class_declaration_defines_the_class integer_host 0 "A" [FunDecl "m" [] []]
              (Interpreter_new integer_host []) global_scope)
    as (k & st' & Hrun & Hlook & _ & _ & _ & Hlast); [vm_compute; reflexivity |].
  destruct (Hlast 0%nat (FunDecl "m" [] []) eq_refl) as (f & Hf & _ & Hclo).
  { intros [| j] d' Hlt Hj; [lia | discriminate]. }
  exists k, st', f. split; [exact Hrun |]. split; [exact Hlook |]. split; assumption.
Defined.

(** X21, witness: the undefined variable between two
    [print]s *)
Lemma interpret_reports_and_halts_witness :
  interpret integer_host 3
    [Some (PrintStmt (Sample.str "before")); Some (PrintStmt (Sample.var "missing"));
     Some (PrintStmt (Sample.str "after"))]
    (Interpreter_new integer_host [])
  = (Normal tt,
     write_stdout integer_host
       (("Runtime error: " ++ UndefinedVariable "missing") ++ newline)
       (snd (print integer_host "before" (Interpreter_new integer_host [])))).
Proof.
  apply (interpret_reports_and_halts integer_host 3
           [Some (PrintStmt (Sample.str "before"))] (PrintStmt (Sample.var "missing"))
           [Some (PrintStmt (Sample.str "after"))] (Interpreter_new integer_host [])
           (snd (print integer_host "before" (Interpreter_new integer_host [])))
           (UndefinedVariable "missing")
           (snd (print integer_host "before" (Interpreter_new integer_host []))));
    vm_compute; reflexivity.
Defined.

(** X30, witness: [true + 1] on a new interpreter *)
Lemma booleans_count_as_integers_witness :
  fst (binary_operation integer_host 1 PLUS (VBool true) (VInt 1)
         (Interpreter_new integer_host []))
  = Normal (VInt 2).
Proof.
  destruct (booleans_count_as_integers integer_host 1 PLUS true (VInt 1)
              (Interpreter_new integer_host [])) as [Hleft _];
    [eexists; reflexivity |].
  rewrite Hleft. reflexivity.
Defined.

(** C9, on an index of 4301 digits: the out-of-range message cannot be
    formatted, and the host's [ValueError] is raised in its place; with
    4300 digits the error is the out-of-range error. *)
Lemma long_integer_index_run :
  fst (evaluate integer_host 5
         (Index (List_ [Sample.num 1]) (Binary (Sample.num 10) EXPODENT (Sample.num 4300)))
         (Interpreter_new integer_host []))
  = Raise (HostError too_many_digits_for_str) /\
  fst (evaluate integer_host 5
         (Index (List_ [Sample.num 1]) (Binary (Sample.num 10) EXPODENT (Sample.num 4299)))
         (Interpreter_new integer_host []))
  = Raise (RuntimeError (ListIndexOutOfRange (decimal (10 ^ 4299)))).
Proof. split; vm_compute; reflexivity. Qed.
